(** * H1B job scraper: a shallow embedding of [job.js] and [db_manager.js]

    The development follows the two source files of the scraper:

    - [JsString]   the JavaScript string operations the code relies on;
    - [Md5]        the digest behind [crypto.createHash('md5')];
    - [Matcher]    [cleanCompanyName], [isSubstantialMatch], [isH1BCompany];
    - [Builder]    [extractWorkSetting], [extractJobType], [getATSApplyLink];
    - [Db]         the [DatabaseManager] class over an in-memory SQLite model;
    - [Scraper]    the [H1BJobScraper] class: loading, fetching, the run;

    then the vocabulary of the properties, and the properties themselves.

    Strings are sequences of UTF-16 code units restricted to the range
    U+0000..U+00FF: one [ascii] is one code unit.  Inside that range
    lower-casing, white space and word characters below are those of
    ECMAScript.  Console output is not modelled. *)

From Stdlib Require Import ZArith NArith Ascii String List Bool Lia Permutation.
From stdpp Require Import base option list gmap strings.

Local Open Scope string_scope.
Local Open Scope list_scope.

(** ** JavaScript strings *)

Module JsString.

Definition code (c : ascii) : N := N_of_ascii c.

(** [String.prototype.toLowerCase] on one code unit of the Latin-1 range:
    A-Z, and U+00C0..U+00DE except the multiplication sign U+00D7. *)
Definition lowerChar (c : ascii) : ascii :=
  let n := code c in
  if ((65 <=? n) && (n <=? 90))%N then ascii_of_N (n + 32)
  else if ((192 <=? n) && (n <=? 222) && negb (n =? 215))%N
       then ascii_of_N (n + 32)
  else c.

Fixpoint toLowerCase (s : string) : string :=
  match s with
  | EmptyString => EmptyString
  | String c s' => String (lowerChar c) (toLowerCase s')
  end.

(** White space of [\s] and of [trim]: TAB, LF, VT, FF, CR, SP, NBSP. *)
Definition isSpace (c : ascii) : bool :=
  let n := code c in
  (((9 <=? n) && (n <=? 13)) || (n =? 32) || (n =? 160))%N.

(** Word characters of [\w] and [\b]: [A-Za-z0-9_]. *)
Definition isWord (c : ascii) : bool :=
  let n := code c in
  (((65 <=? n) && (n <=? 90)) || ((97 <=? n) && (n <=? 122))
   || ((48 <=? n) && (n <=? 57)) || (n =? 95))%N.

Definition isEmpty (s : string) : bool :=
  match s with EmptyString => true | String _ _ => false end.

Definition head (s : string) : option ascii :=
  match s with EmptyString => None | String c _ => Some c end.

Fixpoint trimStart (s : string) : string :=
  match s with
  | EmptyString => EmptyString
  | String c s' => if isSpace c then trimStart s' else s
  end.

Fixpoint trimEnd (s : string) : string :=
  match s with
  | EmptyString => EmptyString
  | String c s' =>
      let t := trimEnd s' in
      if isSpace c && isEmpty t then EmptyString else String c t
  end.

Definition trim (s : string) : string := trimEnd (trimStart s).

Fixpoint startsWith (s p : string) {struct p} : bool :=
  match p, s with
  | EmptyString, _ => true
  | String a p', String b s' => Ascii.eqb a b && startsWith s' p'
  | String _ _, EmptyString => false
  end.

(** [s.includes(needle)]. *)
Fixpoint includes (s needle : string) : bool :=
  startsWith s needle
  || match s with
     | EmptyString => false
     | String _ s' => includes s' needle
     end.

(** [s.split(' ')]: the pieces between single separator characters; the
    empty string splits into one empty piece. *)
Fixpoint split (sep : ascii) (s : string) : list string :=
  match s with
  | EmptyString => [EmptyString]
  | String c s' =>
      if Ascii.eqb c sep then EmptyString :: split sep s'
      else match split sep s' with
           | h :: t => String c h :: t
           | [] => [String c EmptyString]
           end
  end.

(** [parts.join(sep)]. *)
Fixpoint join (sep : string) (parts : list string) : string :=
  match parts with
  | [] => EmptyString
  | [p] => p
  | p :: rest => p +:+ sep +:+ join sep rest
  end.

(** [s.slice(n)] for [0 <= n]. *)
Fixpoint slice (n : nat) (s : string) : string :=
  match n, s with
  | O, _ => s
  | S k, EmptyString => EmptyString
  | S k, String _ s' => slice k s'
  end.

(** The falsy test of a string value: only the empty string is falsy. *)
Definition truthy (s : string) : bool := negb (isEmpty s).

(** [a || b] on strings. *)
Definition orElse (a b : string) : string := if truthy a then a else b.

End JsString.

(** ** The MD5 digest of [crypto.createHash('md5')] (RFC 1321)

    [update(string)] hashes the UTF-8 encoding of the string and
    [digest('hex')] prints the sixteen bytes in lower-case hexadecimal.
    Words are 32-bit integers in [Z], reduced modulo 2^32 after every
    addition and rotation. *)

Module Md5.

Local Open Scope Z_scope.

Definition wrap32 (x : Z) : Z := x mod 4294967296.
Definition add32 (a b : Z) : Z := wrap32 (a + b).
Definition not32 (x : Z) : Z := Z.lxor x 4294967295.
Definition rotl32 (x n : Z) : Z :=
  wrap32 (Z.lor (Z.shiftl x n) (Z.shiftr x (32 - n))).

Definition shifts : list Z :=
  [ 7; 12; 17; 22; 7; 12; 17; 22; 7; 12; 17; 22; 7; 12; 17; 22;
    5; 9; 14; 20; 5; 9; 14; 20; 5; 9; 14; 20; 5; 9; 14; 20;
    4; 11; 16; 23; 4; 11; 16; 23; 4; 11; 16; 23; 4; 11; 16; 23;
    6; 10; 15; 21; 6; 10; 15; 21; 6; 10; 15; 21; 6; 10; 15; 21 ].

(** [floor (2^32 * |sin (i + 1)|)] for [i = 0 .. 63]. *)
Definition sines : list Z :=
  [ 0xd76aa478; 0xe8c7b756; 0x242070db; 0xc1bdceee;
    0xf57c0faf; 0x4787c62a; 0xa8304613; 0xfd469501;
    0x698098d8; 0x8b44f7af; 0xffff5bb1; 0x895cd7be;
    0x6b901122; 0xfd987193; 0xa679438e; 0x49b40821;
    0xf61e2562; 0xc040b340; 0x265e5a51; 0xe9b6c7aa;
    0xd62f105d; 0x02441453; 0xd8a1e681; 0xe7d3fbc8;
    0x21e1cde6; 0xc33707d6; 0xf4d50d87; 0x455a14ed;
    0xa9e3e905; 0xfcefa3f8; 0x676f02d9; 0x8d2a4c8a;
    0xfffa3942; 0x8771f681; 0x6d9d6122; 0xfde5380c;
    0xa4beea44; 0x4bdecfa9; 0xf6bb4b60; 0xbebfbc70;
    0x289b7ec6; 0xeaa127fa; 0xd4ef3085; 0x04881d05;
    0xd9d4d039; 0xe6db99e5; 0x1fa27cf8; 0xc4ac5665;
    0xf4292244; 0x432aff97; 0xab9423a7; 0xfc93a039;
    0x655b59c3; 0x8f0ccc92; 0xffeff47d; 0x85845dd1;
    0x6fa87e4f; 0xfe2ce6e0; 0xa3014314; 0x4e0811a1;
    0xf7537e82; 0xbd3af235; 0x2ad7d2bb; 0xeb86d391 ].

Record state := St { sa : Z; sb : Z; sc : Z; sd : Z }.

Definition initial : state :=
  St 0x67452301 0xefcdab89 0x98badcfe 0x10325476.

Definition mix (i : Z) (b c d : Z) : Z :=
  if i <? 16 then Z.lor (Z.land b c) (Z.land (not32 b) d)
  else if i <? 32 then Z.lor (Z.land d b) (Z.land (not32 d) c)
  else if i <? 48 then Z.lxor b (Z.lxor c d)
  else Z.lxor c (Z.lor b (not32 d)).

Definition wordIndex (i : Z) : Z :=
  if i <? 16 then i
  else if i <? 32 then (5 * i + 1) mod 16
  else if i <? 48 then (3 * i + 5) mod 16
  else (7 * i) mod 16.

Definition step (m : list Z) (s : state) (i : nat) : state :=
  let z := Z.of_nat i in
  let f := add32 (add32 (mix z (sb s) (sc s) (sd s)) (sa s))
                 (add32 (nth i sines 0)
                        (nth (Z.to_nat (wordIndex z)) m 0)) in
  St (sd s) (add32 (sb s) (rotl32 f (nth i shifts 0))) (sb s) (sc s).

Definition compress (s : state) (m : list Z) : state :=
  let r := fold_left (step m) (seq 0 64) s in
  St (add32 (sa s) (sa r)) (add32 (sb s) (sb r))
     (add32 (sc s) (sc r)) (add32 (sd s) (sd r)).

(** Sixteen little-endian words of one 64-byte block. *)
Fixpoint words (n : nat) (bytes : list Z) : list Z :=
  match n, bytes with
  | S k, b0 :: b1 :: b2 :: b3 :: rest =>
      (b0 + 256 * b1 + 65536 * b2 + 16777216 * b3) :: words k rest
  | _, _ => []
  end.

Fixpoint blocks (n : nat) (s : state) (bytes : list Z) : state :=
  match n with
  | O => s
  | S k => blocks k (compress s (words 16 (firstn 64 bytes))) (skipn 64 bytes)
  end.

Definition le64 (x : Z) : list Z :=
  map (fun k => (x / 2 ^ (8 * Z.of_nat k)) mod 256) (seq 0 8).

Definition pad (bytes : list Z) : list Z :=
  let len := Z.of_nat (length bytes) in
  bytes ++ [128] ++ repeat 0 (Z.to_nat ((55 - len) mod 64))
        ++ le64 ((8 * len) mod 18446744073709551616).

Definition digestBytes (bytes : list Z) : list Z :=
  let p := pad bytes in
  let r := blocks (length p / 64) initial p in
  flat_map (fun w => map (fun k => (w / 2 ^ (8 * Z.of_nat k)) mod 256) (seq 0 4))
           [sa r; sb r; sc r; sd r].

Definition hexDigit (d : Z) : ascii :=
  if d <? 10 then ascii_of_N (Z.to_N (48 + d)) else ascii_of_N (Z.to_N (87 + d)).

Fixpoint hex (bytes : list Z) : string :=
  match bytes with
  | [] => EmptyString
  | b :: rest => String (hexDigit (b / 16)) (String (hexDigit (b mod 16)) (hex rest))
  end.

(** UTF-8 of code units below U+0100: one byte below U+0080, else two. *)
Fixpoint utf8 (s : string) : list Z :=
  match s with
  | EmptyString => []
  | String c s' =>
      let n := Z.of_N (N_of_ascii c) in
      if n <? 128 then n :: utf8 s'
      else (192 + n / 64) :: (128 + n mod 64) :: utf8 s'
  end.

(** [crypto.createHash('md5').update(s).digest('hex')]. *)
Definition md5Hex (s : string) : string := hex (digestBytes (utf8 s)).

End Md5.

(** ** Company-name matching ([job.js], lines 118-163) *)

Module Matcher.
Import JsString.

(** The alternatives of the first pattern of [cleanCompanyName], in the
    order of the source; the flag tells whether the alternative ends in an
    optional period ([\.?]). *)
Definition suffixAlternatives : list (string * bool) :=
  [ ("inc", true); ("llc", true); ("corp", true); ("corporation", false);
    ("company", false); ("co", true); ("ltd", true); ("limited", false);
    ("services", false); ("group", false); ("technologies", false);
    ("tech", false); ("systems", false); ("solutions", false) ].

Definition isWordOpt (c : option ascii) : bool :=
  match c with Some a => isWord a | None => false end.

(** [\b] between two neighbouring positions; [None] is an end of input. *)
Definition wordBoundary (prev next : option ascii) : bool :=
  xorb (isWordOpt prev) (isWordOpt next).

Fixpoint stripPrefix (p s : string) : option string :=
  match p, s with
  | EmptyString, _ => Some s
  | String a p', String b s' =>
      if Ascii.eqb a b then stripPrefix p' s' else None
  | String _ _, EmptyString => None
  end.

Fixpoint lastChar (d : ascii) (s : string) : ascii :=
  match s with
  | EmptyString => d
  | String c s' => lastChar c s'
  end.

Definition dot : ascii := ".".
Definition comma : ascii := ",".
Definition space : ascii := " ".

(** One alternative followed by the closing [\b], tried at the start of
    [s]: the number of code units consumed.  The optional period is greedy,
    and given up when the boundary fails after it. *)
Definition matchAlternative (alt : string * bool) (s : string) : option nat :=
  let '(lit, optDot) := alt in
  match stripPrefix lit s with
  | None => None
  | Some rest =>
      let n := String.length lit in
      let lc := lastChar dot lit in
      match rest with
      | String c rest' =>
          if optDot && Ascii.eqb c dot then
            if wordBoundary (Some dot) (head rest') then Some (S n)
            else if wordBoundary (Some lc) (Some dot) then Some n
            else None
          else if wordBoundary (Some lc) (Some c) then Some n else None
      | EmptyString =>
          if wordBoundary (Some lc) None then Some n else None
      end
  end.

Fixpoint firstAlternative (alts : list (string * bool)) (s : string)
  : option nat :=
  match alts with
  | [] => None
  | alt :: rest =>
      match matchAlternative alt s with
      | Some n => Some n
      | None => firstAlternative rest s
      end
  end.

(** The whole pattern [\b(...)\b] tried at one position. *)
Definition matchSuffix (prev : option ascii) (s : string) : option nat :=
  if wordBoundary prev (head s) then firstAlternative suffixAlternatives s
  else None.

(** [.replace(/\b(...)\b/g, '')]: left to right, the code units of a match
    are dropped ([skip] counts those still to drop) and the search goes on
    behind it. *)
Fixpoint stripSuffixes (prev : option ascii) (skip : nat) (s : string)
  : string :=
  match s with
  | EmptyString => EmptyString
  | String c s' =>
      match skip with
      | S k => stripSuffixes (Some c) k s'
      | O =>
          match matchSuffix prev s with
          | Some (S k) => stripSuffixes (Some c) k s'
          | _ => String c (stripSuffixes (Some c) O s')
          end
      end
  end.

(** [.replace(/[,\.]/g, '')]. *)
Fixpoint removePunctuation (s : string) : string :=
  match s with
  | EmptyString => EmptyString
  | String c s' =>
      if Ascii.eqb c comma || Ascii.eqb c dot then removePunctuation s'
      else String c (removePunctuation s')
  end.

(** [.replace(/\s+/g, ' ')]; [inRun] holds inside a run of white space. *)
Fixpoint collapseSpaces (inRun : bool) (s : string) : string :=
  match s with
  | EmptyString => EmptyString
  | String c s' =>
      if isSpace c then
        if inRun then collapseSpaces true s'
        else String space (collapseSpaces true s')
      else String c (collapseSpaces false s')
  end.

Definition cleanCompanyName (name : string) : string :=
  trim (collapseSpaces false (removePunctuation (stripSuffixes None O name))).

(** [isSubstantialMatch].  The quotient [common / min] of two array
    lengths is compared with [0.6]: both [3/5] and the literal round to the
    same double and every other quotient of array lengths is far from it, so
    the test is [3 * min <= 5 * common] on the integers. *)
Definition longWords (name : string) : list string :=
  List.filter (fun w => (2 <? String.length w)%nat) (split space name).

Definition isSubstantialMatch (name1 name2 : string) : bool :=
  let words1 := longWords name1 in
  let words2 := longWords name2 in
  if ((length words1 =? 0) || (length words2 =? 0))%nat then false
  else
    let commonWords :=
      List.filter (fun word => existsb (String.eqb word) words2) words1 in
    (3 * Nat.min (length words1) (length words2) <=? 5 * length commonWords)%nat.

(** A [Set] of strings in insertion order, which is the order [for ... of]
    visits it in. *)
Definition has (x : string) (set : list string) : bool :=
  existsb (String.eqb x) set.

Fixpoint newSet (items : list string) : list string :=
  match items with
  | [] => []
  | x :: rest => x :: List.filter (fun y => negb (String.eqb x y)) (newSet rest)
  end.

(** The test of the loop body of [isH1BCompany] for one reference entry. *)
Definition fuzzyMatch (normalizedName h1bCompany : string) : bool :=
  let cleanJobCompany := cleanCompanyName normalizedName in
  let cleanH1bCompany := cleanCompanyName h1bCompany in
  String.eqb cleanJobCompany cleanH1bCompany
  || includes cleanJobCompany cleanH1bCompany
  || includes cleanH1bCompany cleanJobCompany
  || isSubstantialMatch cleanJobCompany cleanH1bCompany.

(** [isH1BCompany]; [None] is an absent ([undefined] or [null]) name.  The
    loop returns at the first entry that matches. *)
Definition isH1BCompany (h1bCompanies : list string)
           (companyName : option string) : bool :=
  match companyName with
  | None => false
  | Some name =>
      if isEmpty name then false
      else
        let normalizedName := trim (toLowerCase name) in
        if has normalizedName h1bCompanies then true
        else existsb (fuzzyMatch normalizedName) h1bCompanies
  end.

End Matcher.

(** ** Building a record from a raw posting ([job.js], lines 165-194, 279-295) *)

Module Builder.
Import JsString.

(** String coercion of a value that may be [undefined]. *)
Definition toStr (v : option string) : string :=
  match v with Some s => s | None => "undefined" end.

(** [extractWorkSetting(description, extensions)]. *)
Definition workSettingText (description : option string)
           (extensions : option (list string)) : string :=
  toLowerCase (toStr description +:+ " " +:+ join " " (default [] extensions)).

Definition extractWorkSetting (description : option string)
           (extensions : option (list string)) : string :=
  let text := workSettingText description extensions in
  if includes text "remote" && (includes text "onsite" || includes text "office")
  then "Hybrid"
  else if includes text "remote" then "Remote"
  else if includes text "onsite" || includes text "office"
          || includes text "on-site"
  then "Onsite"
  else "Not Specified".

Record ApplyOption := { o_title : string; o_link : string }.

Definition priorities : list string :=
  [ "career"; "jobs"; "workday"; "greenhouse"; "lever"; "bamboohr" ].

Fixpoint firstLink (prios : list string) (applyOptions : list ApplyOption)
  : option string :=
  match prios with
  | [] => None
  | priority :: rest =>
      match find (fun option =>
                    includes (toLowerCase (o_title option)) priority
                    || includes (toLowerCase (o_link option)) priority)
                 applyOptions with
      | Some found => Some (o_link found)
      | None => firstLink rest applyOptions
      end
  end.

Definition getATSApplyLink (applyOptions : option (list ApplyOption))
  : string :=
  match applyOptions with
  | None | Some [] => EmptyString
  | Some (first :: others) =>
      match firstLink priorities (first :: others) with
      | Some link => link
      | None => o_link first
      end
  end.

Definition jobTypes : list string :=
  [ "full-time"; "part-time"; "contract"; "internship"; "temporary" ].

Definition upperChar (c : ascii) : ascii :=
  let n := code c in
  if ((97 <=? n) && (n <=? 122))%N then ascii_of_N (n - 32) else c.

(** [type.charAt(0).toUpperCase() + type.slice(1)] on the labels above. *)
Definition capitalize (type : string) : string :=
  match type with
  | EmptyString => EmptyString
  | String c rest => String (upperChar c) rest
  end.

Fixpoint extractJobTypeFrom (extensions : list string) : string :=
  match extensions with
  | [] => EmptyString
  | ext :: rest =>
      let lowerExt := toLowerCase ext in
      match find (fun type => includes lowerExt type) jobTypes with
      | Some type => capitalize type
      | None => extractJobTypeFrom rest
      end
  end.

Definition extractJobType (extensions : option (list string)) : string :=
  match extensions with
  | None => EmptyString
  | Some exts => extractJobTypeFrom exts
  end.

End Builder.

(** ** Errors and promises

    A JavaScript error is its message.  A promise settles to a value or is
    rejected with an error; an error that is emitted where nobody listens
    ends the process and cannot be caught. *)

Record JsError := mkError { message : string }.

Inductive Outcome (A : Type) : Type :=
| Resolved (a : A)
| Rejected (e : JsError)
| Crashed (e : JsError).

Arguments Resolved {A} a.
Arguments Rejected {A} e.
Arguments Crashed {A} e.

(** ** The database manager ([db_manager.js]) *)

Module Db.
Import JsString.

(** A processed job, the object [processJobs] builds and [insertJobs]
    stores. *)
Record Job := mkJob {
  company_name : string;
  job_title : string;
  posting_time : string;
  job_location : string;
  job_type : string;
  job_description : string;
  work_setting : string;
  ats_apply_link : string;
  scraped_at : string
}.

(** The run statistics, and a row of [scraping_logs]. *)
Record Stats := mkStats {
  jobsScraped : nat;
  jobsFiltered : nat;
  jobsInserted : nat;
  jobsDuplicated : nat;
  apiCallsMade : nat;
  status : string;
  errorMessage : option string
}.

(** The SQLite connection: the three tables, and the engine's verdict on
    each statement it is handed.  [jobs] is keyed by [job_hash], which the
    schema declares [UNIQUE]; [h1b_companies] keeps its rows in row order
    as pairs of [company_name] (declared [UNIQUE]) and [normalized_name].
    [faults n] is the error of the [n]-th statement executed on the
    connection, if the engine fails on it. *)
Record Database := mkDb {
  jobs : gmap string Job;
  h1b_companies : list (string * string);
  scraping_logs : list Stats;
  executed : nat;
  faults : nat -> option JsError
}.

Definition withJobs (d : Database) (j : gmap string Job) : Database :=
  mkDb j (h1b_companies d) (scraping_logs d) (executed d) (faults d).
Definition withCompanies (d : Database) (c : list (string * string))
  : Database :=
  mkDb (jobs d) c (scraping_logs d) (executed d) (faults d).
Definition withLogs (d : Database) (l : list Stats) : Database :=
  mkDb (jobs d) (h1b_companies d) l (executed d) (faults d).

(** Handing one statement to the engine. *)
Definition execute (d : Database) : option JsError * Database :=
  (faults d (executed d),
   mkDb (jobs d) (h1b_companies d) (scraping_logs d) (S (executed d))
        (faults d)).

(** What the callback of [stmt.run] sees: [err], or [this.changes]. *)
Inductive RunResult :=
| RunError (err : JsError)
| RunChanges (changes : nat).

(** [generateJobHash]. *)
Definition hashString (job : Job) : string :=
  company_name job +:+ "-" +:+ job_title job +:+ "-"
    +:+ job_location job +:+ "-" +:+ posting_time job.

Definition generateJobHash (job : Job) : string :=
  Md5.md5Hex (hashString job).

(** [INSERT OR IGNORE INTO jobs ...] for one row. *)
Definition runInsertJob (jobHash : string) (job : Job) (d : Database)
  : RunResult * Database :=
  let '(err, d1) := execute d in
  match err with
  | Some e => (RunError e, d1)
  | None =>
      match jobs d1 !! jobHash with
      | Some _ => (RunChanges 0, d1)
      | None => (RunChanges 1, withJobs d1 (<[jobHash := job]> (jobs d1)))
      end
  end.

(** The loop of [insertJobs] with its two counters. *)
Fixpoint insertJobsLoop (batch : list Job) (inserted duplicated : nat)
         (d : Database) : nat * nat * Database :=
  match batch with
  | [] => (inserted, duplicated, d)
  | job :: rest =>
      let jobHash := generateJobHash job in
      let '(r, d1) := runInsertJob jobHash job d in
      match r with
      | RunError _ => insertJobsLoop rest inserted duplicated d1
      | RunChanges changes =>
          if (0 <? changes)%nat
          then insertJobsLoop rest (S inserted) duplicated d1
          else insertJobsLoop rest inserted (S duplicated) d1
      end
  end.

(** [insertJobs]: the pair is [{ inserted, duplicated }].  An empty batch
    does not touch the connection.  [BEGIN TRANSACTION] is run without a
    callback, so its error is not looked at; an error of [COMMIT] rejects
    the promise. *)
Definition insertJobs (batch : list Job) (d : Database)
  : Outcome (nat * nat) * Database :=
  match batch with
  | [] => (Resolved (0, 0), d)
  | _ :: _ =>
      let '(_, d1) := execute d in
      let '(inserted, duplicated, d2) := insertJobsLoop batch 0 0 d1 in
      let '(err, d3) := execute d2 in
      match err with
      | Some e => (Rejected e, d3)
      | None => (Resolved (inserted, duplicated), d3)
      end
  end.

(** [INSERT OR IGNORE INTO h1b_companies ...] for one row. *)
Definition runInsertCompany (company normalized : string) (d : Database)
  : RunResult * Database :=
  let '(err, d1) := execute d in
  match err with
  | Some e => (RunError e, d1)
  | None =>
      if existsb (fun row => String.eqb (fst row) company) (h1b_companies d1)
      then (RunChanges 0, d1)
      else (RunChanges 1,
            withCompanies d1 (h1b_companies d1 ++ [(company, normalized)]))
  end.

Fixpoint insertCompaniesLoop (companies : list string) (inserted : nat)
         (d : Database) : nat * Database :=
  match companies with
  | [] => (inserted, d)
  | company :: rest =>
      let normalized := trim (toLowerCase company) in
      let '(r, d1) := runInsertCompany company normalized d in
      match r with
      | RunError _ => insertCompaniesLoop rest inserted d1
      | RunChanges changes =>
          if (0 <? changes)%nat
          then insertCompaniesLoop rest (S inserted) d1
          else insertCompaniesLoop rest inserted d1
      end
  end.

(** [insertH1BCompanies]. *)
Definition insertH1BCompanies (companies : list string) (d : Database)
  : Outcome nat * Database :=
  let '(_, d1) := execute d in
  let '(inserted, d2) := insertCompaniesLoop companies 0 d1 in
  let '(err, d3) := execute d2 in
  match err with
  | Some e => (Rejected e, d3)
  | None => (Resolved inserted, d3)
  end.

(** [getH1BCompanies]: the set of the [normalized_name] column. *)
Definition getH1BCompanies (d : Database)
  : Outcome (list string) * Database :=
  let '(err, d1) := execute d in
  match err with
  | Some e => (Rejected e, d1)
  | None => (Resolved (Matcher.newSet (map snd (h1b_companies d1))), d1)
  end.

(** The row [logScrapingRun] binds: [x || 0] keeps a number,
    [status || 'success'] and [errorMessage || null] replace an empty
    string. *)
Definition logRow (stats : Stats) : Stats :=
  mkStats (jobsScraped stats) (jobsFiltered stats) (jobsInserted stats)
          (jobsDuplicated stats) (apiCallsMade stats)
          (orElse (status stats) "success")
          (match errorMessage stats with
           | Some m => if truthy m then Some m else None
           | None => None
           end).

(** [logScrapingRun]: resolves to [lastID], the row id of the new row. *)
Definition logScrapingRun (stats : Stats) (d : Database)
  : Outcome nat * Database :=
  let '(err, d1) := execute d in
  match err with
  | Some e => (Rejected e, d1)
  | None =>
      let logs := scraping_logs d1 ++ [logRow stats] in
      (Resolved (length logs), withLogs d1 logs)
  end.

(** [initialize]: opening the file, then the three [CREATE TABLE IF NOT
    EXISTS] statements, all of which are run; the promise is settled by the
    first of their errors, or resolved by the last statement. *)
Definition firstError (a b : option JsError) : option JsError :=
  match a with Some e => Some e | None => b end.

Definition initialize (d : Database) : Outcome unit * Database :=
  let '(opening, d0) := execute d in
  match opening with
  | Some e => (Rejected e, d0)
  | None =>
      let '(e1, d1) := execute d0 in
      let '(e2, d2) := execute d1 in
      let '(e3, d3) := execute d2 in
      match firstError e1 (firstError e2 e3) with
      | Some e => (Rejected e, d3)
      | None => (Resolved tt, d3)
      end
  end.

End Db.

(** ** The scraper ([job.js]) *)

Module Scraper.
Import JsString Matcher Builder Db.

(** *** What the code reads from outside *)

(** One element of [jobs_results]; [None] is an absent property. *)
Record DetectedExtensions := mkDetected {
  posted_at : option string;
  schedule_type : option string
}.

Record RawJob := mkRaw {
  r_company_name : option string;
  r_title : option string;
  r_location : option string;
  r_description : option string;
  r_detected_extensions : option DetectedExtensions;
  r_extensions : option (list string);
  r_apply_options : option (list ApplyOption)
}.

Record ResponseData := mkData { jobs_results : option (list RawJob) }.

(** The query parameters [fetchJobs] sends.  The start index it is called
    with is written to the console only. *)
Record Request := mkRequest {
  engine : string;
  q : string;
  hl : string;
  api_key : string
}.

(** The search service: [respond n req] is what the [n]-th request issued
    gets, a response or a failure. *)
Record Net := mkNet {
  respond : nat -> Request -> JsError + ResponseData;
  requests : nat
}.

(** [new Date().toISOString()]: the [n]-th reading of the clock. *)
Record Clock := mkClock { reading : nat -> string; readings : nat }.

(** The result file [h1b_job_results.csv] behind [csvWriter]:
    [writeFaults n] is the error of the [n]-th call of [writeRecords]. *)
Record ResultsFile := mkFile {
  exists_ : bool;
  written : list Job;
  writes : nat;
  writeFaults : nat -> option JsError
}.

(** The stream over [h1b_companies.csv]: the rows handed to the ['data']
    listener, in order, each a list of header and value in the order of
    [Object.values]; then ['end'], an error of the parser, which the
    ['error'] listener turns into a rejection, or an error of the file
    stream underneath, on which nothing listens. *)
Inductive CsvEnding :=
| StreamEnd
| ParserError (e : JsError)
| ReadError (e : JsError).

Record CsvStream := mkCsv {
  csv_rows : list (list (string * string));
  csv_ending : CsvEnding
}.

(** The scraper object together with its collaborators. *)
Record Machine := mkMachine {
  serpApiKey : string;
  h1bCompanies : list string;
  stats : Stats;
  dbManager : Database;
  net : Net;
  clock : Clock;
  resultsFile : ResultsFile;
  h1bCsv : CsvStream
}.

Definition setCompanies (c : list string) (m : Machine) : Machine :=
  mkMachine (serpApiKey m) c (stats m) (dbManager m) (net m) (clock m)
            (resultsFile m) (h1bCsv m).
Definition setStats (s : Stats) (m : Machine) : Machine :=
  mkMachine (serpApiKey m) (h1bCompanies m) s (dbManager m) (net m)
            (clock m) (resultsFile m) (h1bCsv m).
Definition setDb (d : Database) (m : Machine) : Machine :=
  mkMachine (serpApiKey m) (h1bCompanies m) (stats m) d (net m) (clock m)
            (resultsFile m) (h1bCsv m).
Definition setNet (n : Net) (m : Machine) : Machine :=
  mkMachine (serpApiKey m) (h1bCompanies m) (stats m) (dbManager m) n
            (clock m) (resultsFile m) (h1bCsv m).
Definition setClock (c : Clock) (m : Machine) : Machine :=
  mkMachine (serpApiKey m) (h1bCompanies m) (stats m) (dbManager m) (net m)
            c (resultsFile m) (h1bCsv m).
Definition setFile (f : ResultsFile) (m : Machine) : Machine :=
  mkMachine (serpApiKey m) (h1bCompanies m) (stats m) (dbManager m) (net m)
            (clock m) f (h1bCsv m).

(** *** Asynchronous methods: state passing with rejection *)

Definition M (A : Type) : Type := Machine -> Outcome A * Machine.

Definition ret {A} (a : A) : M A := fun m => (Resolved a, m).

Definition bind {A B} (c : M A) (k : A -> M B) : M B :=
  fun m =>
    match c m with
    | (Resolved a, m') => k a m'
    | (Rejected e, m') => (Rejected e, m')
    | (Crashed e, m') => (Crashed e, m')
    end.

Definition throw {A} (e : JsError) : M A := fun m => (Rejected e, m).

(** [try { body } catch (error) { handler }]. *)
Definition tryCatch {A} (body : M A) (handler : JsError -> M A) : M A :=
  fun m =>
    match body m with
    | (Rejected e, m') => handler e m'
    | r => r
    end.

Definition update (f : Machine -> Machine) : M unit :=
  fun m => (Resolved tt, f m).

Definition updateStats (f : Stats -> Stats) : M unit :=
  update (fun m => setStats (f (stats m)) m).

(** A method of [dbManager]. *)
Definition onDb {A} (op : Database -> Outcome A * Database) : M A :=
  fun m => let '(r, d) := op (dbManager m) in (r, setDb d m).

Notation "x <- c ;; k" := (bind c (fun x => k))
  (at level 100, c at next level, right associativity).
Notation "c ;;; k" := (bind c (fun _ => k))
  (at level 100, right associativity).

(** The statistics object the constructor and [scrapeJobs] start from. *)
Definition freshStats : Stats :=
  mkStats 0 0 0 0 0 "success" None.

(** [this.stats.status = 'error'; this.stats.errorMessage = error.message]. *)
Definition markError (error : JsError) (s : Stats) : Stats :=
  mkStats (jobsScraped s) (jobsFiltered s) (jobsInserted s)
          (jobsDuplicated s) (apiCallsMade s) "error"
          (Some (message error)).

(** *** Loading the reference companies (lines 52-116) *)

Definition quote : ascii := ascii_of_nat 34.
Definition apostrophe : ascii := "'".

Definition isQuote (c : ascii) : bool :=
  Ascii.eqb c quote || Ascii.eqb c apostrophe.

Fixpoint dropLastQuote (s : string) : string :=
  match s with
  | EmptyString => EmptyString
  | String c EmptyString => if isQuote c then EmptyString else s
  | String c s' => String c (dropLastQuote s')
  end.

(** [.replace(/^["']|["']$/g, '')]: a quote at the very start goes, and
    a quote at the very end of what follows goes. *)
Definition stripQuotes (s : string) : string :=
  match s with
  | EmptyString => EmptyString
  | String c s' => if isQuote c then dropLastQuote s' else dropLastQuote s
  end.

Fixpoint property (row : list (string * string)) (key : string)
  : option string :=
  match row with
  | [] => None
  | (k, v) :: rest => if String.eqb k key then Some v else property rest key
  end.

(** [a || b] where [a] and [b] may be [undefined]. *)
Definition orUndefined (a b : option string) : option string :=
  match a with
  | Some s => if truthy s then a else b
  | None => b
  end.

Definition employerColumn (row : list (string * string)) : option string :=
  orUndefined (property row "EMPLOYER_NAME")
    (orUndefined (property row "employer_name")
       (orUndefined (property row "company_name")
          (orUndefined (property row "Company Name")
             (orUndefined (property row "name")
                          (List.head (map snd row)))))).

(** The ['data'] listener: what one row adds to [companies]. *)
Definition onData (row : list (string * string)) (companies : list string)
  : list string :=
  match employerColumn row with
  | Some companyName =>
      if truthy companyName then
        let companyName := trim (stripQuotes companyName) in
        if truthy companyName then companies ++ [toLowerCase companyName]
        else companies
      else companies
  | None => companies
  end.

Definition readCompanies (rows : list (list (string * string)))
  : list string :=
  fold_left (fun companies row => onData row companies) rows [].

Definition loadH1BCompanies : M unit :=
  tryCatch
    (dbCompanies <- onDb getH1BCompanies ;;
     if (0 <? length dbCompanies)%nat then
       update (setCompanies dbCompanies)
     else
       fun m =>
         match csv_ending (h1bCsv m) with
         | StreamEnd =>
             (Resolved tt,
              setCompanies (newSet (readCompanies (csv_rows (h1bCsv m)))) m)
         | ParserError e => (Rejected e, m)
         | ReadError e => (Crashed e, m)
         end)
    (fun error => throw error).

Definition initialize : M unit :=
  tryCatch
    (onDb Db.initialize ;;;
     loadH1BCompanies ;;;
     (fun m =>
        if (0 <? length (h1bCompanies m))%nat then
          (companiesArray <- ret (h1bCompanies m) ;;
           onDb (insertH1BCompanies companiesArray) ;;;
           ret tt) m
        else ret tt m))
    (fun error => throw error).

(** *** Fetching (lines 197-218) *)

Definition axiosGet (req : Request) : M ResponseData :=
  fun m =>
    let n := net m in
    let m' := setNet (mkNet (respond n) (S (requests n))) m in
    match respond n (requests n) req with
    | inr data => (Resolved data, m')
    | inl e => (Rejected e, m')
    end.

Definition countApiCall (s : Stats) : Stats :=
  mkStats (jobsScraped s) (jobsFiltered s) (jobsInserted s)
          (jobsDuplicated s) (S (apiCallsMade s)) (status s)
          (errorMessage s).

(** The [params] of the request. *)
Definition searchRequest (key : string) : Request :=
  mkRequest "google_jobs" "Data Engineer" "en" key.

Definition fetchJobs (startIndex : nat) : M ResponseData :=
  tryCatch
    (response <- (fun m => axiosGet (searchRequest (serpApiKey m)) m) ;;
     updateStats countApiCall ;;;
     ret response)
    (fun error =>
       updateStats (markError error) ;;;
       throw error).

(** *** Filtering and building (lines 221-277) *)

Definition addScraped (n : nat) (s : Stats) : Stats :=
  mkStats (jobsScraped s + n) (jobsFiltered s) (jobsInserted s)
          (jobsDuplicated s) (apiCallsMade s) (status s) (errorMessage s).

Definition countFiltered (s : Stats) : Stats :=
  mkStats (jobsScraped s) (S (jobsFiltered s)) (jobsInserted s)
          (jobsDuplicated s) (apiCallsMade s) (status s) (errorMessage s).

Definition now : M string :=
  fun m =>
    let c := clock m in
    (Resolved (reading c (readings c)),
     setClock (mkClock (reading c) (S (readings c))) m).

(** [x || ''] for a property that may be absent. *)
Definition orEmpty (v : option string) : string :=
  match v with Some s => s | None => EmptyString end.

Definition postedAt (job : RawJob) : option string :=
  match r_detected_extensions job with
  | Some d => posted_at d
  | None => None
  end.

Definition scheduleType (job : RawJob) : option string :=
  match r_detected_extensions job with
  | Some d => schedule_type d
  | None => None
  end.

Definition firstExtension (job : RawJob) : option string :=
  match r_extensions job with
  | Some exts => List.head exts
  | None => None
  end.

(** The object literal [processedJob]. *)
Definition processedJob (job : RawJob) (scrapedAt : string) : Job :=
  mkJob (orEmpty (r_company_name job))
        (orEmpty (r_title job))
        (orEmpty (orUndefined (postedAt job) (firstExtension job)))
        (orEmpty (r_location job))
        (orEmpty (orUndefined (scheduleType job)
                              (Some (extractJobType (r_extensions job)))))
        (orEmpty (r_description job))
        (extractWorkSetting (r_description job) (r_extensions job))
        (getATSApplyLink (r_apply_options job))
        scrapedAt.

(** The inner [for ... of] over one page. *)
Fixpoint jobLoop (results : list RawJob) (allJobs : list Job)
  : M (list Job) :=
  match results with
  | [] => ret allJobs
  | job :: rest =>
      fun m =>
        if negb (isH1BCompany (h1bCompanies m) (r_company_name job))
        then jobLoop rest allJobs m
        else
          (updateStats countFiltered ;;;
           scrapedAt <- now ;;
           jobLoop rest (allJobs ++ [processedJob job scrapedAt])) m
  end.

Definition maxPages : nat := 3.

(** The [for] loop over the pages, [pagesLeft] iterations from [page] on.
    The pause of one second after a page is not modelled. *)
Fixpoint pageLoop (pagesLeft page startIndex : nat) (allJobs : list Job)
  : M (list Job) :=
  match pagesLeft with
  | O => ret allJobs
  | S pages =>
      data <- fetchJobs startIndex ;;
      match jobs_results data with
      | None | Some [] => ret allJobs
      | Some results =>
          updateStats (addScraped (length results)) ;;;
          allJobs' <- jobLoop results allJobs ;;
          pageLoop pages (S page) (startIndex + 10) allJobs'
      end
  end.

Definition processJobs : M (list Job) :=
  tryCatch
    (pageLoop maxPages 0 0 [])
    (fun error =>
       updateStats (markError error) ;;;
       throw error).

(** *** Saving (lines 298-338) *)

Definition writeRecords (records : list Job) : M unit :=
  fun m =>
    let f := resultsFile m in
    match writeFaults f (writes f) with
    | Some e =>
        (Rejected e,
         setFile (mkFile (exists_ f) (written f) (S (writes f))
                         (writeFaults f)) m)
    | None =>
        (Resolved tt,
         setFile (mkFile true (written f ++ records) (S (writes f))
                         (writeFaults f)) m)
    end.

(** [fs.promises.access]: rejected when the file is not there. *)
Definition access : M unit :=
  fun m =>
    if exists_ (resultsFile m) then (Resolved tt, m)
    else (Rejected (mkError "ENOENT"), m).

Definition saveJobsToCSV (batch : list Job) : M unit :=
  tryCatch
    (tryCatch access (fun _ => writeRecords []) ;;;
     writeRecords batch)
    (fun error => throw error).

Definition setInsertCounts (r : nat * nat) (s : Stats) : Stats :=
  mkStats (jobsScraped s) (jobsFiltered s) (fst r) (snd r)
          (apiCallsMade s) (status s) (errorMessage s).

Definition saveJobs (batch : list Job) : M unit :=
  tryCatch
    (if (length batch =? 0)%nat then ret tt
     else
       dbResult <- onDb (insertJobs batch) ;;
       updateStats (setInsertCounts dbResult) ;;;
       saveJobsToCSV batch)
    (fun error =>
       updateStats (markError error) ;;;
       throw error).

(** *** One run (lines 361-398) *)

Definition logRun : M nat :=
  fun m => onDb (logScrapingRun (stats m)) m.

(** The [try] block of [scrapeJobs]. *)
Definition scrapeAttempt : M (list Job) :=
  update (setStats freshStats) ;;;
  batch <- processJobs ;;
  saveJobs batch ;;;
  logRun ;;;
  ret batch.

(** The [catch] block of [scrapeJobs]. *)
Definition failureHandler (error : JsError) : M (list Job) :=
  updateStats (markError error) ;;;
  logRun ;;;
  throw error.

Definition scrapeJobs : M (list Job) :=
  tryCatch scrapeAttempt failureHandler.

End Scraper.

(** * Vocabulary of the properties and scenarios *)

Section Vocabulary.
Import JsString Matcher Builder Db Scraper.

(** ** Strings and cleaned names *)

(** [needle] occurs in [s]. *)
Definition Contains (s needle : string) : Prop :=
  exists before after, s = before +:+ needle +:+ after.

Definition isPunctuation (c : ascii) : bool :=
  Ascii.eqb c comma || Ascii.eqb c dot.

(** No comma and no period occurs in [s]. *)
Fixpoint noPunctuation (s : string) : bool :=
  match s with
  | EmptyString => true
  | String c s' => negb (isPunctuation c) && noPunctuation s'
  end.

Definition isSpaceOpt (c : option ascii) : bool :=
  match c with Some a => isSpace a | None => false end.

(** Every white-space character of [s] is one space that a character other
    than white space follows. *)
Fixpoint singleSpaces (s : string) : bool :=
  match s with
  | EmptyString => true
  | String c s' =>
      (if isSpace c
       then Ascii.eqb c space && negb (isEmpty s') && negb (isSpaceOpt (head s'))
       else true)
      && singleSpaces s'
  end.

(** The same, except that the last character may be a space. *)
Fixpoint looseSpaces (s : string) : bool :=
  match s with
  | EmptyString => true
  | String c s' =>
      (if isSpace c
       then Ascii.eqb c space && negb (isSpaceOpt (head s'))
       else true)
      && looseSpaces s'
  end.

(** No white space occurs in [s]. *)
Fixpoint noSpace (s : string) : bool :=
  match s with
  | EmptyString => true
  | String c s' => negb (isSpace c) && noSpace s'
  end.

(** Only word characters occur in [s]. *)
Fixpoint allWord (s : string) : bool :=
  match s with
  | EmptyString => true
  | String c s' => isWord c && allWord s'
  end.

(** No word character occurs in [s]. *)
Fixpoint noWord (s : string) : bool :=
  match s with
  | EmptyString => true
  | String c s' => negb (isWord c) && noWord s'
  end.

(** A token: a non-empty run of word characters. *)
Definition token (s : string) : bool := negb (isEmpty s) && allWord s.

(** The fourteen words of the first pattern, and the tokens they leave. *)
Definition suffixWords : list string := map fst suffixAlternatives.

Definition isSuffixWord (w : string) : bool :=
  existsb (String.eqb w) suffixWords.

Definition kept (w : string) : string :=
  if isSuffixWord w then EmptyString else w.

(** A name cut into its tokens, each with the stretch of other characters
    that follows it up to the next token; only the last stretch may be
    empty. *)
Fixpoint wellCut (pieces : list (string * string)) : bool :=
  match pieces with
  | [] => true
  | (w, gap) :: rest =>
      token w && noWord gap
      && (negb (isEmpty gap) || match rest with [] => true | _ => false end)
      && wellCut rest
  end.

(** The name the pieces make up. *)
Fixpoint pieced (pieces : list (string * string)) : string :=
  match pieces with
  | [] => EmptyString
  | (w, gap) :: rest => w +:+ gap +:+ pieced rest
  end.

(** The same name without the tokens of the vocabulary and without commas
    and periods. *)
Fixpoint cleanedPieces (pieces : list (string * string)) : string :=
  match pieces with
  | [] => EmptyString
  | (w, gap) :: rest =>
      kept w +:+ removePunctuation gap +:+ cleanedPieces rest
  end.

(** Every name has one such cut: the stretch before its first token, and
    its tokens with their gaps. *)
Fixpoint cut (s : string) : string * list (string * string) :=
  match s with
  | EmptyString => (EmptyString, [])
  | String c s' =>
      let (lead, pieces) := cut s' in
      if isWord c then
        match lead, pieces with
        | EmptyString, (w, gap) :: rest =>
            (EmptyString, (String c w, gap) :: rest)
        | _, _ => (EmptyString, (String c EmptyString, lead) :: pieces)
        end
      else (String c lead, pieces)
  end.

(** Tokens separated by single spaces, as pieces. *)
Fixpoint spaced (words : list string) : list (string * string) :=
  match words with
  | [] => []
  | [w] => [(w, EmptyString)]
  | w :: rest => (w, " ") :: spaced rest
  end.

(** The code unit before the position behind [s], when [prev] is the one
    before [s]. *)
Definition lastOpt (prev : option ascii) (s : string) : option ascii :=
  match s with
  | EmptyString => prev
  | String c s' => Some (lastChar c s')
  end.

(** Whether the optional period of an alternative is part of the match
    when [rest] follows the literal. *)
Definition dotTaken (optDot : bool) (rest : string) : bool :=
  match rest with
  | String c rest' => optDot && Ascii.eqb c dot && isWordOpt (head rest')
  | EmptyString => false
  end.

(** ** The store *)

Definition acmeJob (description scrapedAt : string) : Job :=
  mkJob "Acme" "Data Engineer" "2 days ago" "Austin, TX" "Full-time"
        description "Remote" "https://acme.example/careers" scrapedAt.

(** The engine fails on no statement. *)
Definition healthy (d : Database) : Prop := forall n, faults d n = None.

Definition fingerprints (batch : list Job) : gset string :=
  list_to_set (map generateJobHash batch).

(** An empty store that never fails. *)
Definition emptyDb : Database :=
  mkDb ∅ [] [] 0 (fun _ => None).

Definition jobA : Job := acmeJob "Build pipelines" "2024-01-01T00:00:00.000Z".
Definition jobB : Job :=
  mkJob "Globex" "Data Engineer" "1 day ago" "Remote" "Contract"
        "Move data" "Remote" "https://globex.example/jobs"
        "2024-01-01T00:00:01.000Z".
Definition jobC : Job := acmeJob "Reposted" "2024-01-02T00:00:00.000Z".

(** ** Runs *)

(** The state after the request of [fetchJobs] has been issued. *)
Definition requested (m : Machine) : Machine :=
  setNet (mkNet (respond (net m)) (S (requests (net m)))) m.

Definition answer (m : Machine) : JsError + ResponseData :=
  respond (net m) (requests (net m)) (searchRequest (serpApiKey m)).

(** The postings of a page that pass the filter. *)
Definition sponsored (companies : list string) (results : list RawJob)
  : list RawJob :=
  List.filter (fun job => isH1BCompany companies (r_company_name job)) results.

Definition addFiltered (n : nat) (s : Stats) : Stats :=
  mkStats (jobsScraped s) (jobsFiltered s + n) (jobsInserted s)
          (jobsDuplicated s) (apiCallsMade s) (status s) (errorMessage s).

(** Everything but the statistics and the clock is the same. *)
Definition sameWorld (m m' : Machine) : Prop :=
  serpApiKey m' = serpApiKey m
  /\ h1bCompanies m' = h1bCompanies m
  /\ dbManager m' = dbManager m
  /\ net m' = net m
  /\ resultsFile m' = resultsFile m
  /\ h1bCsv m' = h1bCsv m.

(** How many of the [count] requests numbered from [from] on get a
    response. *)
Fixpoint responses (service : nat -> Request -> JsError + ResponseData)
         (req : Request) (from count : nat) : nat :=
  match count with
  | O => 0
  | S k =>
      (match service from req with inr _ => 1 | inl _ => 0 end)
      + responses service req (S from) k
  end.

(** Steps that issue no request and leave the call counter alone. *)
Definition quiet (m m' : Machine) : Prop :=
  net m' = net m
  /\ serpApiKey m' = serpApiKey m
  /\ apiCallsMade (stats m') = apiCallsMade (stats m).

(** ** Scenario data *)

Definition posting (company : string) : RawJob :=
  mkRaw (Some company) (Some "Data Engineer") (Some "Austin, TX")
        (Some "Remote position, occasional office visits") None
        (Some ["2 days ago"; "Full-time"]) None.

Definition steadyClock : Clock :=
  mkClock (fun _ => "2024-01-01T00:00:00.000Z") 0.

Definition noResultsFile : ResultsFile :=
  mkFile false [] 0 (fun _ => None).

Definition networkDown : JsError := mkError "network down".
Definition diskFull : JsError := mkError "disk full".

(** A search service that answers the requests with the given pages, one
    after the other, and fails afterwards. *)
Definition serving (pages : list (list RawJob)) : Net :=
  mkNet (fun n _ =>
           match nth_error pages n with
           | Some page => inr (mkData (Some page))
           | None => inl networkDown
           end)
        0.

Definition machine (companies : list string) (d : Database) (n : Net)
           (csv : CsvStream) : Machine :=
  mkMachine "key" companies freshStats d n steadyClock noResultsFile csv.

Definition offline : Machine :=
  machine ["google"] emptyDb (serving []) (mkCsv [] StreamEnd).

Definition brokenDb : Database := mkDb ∅ [] [] 0 (fun _ => Some diskFull).

Definition offlineAndBroken : Machine :=
  machine ["google"] brokenDb (serving []) (mkCsv [] StreamEnd).

Definition firstPage : list RawJob :=
  [ posting "Google LLC"; posting "Totally Unrelated Startup";
    posting "Initech"; posting "Acme Corp."; posting "Umbrella";
    posting "Hooli"; posting "Globex Corporation"; posting "Vandelay";
    posting "Wonka"; posting "Stark" ].

Definition sponsors : list string := ["google"; "acme"; "globex"].

Definition twoPages : Machine :=
  machine sponsors emptyDb (serving [firstPage; []]) (mkCsv [] StreamEnd).

Definition blankCsv : CsvStream :=
  mkCsv [ [("EMPLOYER_NAME", EmptyString)];
          [("EMPLOYER_NAME", "  "); ("STATE", "TX")] ]
        StreamEnd.

Definition unfiltered : Machine :=
  machine [] emptyDb
          (serving [[posting "Google LLC"; posting "Initech"]; []])
          blankCsv.

(** ** Building records *)

(** The test of [getATSApplyLink] for one priority term and one option. *)
Definition mentions (priority : string) (option : ApplyOption) : bool :=
  includes (toLowerCase (o_title option)) priority
  || includes (toLowerCase (o_link option)) priority.

Definition linkedInOption : ApplyOption :=
  Build_ApplyOption "Apply on LinkedIn" "https://linkedin.example/1".
Definition workdayOption : ApplyOption :=
  Build_ApplyOption "Company site" "https://acme.myWorkday.example/2".
Definition indeedOption : ApplyOption :=
  Build_ApplyOption "Apply on Indeed" "https://indeed.example/3".

(** ** Loading *)

(** [s] between two double quotes. *)
Definition quoted (s : string) : string :=
  String quote (s +:+ String quote EmptyString).

(** A name as the reference set stores it. *)
Definition normalised (c : string) : Prop :=
  c <> EmptyString /\ toLowerCase c = c /\ trim c = c.

Definition readmeCsv : CsvStream :=
  mkCsv [ [("EMPLOYER_NAME", quoted "FIRST TEK, INC.")];
          [("EMPLOYER_NAME", "Google LLC")];
          [("EMPLOYER_NAME", " google llc ")] ]
        StreamEnd.

(** The tables and the engine are the same; only the count of executed
    statements may differ. *)
Definition sameTables (d d' : Database) : Prop :=
  jobs d' = jobs d
  /\ h1b_companies d' = h1b_companies d
  /\ scraping_logs d' = scraping_logs d
  /\ faults d' = faults d.

(** The row [insertH1BCompanies] binds for one company. *)
Definition companyRow (company : string) : string * string :=
  (company, trim (toLowerCase company)).

Definition readmeMachine : Machine :=
  machine [] emptyDb (serving []) readmeCsv.

(** A store that already holds two companies, and a file nobody can read. *)
Definition seededDb : Database :=
  mkDb ∅ [companyRow "Google LLC"; companyRow "Acme Corp."] [] 0
       (fun _ => None).

Definition seededMachine : Machine :=
  machine [] seededDb (serving []) (mkCsv [] (ReadError (mkError "ENOENT"))).

(** A file whose parser gives up after the first row, read by a scraper
    that still holds an older set. *)
Definition brokenCsvMachine : Machine :=
  machine ["older entry"] emptyDb (serving [])
          (mkCsv [[("EMPLOYER_NAME", "Google LLC")]]
                 (ParserError (mkError "Invalid row"))).

(** A store that cannot be opened. *)
Definition closedMachine : Machine :=
  machine ["older entry"] brokenDb (serving []) readmeCsv.

(** ** Rows of the jobs table *)

(** Every row is stored under the fingerprint of its own fields. *)
Definition keyedByFingerprint (table : gmap string Job) : Prop :=
  forall jobHash job, table !! jobHash = Some job -> jobHash = generateJobHash job.

Definition isHexDigit (c : ascii) : bool :=
  existsb (Ascii.eqb c) (list_ascii_of_string "0123456789abcdef").

(** Two postings that differ in company and title and have one hash
    string. *)
Definition smithJones : Job :=
  mkJob "Smith-Jones" "Engineer" "2 days ago" "Austin, TX" "Full-time"
        "First posting" "Remote" "https://a.example" "2024-01-01T00:00:00.000Z".
Definition smith : Job :=
  mkJob "Smith" "Jones-Engineer" "2 days ago" "Austin, TX" "Contract"
        "Second posting" "Onsite" "https://b.example" "2024-01-02T00:00:00.000Z".

(** A store that holds [jobA], scraped earlier. *)
Definition storeWithA : Database :=
  mkDb {[ generateJobHash jobA := jobA ]} [] [] 0 (fun _ => None).

(** ** Records of a run *)

(** [record] was built from a posting that passes the filter. *)
Definition builtFrom (companies : list string) (record : Job) : Prop :=
  exists raw scrapedAt,
    record = processedJob raw scrapedAt
    /\ isH1BCompany companies (r_company_name raw) = true.

(** A search service that answers every request with the same page. *)
Definition endless (page : list RawJob) : Net :=
  mkNet (fun _ _ => inr (mkData (Some page))) 0.

Definition busyMachine : Machine :=
  machine sponsors emptyDb (endless firstPage) (mkCsv [] StreamEnd).

(** A service that answers once and then fails. *)
Definition thenDown : Machine :=
  machine sponsors emptyDb (serving [firstPage]) (mkCsv [] StreamEnd).

(** ** Saving *)

(** The result file takes every write. *)
Definition writable (f : ResultsFile) : Prop :=
  forall n, writeFaults f n = None.

Definition storedIn (d : Database) (job : Job) : Prop :=
  is_Some (jobs d !! generateJobHash job).

(** A scraper whose result file is on a full disk. *)
Definition fullDisk : Machine :=
  mkMachine "key" sponsors freshStats storeWithA (serving []) steadyClock
            (mkFile true [jobA] 1 (fun _ => Some diskFull))
            (mkCsv [] StreamEnd).

Definition savingMachine : Machine :=
  mkMachine "key" sponsors freshStats storeWithA (serving []) steadyClock
            noResultsFile (mkCsv [] StreamEnd).

(** ** Whole runs *)

(** A working service over a store that knows [jobA]'s employer. *)
Definition steadyMachine : Machine :=
  mkMachine "key" sponsors (mkStats 7 7 7 7 7 "error" (Some "stale"))
            emptyDb (serving [firstPage; []]) steadyClock noResultsFile
            (mkCsv [] StreamEnd).

(** The fingerprint a posting gets once it is built; the scrape time plays
    no part in it. *)
Definition postingHash (raw : RawJob) : string :=
  generateJobHash (processedJob raw EmptyString).

(** ** Paging by offset *)

(** A search service that pages by offset: [offsetOf] is the offset it
    reads off a request, [fetchPage] the page it holds at an offset, and
    every request is answered with the page at its offset. *)
Definition pagesByOffset (n : Net) (offsetOf : Request -> nat)
           (fetchPage : nat -> list RawJob) : Prop :=
  forall k req,
    respond n k req = inr (mkData (Some (fetchPage (offsetOf req)))).

(** No field of a [Request] names an offset: the service starts at the
    first posting. *)
Definition firstOffset (req : Request) : nat := 0.

(** Ten postings in all: the page at offset 0 holds them, the pages from
    offset 10 on hold none. *)
Definition tenPostings (offset : nat) : list RawJob :=
  if (offset <? 10)%nat then firstPage else [].

Definition pagedService : Net :=
  mkNet (fun _ req => inr (mkData (Some (tenPostings (firstOffset req))))) 0.

Definition pagedMachine : Machine :=
  machine sponsors emptyDb pagedService (mkCsv [] StreamEnd).

End Vocabulary.

(** * Properties *)

(** ** Strings *)

Section StringFacts.
Import JsString.

Lemma startsWith_spec s p :
  startsWith s p = true <-> exists after, s = p +:+ after.
Proof.
  revert s; induction p as [|a p IH]; intros s; simpl.
  - split; [intros _; now exists s | reflexivity].
  - destruct s as [|b s]; simpl.
    + split; [discriminate | intros [x Hx]; discriminate].
    + rewrite andb_true_iff, Ascii.eqb_eq, IH. split.
      * intros [-> [x ->]]. now exists x.
      * intros [x Hx]. injection Hx as -> ->. split; [reflexivity | now exists x].
Qed.

Lemma includes_spec s needle :
  includes s needle = true <-> Contains s needle.
Proof.
  unfold Contains. induction s as [|c s IH].
  - simpl. rewrite orb_false_r, startsWith_spec. split.
    + intros [x Hx]. exists EmptyString, x. exact Hx.
    + intros [[|b y] [x Hx]]; [now exists x | discriminate].
  - cbn [includes]. rewrite orb_true_iff, IH, startsWith_spec. split.
    + intros [[x Hx] | [y [x Hx]]].
      * exists EmptyString, x. exact Hx.
      * exists (String c y), x. simpl. now rewrite Hx.
    + intros [[|b y] [x Hx]].
      * left. now exists x.
      * right. simpl in Hx. injection Hx as -> ->. now exists y, x.
Qed.

Lemma includes_empty s : includes s EmptyString = true.
Proof. destruct s; reflexivity. Qed.

Lemma append_assoc_string (a b c : string) :
  (a +:+ b) +:+ c = a +:+ (b +:+ c).
Proof.
  induction a as [|x a IH]; [reflexivity|].
  change (String x ((a +:+ b) +:+ c) = String x (a +:+ (b +:+ c))).
  now rewrite IH.
Qed.

End StringFacts.

(** ** The work-setting classifier *)

Section WorkSetting.
Import JsString Builder.

Lemma includes_false s needle :
  includes s needle = false <-> ~ Contains s needle.
Proof.
  rewrite <- includes_spec. destruct (includes s needle); split; auto;
    try discriminate. intros H. now destruct H.
Qed.

(** C9.  The classifier looks at the lower-cased text made of the
    description, a space and the extensions joined by spaces.  It answers
    Hybrid exactly when the text contains "remote" and also "onsite" or
    "office"; Remote exactly when it contains "remote" and neither of
    these two; Onsite exactly when it does not contain "remote" and
    contains "onsite", "office" or "on-site"; Not Specified exactly when it
    contains none of the four keywords.  So a text with "remote" and with
    "onsite" or "office" is Hybrid, never Remote or Onsite. *)
Theorem extractWorkSetting_decision_table
        (description : option string) (extensions : option (list string)) :
  let text :=
    toLowerCase (toStr description +:+ " " +:+ join " " (default [] extensions)) in
  let remote := Contains text "remote" in
  let office := Contains text "onsite" \/ Contains text "office" in
  let result := extractWorkSetting description extensions in
  (result = "Hybrid" <-> remote /\ office)
  /\ (result = "Remote" <-> remote /\ ~ office)
  /\ (result = "Onsite" <->
      ~ remote /\ (office \/ Contains text "on-site"))
  /\ (result = "Not Specified" <->
      ~ remote /\ ~ office /\ ~ Contains text "on-site")
  /\ (remote /\ office -> result <> "Remote" /\ result <> "Onsite").
Proof.
  intros text remote office result.
  subst result remote office. unfold extractWorkSetting.
  fold (workSettingText description extensions).
  change (workSettingText description extensions) with text.
  destruct (includes text "remote") eqn:Hr;
    destruct (includes text "onsite") eqn:Ho;
    destruct (includes text "office") eqn:Hf;
    destruct (includes text "on-site") eqn:Hs;
    cbn [andb orb];
    repeat match goal with
           | H : includes _ _ = true |- _ => apply includes_spec in H
           | H : includes _ _ = false |- _ => apply includes_false in H
           end;
    repeat split; intros; try discriminate; try tauto.
Qed.

(** The scenario table of the classifier. *)
Example extractWorkSetting_hybrid :
  extractWorkSetting (Some "Remote position, occasional office visits") None
  = "Hybrid".
Proof. reflexivity. Qed.

Example extractWorkSetting_remote :
  extractWorkSetting (Some "Fully remote role") None = "Remote".
Proof. reflexivity. Qed.

Example extractWorkSetting_onsite :
  extractWorkSetting (Some "On-site only") None = "Onsite".
Proof. reflexivity. Qed.

Example extractWorkSetting_not_specified :
  extractWorkSetting (Some "Flexible arrangement") None = "Not Specified".
Proof. reflexivity. Qed.

(** The keywords may come from the extensions, and an absent description
    reads as the text "undefined". *)
Example extractWorkSetting_extensions :
  extractWorkSetting None (Some ["Remote"; "In Office"]) = "Hybrid".
Proof. reflexivity. Qed.

(** "on-site" is looked for in the third test only. *)
Example extractWorkSetting_remote_on_site :
  extractWorkSetting (Some "Remote, with on-site weeks") None = "Remote".
Proof. reflexivity. Qed.

End WorkSetting.

(** ** The matcher *)

Section MatcherFacts.
Import JsString Matcher.

Lemma existsb_In_true {A} (f : A -> bool) (l : list A) (x : A) :
  In x l -> f x = true -> existsb f l = true.
Proof. intros Hin Hf. apply existsb_exists. now exists x. Qed.

(** C10.  When some entry of the reference set cleans to the empty string,
    every non-empty company name is accepted. *)
Theorem isH1BCompany_degenerate_entry
        (h1bCompanies : list string) (entry name : string) :
  In entry h1bCompanies ->
  cleanCompanyName entry = EmptyString ->
  name <> EmptyString ->
  isH1BCompany h1bCompanies (Some name) = true.
Proof.
  intros Hin Hclean Hname. unfold isH1BCompany.
  destruct name as [|c name]; [congruence|]. cbn [isEmpty].
  destruct (has _ h1bCompanies); [reflexivity|].
  apply existsb_In_true with (x := entry); [exact Hin|].
  unfold fuzzyMatch. rewrite Hclean, includes_empty.
  now rewrite orb_true_r.
Qed.

(** A reference set with the entry "co.", and a name unrelated to it. *)
Lemma isH1BCompany_degenerate_entry_witness :
  cleanCompanyName "inc" = EmptyString
  /\ cleanCompanyName "co." = EmptyString
  /\ isH1BCompany ["google"; "co."] (Some "Totally Unrelated Startup") = true.
Proof.
  split; [reflexivity|]. split; [reflexivity|].
  apply (isH1BCompany_degenerate_entry ["google"; "co."] "co.").
  - simpl. right. left. reflexivity.
  - reflexivity.
  - discriminate.
Defined.

(** A legal suffix does not stand in the way of a match. *)
Example isH1BCompany_suffix :
  isH1BCompany ["google"] (Some "Google LLC") = true.
Proof. reflexivity. Qed.

(** Without the degenerate entry the same name is turned down. *)
Example isH1BCompany_unrelated :
  isH1BCompany ["google"] (Some "Totally Unrelated Startup") = false.
Proof. reflexivity. Qed.

End MatcherFacts.

(** ** The heavy cleaning *)

Section Cleaning.
Import JsString Matcher.

Lemma space_not_punctuation c : isSpace c = true -> isPunctuation c = false.
Proof.
  destruct c as [[] [] [] [] [] [] [] []]; vm_compute; congruence.
Qed.

Lemma noPunctuation_removePunctuation s :
  noPunctuation (removePunctuation s) = true.
Proof.
  induction s as [|c s IH]; [reflexivity|]. simpl.
  fold (isPunctuation c).
  destruct (isPunctuation c) eqn:Hc; [exact IH|].
  simpl. now rewrite Hc, IH.
Qed.

Lemma noPunctuation_collapseSpaces s :
  noPunctuation s = true ->
  forall inRun, noPunctuation (collapseSpaces inRun s) = true.
Proof.
  induction s as [|c s IH]; intros H inRun; [reflexivity|].
  simpl in H. apply andb_true_iff in H as [Hc Hs]. simpl.
  destruct (isSpace c); [destruct inRun|]; cbn [noPunctuation].
  - now apply IH.
  - change (isPunctuation space) with false. now apply IH.
  - rewrite Hc. now apply IH.
Qed.

Lemma noPunctuation_trimStart s :
  noPunctuation s = true -> noPunctuation (trimStart s) = true.
Proof.
  induction s as [|c s IH]; intros H; [reflexivity|].
  simpl. destruct (isSpace c); [|exact H].
  simpl in H. apply andb_true_iff in H as [_ Hs]. auto.
Qed.

Lemma noPunctuation_trimEnd s :
  noPunctuation s = true -> noPunctuation (trimEnd s) = true.
Proof.
  induction s as [|c s IH]; intros H; [reflexivity|].
  simpl in H. apply andb_true_iff in H as [Hc Hs]. simpl.
  destruct (isSpace c && isEmpty (trimEnd s)); [reflexivity|].
  simpl. now rewrite Hc, IH.
Qed.

Lemma cleanCompanyName_noPunctuation name :
  noPunctuation (cleanCompanyName name) = true.
Proof.
  unfold cleanCompanyName, trim.
  apply noPunctuation_trimEnd, noPunctuation_trimStart,
    noPunctuation_collapseSpaces, noPunctuation_removePunctuation.
Qed.

Lemma isSpace_space : isSpace space = true.
Proof. reflexivity. Qed.

Lemma collapseSpaces_loose s :
  forall inRun,
    looseSpaces (collapseSpaces inRun s) = true
    /\ (inRun = true -> isSpaceOpt (head (collapseSpaces inRun s)) = false).
Proof.
  induction s as [|c s IH]; intros inRun; [split; reflexivity|].
  simpl. destruct (isSpace c) eqn:Hc.
  - destruct inRun.
    + apply IH.
    + destruct (IH true) as [Hl Hh]. split; [|discriminate].
      cbn [looseSpaces]. rewrite isSpace_space, Hl, (Hh eq_refl).
      reflexivity.
  - destruct (IH false) as [Hl _]. split.
    + cbn [looseSpaces]. now rewrite Hc, Hl.
    + intros _. simpl. exact Hc.
Qed.

Lemma trimStart_loose s :
  looseSpaces s = true ->
  looseSpaces (trimStart s) = true
  /\ isSpaceOpt (head (trimStart s)) = false.
Proof.
  induction s as [|c s IH]; intros H; [split; reflexivity|].
  simpl. destruct (isSpace c) eqn:Hc.
  - simpl in H. apply andb_true_iff in H as [_ Hs]. auto.
  - split; [exact H | simpl; exact Hc].
Qed.

Lemma trimEnd_head s :
  isEmpty (trimEnd s) = false -> head (trimEnd s) = head s.
Proof.
  destruct s as [|c s]; [discriminate|]. simpl.
  destruct (isSpace c && isEmpty (trimEnd s)); [discriminate | reflexivity].
Qed.

Lemma trimEnd_head_space s :
  isSpaceOpt (head s) = false -> isSpaceOpt (head (trimEnd s)) = false.
Proof.
  intros H. destruct (isEmpty (trimEnd s)) eqn:He.
  - destruct (trimEnd s); [reflexivity | discriminate].
  - now rewrite trimEnd_head.
Qed.

Lemma trimEnd_single s :
  looseSpaces s = true -> singleSpaces (trimEnd s) = true.
Proof.
  induction s as [|c s IH]; intros H; [reflexivity|].
  simpl in H. apply andb_true_iff in H as [Hc Hs].
  specialize (IH Hs). simpl.
  destruct (isSpace c) eqn:Hsp; simpl.
  - destruct (isEmpty (trimEnd s)) eqn:He; [reflexivity|].
    cbn [singleSpaces]. rewrite Hsp, IH, He.
    apply andb_true_iff in Hc as [Heq Hnext]. rewrite Heq.
    rewrite trimEnd_head by exact He. now rewrite Hnext.
  - cbn [singleSpaces]. now rewrite Hsp, IH.
Qed.

Lemma cleanCompanyName_spaces name :
  isSpaceOpt (head (cleanCompanyName name)) = false
  /\ singleSpaces (cleanCompanyName name) = true.
Proof.
  unfold cleanCompanyName, trim.
  destruct (collapseSpaces_loose
              (removePunctuation (stripSuffixes None 0 name)) false)
    as [Hl _].
  destruct (trimStart_loose _ Hl) as [Hl' Hh]. split.
  - now apply trimEnd_head_space.
  - now apply trimEnd_single.
Qed.

(** *** Tokens and the first pattern *)

Lemma word_not_dot c : isWord c = true -> Ascii.eqb c dot = false.
Proof.
  intros H. destruct (Ascii.eqb_spec c dot) as [->|]; [discriminate H|].
  reflexivity.
Qed.

Lemma word_not_punctuation c : isWord c = true -> isPunctuation c = false.
Proof.
  destruct c as [[] [] [] [] [] [] [] []]; vm_compute; congruence.
Qed.

Lemma word_not_space c : isWord c = true -> isSpace c = false.
Proof.
  destruct c as [[] [] [] [] [] [] [] []]; vm_compute; congruence.
Qed.

Lemma append_nil_l (s : string) : EmptyString +:+ s = s.
Proof. reflexivity. Qed.

Lemma append_cons c (a b : string) : String c a +:+ b = String c (a +:+ b).
Proof. reflexivity. Qed.

Lemma allWord_app a b : allWord (a +:+ b) = allWord a && allWord b.
Proof.
  induction a as [|c a IH]; [reflexivity|]. simpl.
  now rewrite IH, andb_assoc.
Qed.

Lemma append_nil_r (s : string) : s +:+ EmptyString = s.
Proof.
  induction s as [|c s IH]; [reflexivity|].
  change (String c (s +:+ EmptyString) = String c s). now rewrite IH.
Qed.

Lemma lastChar_word d w :
  token w = true -> isWord (lastChar d w) = true.
Proof.
  unfold token. destruct w as [|c w]; [discriminate|]. simpl.
  revert c. induction w as [|c' w IH]; intros c H; simpl in *.
  - now rewrite andb_true_r in H.
  - apply andb_true_iff in H as [_ H]. now apply IH.
Qed.

Lemma stripPrefix_token lit :
  forall w rest,
    allWord lit = true ->
    isWordOpt (head rest) = false ->
    stripPrefix lit (w +:+ rest)
    = match stripPrefix lit w with
      | Some w' => Some (w' +:+ rest)
      | None => None
      end.
Proof.
  induction lit as [|a lit IH]; intros w rest Hlit Hrest; [reflexivity|].
  simpl in Hlit. apply andb_true_iff in Hlit as [Ha Hlit].
  destruct w as [|b w]; rewrite ?append_nil_l, ?append_cons; simpl.
  - destruct rest as [|c rest]; [reflexivity|]. simpl in Hrest.
    destruct (Ascii.eqb_spec a c) as [->|]; [congruence | reflexivity].
  - destruct (Ascii.eqb a b); [now apply IH | reflexivity].
Qed.

Lemma stripPrefix_Some lit :
  forall w w', stripPrefix lit w = Some w' -> w = lit +:+ w'.
Proof.
  induction lit as [|a lit IH]; intros w w' H; simpl in H.
  - now injection H as ->.
  - destruct w as [|b w]; [discriminate|].
    destruct (Ascii.eqb_spec a b) as [->|]; [|discriminate].
    rewrite append_cons. f_equal. now apply IH.
Qed.

Lemma stripPrefix_self lit : stripPrefix lit lit = Some EmptyString.
Proof.
  induction lit as [|a lit IH]; [reflexivity|]. simpl.
  now rewrite Ascii.eqb_refl.
Qed.

Lemma eqb_append_longer lit c w :
  String.eqb lit (lit +:+ String c w) = false.
Proof.
  induction lit as [|a lit IH]; [reflexivity|].
  rewrite append_cons. simpl. now rewrite Ascii.eqb_refl.
Qed.

(** An alternative matches at the start of a token exactly when the token
    is its literal. *)
Lemma matchAlternative_token lit optDot w rest :
  token lit = true ->
  allWord w = true ->
  isWordOpt (head rest) = false ->
  matchAlternative (lit, optDot) (w +:+ rest)
  = if String.eqb lit w
    then Some (if dotTaken optDot rest then S (String.length lit)
               else String.length lit)
    else None.
Proof.
  intros Hlit Hw Hrest. unfold matchAlternative.
  pose proof (lastChar_word dot lit Hlit) as Hlc.
  apply andb_true_iff in Hlit as [_ Hall].
  rewrite (stripPrefix_token lit w rest Hall Hrest).
  destruct (stripPrefix lit w) as [w'|] eqn:Hstrip.
  - apply stripPrefix_Some in Hstrip. subst w.
    destruct w' as [|c w'].
    + rewrite append_nil_r, String.eqb_refl. simpl.
      destruct rest as [|c rest]; unfold wordBoundary; simpl.
      * now rewrite Hlc.
      * simpl in Hrest. rewrite Hlc, Hrest. simpl.
        destruct (optDot && Ascii.eqb c dot); [|reflexivity].
        simpl. now destruct (isWordOpt (head rest)).
    + rewrite eqb_append_longer. simpl.
      rewrite allWord_app in Hw. apply andb_true_iff in Hw as [_ Hw].
      simpl in Hw. apply andb_true_iff in Hw as [Hc _].
      rewrite (word_not_dot c Hc), andb_false_r.
      unfold wordBoundary. simpl. now rewrite Hlc, Hc.
  - destruct (String.eqb_spec lit w) as [->|]; [|reflexivity].
    rewrite stripPrefix_self in Hstrip. discriminate.
Qed.

(** The flag of the alternative whose literal is [w]. *)
Lemma firstAlternative_token alts :
  forall w rest,
    forallb (fun alt => token (fst alt)) alts = true ->
    allWord w = true ->
    isWordOpt (head rest) = false ->
    firstAlternative alts (w +:+ rest)
    = match List.find (fun alt => String.eqb (fst alt) w) alts with
      | Some alt =>
          Some (if dotTaken (snd alt) rest then S (String.length w)
                else String.length w)
      | None => None
      end.
Proof.
  induction alts as [|[lit optDot] alts IH]; intros w rest Halts Hw Hrest;
    [reflexivity|].
  simpl in Halts. apply andb_true_iff in Halts as [Hlit Halts].
  cbn [firstAlternative List.find fst snd].
  rewrite (matchAlternative_token lit optDot w rest Hlit Hw Hrest).
  destruct (String.eqb_spec lit w) as [->|]; [reflexivity|].
  now apply IH.
Qed.

Lemma suffixAlternatives_tokens :
  forallb (fun alt => token (fst alt)) suffixAlternatives = true.
Proof. vm_compute. reflexivity. Qed.

Lemma find_suffixWord w :
  match List.find (fun alt => String.eqb (fst alt) w) suffixAlternatives with
  | Some _ => isSuffixWord w = true
  | None => isSuffixWord w = false
  end.
Proof.
  unfold isSuffixWord, suffixWords.
  induction suffixAlternatives as [|[lit optDot] alts IH]; [reflexivity|].
  cbn [List.find map existsb fst]. rewrite (String.eqb_sym w lit).
  destruct (String.eqb lit w); [reflexivity | exact IH].
Qed.

(** The pattern at the start of a token. *)
Lemma matchSuffix_token prev w rest :
  isWordOpt prev = false ->
  token w = true ->
  isWordOpt (head rest) = false ->
  matchSuffix prev (w +:+ rest)
  = match List.find (fun alt => String.eqb (fst alt) w) suffixAlternatives
    with
    | Some alt =>
        Some (if dotTaken (snd alt) rest then S (String.length w)
              else String.length w)
    | None => None
    end.
Proof.
  intros Hprev Hw Hrest. unfold matchSuffix.
  rewrite <- (firstAlternative_token suffixAlternatives w rest
                suffixAlternatives_tokens)
    by (try exact Hrest; now apply andb_true_iff in Hw as [_ Hw]).
  apply andb_true_iff in Hw as [Hne Hall].
  destruct w as [|c w]; [discriminate|].
  rewrite append_cons. cbn [head]. 
  simpl in Hall. apply andb_true_iff in Hall as [Hc Hall].
  unfold wordBoundary. cbn [isWordOpt]. now rewrite Hprev, Hc.
Qed.

(** The pattern does not match where no token starts. *)
Lemma matchSuffix_inside p c s :
  isWord p = true -> isWord c = true ->
  matchSuffix (Some p) (String c s) = None.
Proof.
  intros Hp Hc. unfold matchSuffix, wordBoundary. cbn [head isWordOpt].
  now rewrite Hp, Hc.
Qed.

Lemma matchAlternative_gap alt c s :
  token (fst alt) = true -> isWord c = false ->
  matchAlternative alt (String c s) = None.
Proof.
  destruct alt as [[|a lit] optDot]; [discriminate|]. cbn [fst].
  intros Hlit Hc. apply andb_true_iff in Hlit as [_ Hlit].
  simpl in Hlit. apply andb_true_iff in Hlit as [Ha _].
  unfold matchAlternative. cbn [stripPrefix].
  destruct (Ascii.eqb_spec a c) as [->|]; [congruence | reflexivity].
Qed.

Lemma matchSuffix_gap prev c s :
  isWord c = false -> matchSuffix prev (String c s) = None.
Proof.
  intros Hc. unfold matchSuffix.
  destruct (wordBoundary prev (head (String c s))); [|reflexivity].
  pose proof suffixAlternatives_tokens as Htokens.
  induction suffixAlternatives as [|alt alts IH]; [reflexivity|].
  simpl in Htokens. apply andb_true_iff in Htokens as [Halt Halts].
  cbn [firstAlternative]. rewrite (matchAlternative_gap alt c s Halt Hc).
  now apply IH.
Qed.

(** *** The first replacement along a name *)

Lemma stripSuffixes_skip a :
  forall prev b,
    stripSuffixes prev (String.length a) (a +:+ b)
    = stripSuffixes (lastOpt prev a) 0 b.
Proof.
  induction a as [|c a IH]; intros prev b.
  - rewrite append_nil_l. cbn [String.length lastOpt].
    destruct b; reflexivity.
  - rewrite append_cons. cbn [String.length stripSuffixes lastOpt].
    rewrite IH. destruct a; reflexivity.
Qed.

Lemma stripSuffixes_inside w :
  forall p rest,
    isWord p = true -> allWord w = true ->
    stripSuffixes (Some p) 0 (w +:+ rest)
    = w +:+ stripSuffixes (Some (lastChar p w)) 0 rest.
Proof.
  induction w as [|c w IH]; intros p rest Hp Hw; [reflexivity|].
  simpl in Hw. apply andb_true_iff in Hw as [Hc Hw].
  rewrite !append_cons. cbn [stripSuffixes lastChar].
  rewrite (matchSuffix_inside p c _ Hp Hc). f_equal. now apply IH.
Qed.

Lemma stripSuffixes_gap gap :
  forall prev rest,
    noWord gap = true ->
    stripSuffixes prev 0 (gap +:+ rest)
    = gap +:+ stripSuffixes (lastOpt prev gap) 0 rest.
Proof.
  induction gap as [|c gap IH]; intros prev rest Hgap; [reflexivity|].
  simpl in Hgap. apply andb_true_iff in Hgap as [Hc Hgap].
  apply negb_true_iff in Hc.
  rewrite !append_cons. cbn [stripSuffixes].
  rewrite (matchSuffix_gap prev c _ Hc). f_equal.
  rewrite IH by exact Hgap. destruct gap; reflexivity.
Qed.

Lemma lastOpt_noWord prev gap :
  noWord gap = true ->
  isWordOpt prev = false \/ gap <> EmptyString ->
  isWordOpt (lastOpt prev gap) = false.
Proof.
  destruct gap as [|c gap]; cbn [lastOpt].
  - intros _ [H|H]; [exact H | congruence].
  - intros Hgap _. revert c Hgap.
    induction gap as [|c' gap IH]; intros c Hgap; simpl in *.
    + rewrite andb_true_r in Hgap. now apply negb_true_iff.
    + apply andb_true_iff in Hgap as [_ Hgap]. now apply IH.
Qed.

Lemma lastOpt_snoc prev a c :
  lastOpt prev (a +:+ String c EmptyString) = Some c.
Proof.
  destruct a as [|b a]; [reflexivity|]. rewrite append_cons.
  cbn [lastOpt]. revert b.
  induction a as [|b' a IH]; intros b; [reflexivity|].
  rewrite append_cons. cbn [lastChar]. apply IH.
Qed.

Lemma append_snoc (a : string) c (b : string) :
  a +:+ String c b = (a +:+ String c EmptyString) +:+ b.
Proof.
  induction a as [|x a IH]; [reflexivity|].
  rewrite !append_cons. now rewrite IH.
Qed.

Lemma length_snoc (a : string) c :
  String.length (a +:+ String c EmptyString) = S (String.length a).
Proof.
  induction a as [|x a IH]; [reflexivity|].
  rewrite append_cons. cbn [String.length]. now rewrite IH.
Qed.

(** At the start of a token: a word of the vocabulary goes, with the
    period behind it when the pattern takes it; any other token stays. *)
Lemma stripSuffixes_token prev w rest :
  isWordOpt prev = false ->
  token w = true ->
  isWordOpt (head rest) = false ->
  stripSuffixes prev 0 (w +:+ rest)
  = match List.find (fun alt => String.eqb (fst alt) w) suffixAlternatives
    with
    | Some alt =>
        if dotTaken (snd alt) rest
        then stripSuffixes (Some dot) 0 (slice 1 rest)
        else stripSuffixes (Some (lastChar dot w)) 0 rest
    | None => w +:+ stripSuffixes (Some (lastChar dot w)) 0 rest
    end.
Proof.
  intros Hprev Hw Hrest.
  pose proof (matchSuffix_token prev w rest Hprev Hw Hrest) as Hmatch.
  apply andb_true_iff in Hw as [Hne Hall].
  destruct w as [|c w]; [discriminate|].
  simpl in Hall. apply andb_true_iff in Hall as [Hc Hall].
  rewrite append_cons in *. cbn [stripSuffixes]. rewrite Hmatch.
  destruct (List.find _ suffixAlternatives) as [alt|].
  - destruct (dotTaken (snd alt) rest) eqn:Hdot.
    + destruct rest as [|d rest]; [discriminate|]. cbn [dotTaken] in Hdot.
      apply andb_true_iff in Hdot as [Hdot _].
      apply andb_true_iff in Hdot as [_ Hdot].
      apply Ascii.eqb_eq in Hdot. subst d.
      cbn [String.length slice]. rewrite append_snoc.
      rewrite <- (length_snoc w dot), stripSuffixes_skip.
      now rewrite lastOpt_snoc.
    + cbn [String.length]. rewrite stripSuffixes_skip.
      destruct w; reflexivity.
  - rewrite append_cons. cbn [lastChar]. f_equal.
    now apply stripSuffixes_inside.
Qed.

Lemma removePunctuation_app a b :
  removePunctuation (a +:+ b) = removePunctuation a +:+ removePunctuation b.
Proof.
  induction a as [|c a IH]; [reflexivity|].
  rewrite append_cons. cbn [removePunctuation].
  destruct (Ascii.eqb c comma || Ascii.eqb c dot); [exact IH|].
  rewrite append_cons. now rewrite IH.
Qed.

Lemma removePunctuation_allWord w :
  allWord w = true -> removePunctuation w = w.
Proof.
  induction w as [|c w IH]; intros H; [reflexivity|].
  simpl in H. apply andb_true_iff in H as [Hc Hw].
  cbn [removePunctuation]. fold (isPunctuation c).
  rewrite (word_not_punctuation c Hc). now rewrite IH.
Qed.

Lemma head_gap gap rest :
  noWord gap = true ->
  gap <> EmptyString \/ rest = EmptyString ->
  isWordOpt (head (gap +:+ rest)) = false.
Proof.
  destruct gap as [|c gap].
  - intros _ [H| ->]; [congruence | reflexivity].
  - intros H _. simpl in H. apply andb_true_iff in H as [H _].
    rewrite append_cons. simpl. now apply negb_true_iff.
Qed.

(** Along a name cut into tokens and gaps, the first two replacements
    leave the tokens outside the vocabulary and the gaps without their
    commas and periods. *)
Lemma cleanedPieces_spec pieces :
  forall prev,
    isWordOpt prev = false \/ pieces = [] ->
    wellCut pieces = true ->
    removePunctuation (stripSuffixes prev 0 (pieced pieces))
    = cleanedPieces pieces.
Proof.
  induction pieces as [|[w gap] rest IH]; intros prev Hprev Hcut;
    [reflexivity|].
  destruct Hprev as [Hprev|]; [|discriminate].
  cbn [wellCut] in Hcut.
  apply andb_true_iff in Hcut as [Hcut Hrest].
  apply andb_true_iff in Hcut as [Hcut Hlast].
  apply andb_true_iff in Hcut as [Hw Hgap].
  assert (Hend : gap <> EmptyString \/ rest = []).
  { destruct gap; [|left; discriminate]. destruct rest; [now right|].
    discriminate. }
  assert (Hhead : isWordOpt (head (gap +:+ pieced rest)) = false).
  { apply head_gap; [exact Hgap|]. destruct Hend as [H| ->]; auto. }
  cbn [pieced cleanedPieces].
  rewrite (stripSuffixes_token prev w _ Hprev Hw Hhead).
  assert (Hafter :
            removePunctuation
              (stripSuffixes (Some (lastChar dot w)) 0 (gap +:+ pieced rest))
            = removePunctuation gap +:+ cleanedPieces rest).
  { rewrite stripSuffixes_gap, removePunctuation_app by exact Hgap.
    f_equal. apply IH; [|exact Hrest].
    destruct Hend as [H|H]; [left | now right].
    apply lastOpt_noWord; auto. }
  pose proof (find_suffixWord w) as Hfind. unfold kept.
  destruct (List.find _ suffixAlternatives) as [alt|]; rewrite Hfind.
  - rewrite append_nil_l.
    destruct (dotTaken (snd alt) (gap +:+ pieced rest)) eqn:Hdot;
      [|exact Hafter].
    destruct gap as [|d gap].
    + destruct Hend as [H| ->]; [congruence|]. discriminate Hdot.
    + rewrite append_cons in Hdot. cbn [dotTaken] in Hdot.
      apply andb_true_iff in Hdot as [Hdot _].
      apply andb_true_iff in Hdot as [_ Hdot].
      apply Ascii.eqb_eq in Hdot. subst d.
      simpl in Hgap. rewrite append_cons. cbn [slice removePunctuation].
      change (Ascii.eqb dot comma || Ascii.eqb dot dot) with true.
      cbn iota.
      rewrite stripSuffixes_gap, removePunctuation_app by exact Hgap.
      f_equal. apply IH; [|exact Hrest]. left.
      apply lastOpt_noWord; [exact Hgap | now left].
  - rewrite removePunctuation_app, Hafter.
    apply andb_true_iff in Hw as [_ Hw].
    now rewrite removePunctuation_allWord.
Qed.

Lemma cut_spec name :
  name = fst (cut name) +:+ pieced (snd (cut name))
  /\ noWord (fst (cut name)) = true
  /\ wellCut (snd (cut name)) = true.
Proof.
  induction name as [|c name (Hname & Hlead & Hcut)];
    [repeat split|].
  cbn [cut]. destruct (cut name) as [lead pieces]. cbn [fst snd] in *.
  destruct (isWord c) eqn:Hc.
  - destruct lead as [|a lead].
    + destruct pieces as [|[w gap] rest]; cbn [fst snd pieced wellCut].
      * subst name. repeat split.
        unfold token. cbn [isEmpty negb allWord noWord]. now rewrite Hc.
      * subst name. rewrite append_nil_l, append_cons.
        split; [reflexivity|]. split; [reflexivity|].
        cbn [wellCut] in Hcut. unfold token in *.
        cbn [isEmpty negb allWord]. rewrite Hc.
        destruct w; [discriminate Hcut | exact Hcut].
    + cbn [fst snd pieced wellCut]. subst name.
      split; [reflexivity|]. split; [reflexivity|].
      unfold token. cbn [isEmpty negb allWord]. rewrite Hc, Hlead, Hcut.
      reflexivity.
  - cbn [fst snd noWord]. rewrite Hc, Hlead, Hcut. subst name.
    repeat split.
Qed.

(** *** White space *)

Lemma noSpace_collapseSpaces s :
  forall inRun, noSpace s = true -> collapseSpaces inRun s = s.
Proof.
  induction s as [|c s IH]; intros inRun H; [reflexivity|].
  simpl in H. apply andb_true_iff in H as [Hc Hs].
  apply negb_true_iff in Hc. cbn [collapseSpaces]. rewrite Hc.
  now rewrite IH.
Qed.

Lemma noSpace_trimEnd s : noSpace s = true -> trimEnd s = s.
Proof.
  induction s as [|c s IH]; intros H; [reflexivity|].
  simpl in H. apply andb_true_iff in H as [Hc Hs].
  apply negb_true_iff in Hc. cbn [trimEnd]. rewrite Hc.
  now rewrite IH.
Qed.

Lemma noSpace_trim s : noSpace s = true -> trim s = s.
Proof.
  intros H. unfold trim.
  replace (trimStart s) with s; [now apply noSpace_trimEnd|].
  destruct s as [|c s]; [reflexivity|]. simpl in H.
  apply andb_true_iff in H as [Hc _]. apply negb_true_iff in Hc.
  cbn [trimStart]. now rewrite Hc.
Qed.

Lemma noSpace_stripSuffixes s :
  forall prev skip,
    noSpace s = true -> noSpace (stripSuffixes prev skip s) = true.
Proof.
  induction s as [|c s IH]; intros prev skip H; [reflexivity|].
  simpl in H. apply andb_true_iff in H as [Hc Hs].
  cbn [stripSuffixes]. destruct skip as [|k]; [|now apply IH].
  destruct (matchSuffix prev (String c s)) as [[|k]|];
    try (now apply IH); cbn [noSpace]; rewrite Hc; now apply IH.
Qed.

Lemma noSpace_removePunctuation s :
  noSpace s = true -> noSpace (removePunctuation s) = true.
Proof.
  induction s as [|c s IH]; intros H; [reflexivity|].
  simpl in H. apply andb_true_iff in H as [Hc Hs].
  cbn [removePunctuation].
  destruct (Ascii.eqb c comma || Ascii.eqb c dot); [now apply IH|].
  cbn [noSpace]. rewrite Hc. now apply IH.
Qed.

Lemma allWord_noSpace w : allWord w = true -> noSpace w = true.
Proof.
  induction w as [|c w IH]; intros H; [reflexivity|].
  simpl in H. apply andb_true_iff in H as [Hc Hw].
  cbn [noSpace]. now rewrite (word_not_space c Hc), IH.
Qed.

Lemma trimStart_collapseSpaces s :
  forall inRun, trimStart (collapseSpaces inRun s) = collapseSpaces true s.
Proof.
  induction s as [|c s IH]; intros inRun; [reflexivity|].
  cbn [collapseSpaces]. destruct (isSpace c) eqn:Hc.
  - destruct inRun; [apply IH|]. cbn [trimStart].
    rewrite isSpace_space. apply IH.
  - cbn [trimStart]. now rewrite Hc.
Qed.

Lemma collapseSpaces_allWord w :
  forall inRun rest,
    allWord w = true ->
    collapseSpaces inRun (w +:+ rest)
    = w +:+ collapseSpaces (isEmpty w && inRun) rest.
Proof.
  induction w as [|c w IH]; intros inRun rest H; [reflexivity|].
  simpl in H. apply andb_true_iff in H as [Hc Hw].
  rewrite !append_cons. cbn [collapseSpaces isEmpty andb].
  rewrite (word_not_space c Hc), (IH false rest Hw).
  now rewrite andb_false_r.
Qed.

Lemma collapseSpaces_token w rest inRun :
  token w = true ->
  collapseSpaces inRun (w +:+ rest) = w +:+ collapseSpaces false rest.
Proof.
  intros H. apply andb_true_iff in H as [Hne Hw].
  rewrite collapseSpaces_allWord by exact Hw.
  apply negb_true_iff in Hne. now rewrite Hne.
Qed.

Lemma trimEnd_token w rest :
  allWord w = true -> trimEnd (w +:+ rest) = w +:+ trimEnd rest.
Proof.
  induction w as [|c w IH]; intros H; [reflexivity|].
  simpl in H. apply andb_true_iff in H as [Hc Hw].
  rewrite !append_cons. cbn [trimEnd]. rewrite (word_not_space c Hc).
  cbn [andb]. now rewrite IH.
Qed.

Lemma isEmpty_join_nonempty (x : string) l :
  isEmpty x = false -> isEmpty (join " " (x :: l)) = false.
Proof.
  destruct x as [|c x]; [discriminate|]. intros _.
  destruct l; [reflexivity|]. cbn [join]. now rewrite append_cons.
Qed.

(** Tokens and empty strings joined by single spaces: collapsing and
    trimming leaves the tokens, joined by single spaces. *)
Lemma normalise_join l :
  forallb allWord l = true ->
  trimEnd (collapseSpaces true (join " " l))
  = join " " (List.filter (fun x => negb (isEmpty x)) l).
Proof.
  induction l as [|x l IH]; intros H; [reflexivity|].
  simpl in H. apply andb_true_iff in H as [Hx Hl].
  specialize (IH Hl). destruct l as [|y l].
  - cbn [join List.filter]. destruct x as [|c x]; [reflexivity|].
    cbn [isEmpty negb join].
    rewrite <- (append_nil_r (String c x)) at 1.
    rewrite collapseSpaces_token, trimEnd_token by (exact Hx).
    now rewrite append_nil_r.
  - change (join " " (x :: y :: l)) with (x +:+ " " +:+ join " " (y :: l)).
    cbn [List.filter] in *. destruct x as [|c x].
    + rewrite append_nil_l. cbn [isEmpty negb].
      rewrite append_cons, append_nil_l. cbn [collapseSpaces].
      change (isSpace " "%char) with true. cbn iota. exact IH.
    + cbn [isEmpty negb].
      rewrite collapseSpaces_token, trimEnd_token by (exact Hx).
      change (" " +:+ join " " (y :: l))
        with (String " "%char (join " " (y :: l))).
      cbn [collapseSpaces].
      change (isSpace " "%char) with true. cbn iota. cbn [trimEnd].
      change (isSpace space) with true. rewrite IH. cbn [andb].
      destruct (if negb (isEmpty y) then _ else _) as [|f F] eqn:HF.
      * cbn [join isEmpty]. now rewrite append_nil_r.
      * assert (Hf : isEmpty f = false).
        { assert (Hin : In f (List.filter (fun x => negb (isEmpty x))
                                          (y :: l))).
          { cbn [List.filter]. rewrite HF. now left. }
          apply filter_In in Hin as [_ Hin]. now apply negb_true_iff. }
        rewrite (isEmpty_join_nonempty f F Hf). reflexivity.
Qed.

Lemma pieced_spaced words : pieced (spaced words) = join " " words.
Proof.
  induction words as [|w words IH]; [reflexivity|].
  destruct words as [|w' words].
  - cbn [spaced pieced join]. now rewrite append_nil_l, append_nil_r.
  - change (spaced (w :: w' :: words))
      with ((w, " ") :: spaced (w' :: words)).
    cbn [pieced]. rewrite IH. reflexivity.
Qed.

Lemma wellCut_spaced words :
  forallb token words = true -> wellCut (spaced words) = true.
Proof.
  induction words as [|w words IH]; intros H; [reflexivity|].
  simpl in H. apply andb_true_iff in H as [Hw Hwords].
  destruct words as [|w' words].
  - cbn [spaced wellCut noWord]. now rewrite Hw.
  - change (spaced (w :: w' :: words))
      with ((w, " ") :: spaced (w' :: words)).
    cbn [wellCut]. rewrite Hw, (IH Hwords). reflexivity.
Qed.

Lemma cleanedPieces_spaced words :
  cleanedPieces (spaced words) = join " " (map kept words).
Proof.
  induction words as [|w words IH]; [reflexivity|].
  destruct words as [|w' words].
  - cbn [spaced cleanedPieces map join removePunctuation].
    now rewrite append_nil_l, append_nil_r.
  - change (spaced (w :: w' :: words))
      with ((w, " ") :: spaced (w' :: words)).
    cbn [cleanedPieces]. rewrite IH. reflexivity.
Qed.

Lemma allWord_kept w : allWord w = true -> allWord (kept w) = true.
Proof. unfold kept. now destruct (isSuffixWord w). Qed.

Lemma filter_kept words :
  forallb token words = true ->
  List.filter (fun x => negb (isEmpty x)) (map kept words)
  = List.filter (fun w => negb (isSuffixWord w)) words.
Proof.
  induction words as [|w words IH]; intros H; [reflexivity|].
  simpl in H. apply andb_true_iff in H as [Hw Hwords].
  cbn [map List.filter]. rewrite (IH Hwords). unfold kept.
  apply andb_true_iff in Hw as [Hne _].
  destruct (isSuffixWord w); [reflexivity|]. cbn [negb].
  now rewrite Hne.
Qed.

Lemma punctuation_not_word c : isPunctuation c = true -> isWord c = false.
Proof.
  destruct (isWord c) eqn:Hc; [|reflexivity].
  now rewrite (word_not_punctuation c Hc).
Qed.

(** *** The three replacements together *)

Lemma cleanCompanyName_pieces lead pieces :
  noWord lead = true ->
  wellCut pieces = true ->
  cleanCompanyName (lead +:+ pieced pieces)
  = trim (collapseSpaces false
            (removePunctuation lead +:+ cleanedPieces pieces)).
Proof.
  intros Hlead Hcut. unfold cleanCompanyName.
  rewrite stripSuffixes_gap, removePunctuation_app by exact Hlead.
  rewrite cleanedPieces_spec; [reflexivity | | exact Hcut].
  destruct pieces; [now right | left].
  destruct lead; [reflexivity|]. apply lastOpt_noWord; auto.
Qed.

Lemma cleanCompanyName_words words :
  forallb token words = true ->
  cleanCompanyName (join " " words)
  = join " " (List.filter (fun w => negb (isSuffixWord w)) words).
Proof.
  intros Hwords.
  pose proof (cleanCompanyName_pieces EmptyString (spaced words) eq_refl
                (wellCut_spaced words Hwords)) as H.
  rewrite append_nil_l, pieced_spaced in H. rewrite H.
  cbn [removePunctuation]. rewrite append_nil_l, cleanedPieces_spaced.
  unfold trim. rewrite trimStart_collapseSpaces, normalise_join.
  - now rewrite filter_kept.
  - clear H. induction words as [|w words IH]; [reflexivity|].
    simpl in Hwords. apply andb_true_iff in Hwords as [Hw Hwords].
    cbn [map forallb]. rewrite (IH Hwords), andb_true_r.
    apply allWord_kept. now apply andb_true_iff in Hw as [_ Hw].
Qed.

Lemma cleanCompanyName_joined u v sep :
  token u = true -> token v = true -> isPunctuation sep = true ->
  cleanCompanyName (u +:+ String sep v) = kept u +:+ kept v.
Proof.
  intros Hu Hv Hsep.
  pose proof (cleanCompanyName_pieces
                EmptyString [(u, String sep EmptyString); (v, EmptyString)]
                eq_refl) as H.
  cbn [pieced cleanedPieces wellCut noWord isEmpty negb orb] in H.
  rewrite Hu, Hv, (punctuation_not_word sep Hsep) in H.
  specialize (H eq_refl).
  rewrite !append_nil_l, !append_nil_r, append_cons, append_nil_l in H.
  rewrite H. cbn [removePunctuation]. fold (isPunctuation sep).
  rewrite Hsep, !append_nil_l.
  assert (Hall : allWord (kept u +:+ kept v) = true).
  { rewrite allWord_app.
    apply andb_true_iff in Hu as [_ Hu]. apply andb_true_iff in Hv as [_ Hv].
    now rewrite !allWord_kept. }
  apply allWord_noSpace in Hall.
  now rewrite noSpace_collapseSpaces, noSpace_trim.
Qed.

Lemma cleanedPieces_app before after :
  cleanedPieces (before ++ after)
  = cleanedPieces before +:+ cleanedPieces after.
Proof.
  induction before as [|[w gap] before IH]; [reflexivity|].
  cbn [app cleanedPieces]. now rewrite IH, !append_assoc_string.
Qed.

(** A comma or a period alone between two tokens leaves nothing between
    what is kept of them. *)
Lemma cleanCompanyName_between lead before u sep v gap after :
  noWord lead = true ->
  wellCut (before ++ (u, String sep EmptyString) :: (v, gap) :: after)
  = true ->
  isPunctuation sep = true ->
  cleanCompanyName
    (lead +:+ pieced (before ++ (u, String sep EmptyString)
                             :: (v, gap) :: after))
  = trim (collapseSpaces false
            (removePunctuation lead +:+ cleanedPieces before
             +:+ kept u +:+ kept v
             +:+ removePunctuation gap +:+ cleanedPieces after)).
Proof.
  intros Hlead Hcut Hsep.
  rewrite (cleanCompanyName_pieces lead _ Hlead Hcut), cleanedPieces_app.
  cbn [cleanedPieces removePunctuation]. fold (isPunctuation sep).
  rewrite Hsep, append_nil_l. reflexivity.
Qed.

Lemma cleanCompanyName_noSpace name :
  noSpace name = true -> noSpace (cleanCompanyName name) = true.
Proof.
  intros H. unfold cleanCompanyName.
  assert (Hs : noSpace (removePunctuation (stripSuffixes None 0 name)) = true)
    by now apply noSpace_removePunctuation, noSpace_stripSuffixes.
  now rewrite noSpace_collapseSpaces, noSpace_trim.
Qed.

End Cleaning.

Section CleaningClaims.
Import JsString Matcher.

(** C8, as the code has it.  Cleaning removes the suffix vocabulary as
    whole words: every name is cut into its tokens (the maximal runs of
    word characters) and the stretches between them, and a token goes
    exactly when it is one of the fourteen words.  Every comma and period
    is then deleted and nothing is put in its place: a name without white
    space is cleaned to a result without white space.  Each run of white
    space then becomes one space and the ends are trimmed: the result holds
    no comma and no period, does not start or end with white space, and has
    single spaces only.  So a name of tokens separated by single spaces is
    cleaned to its tokens outside the vocabulary, separated by single
    spaces.  Where one comma or period stands between two tokens [u] and
    [v] of a name, what is kept of [u] is followed at once by what is kept
    of [v]; the name "u.v" or "u,v" by itself is cleaned to [u] and [v]
    joined without a space between them, a token of the vocabulary left
    out. *)
Theorem cleanCompanyName_deletes_punctuation
        (name : string) (words : list string)
        (lead : string) (before : list (string * string))
        (u : string) (sep : ascii) (v gap : string)
        (after : list (string * string)) :
  forallb token words = true ->
  noWord lead = true ->
  wellCut (before ++ (u, String sep EmptyString) :: (v, gap) :: after)
  = true ->
  isPunctuation sep = true ->
  (name = fst (cut name) +:+ pieced (snd (cut name))
   /\ noWord (fst (cut name)) = true
   /\ wellCut (snd (cut name)) = true
   /\ cleanCompanyName name
      = trim (collapseSpaces false
                (removePunctuation (fst (cut name))
                 +:+ cleanedPieces (snd (cut name)))))
  /\ noPunctuation (cleanCompanyName name) = true
  /\ isSpaceOpt (head (cleanCompanyName name)) = false
  /\ singleSpaces (cleanCompanyName name) = true
  /\ (noSpace name = true -> noSpace (cleanCompanyName name) = true)
  /\ cleanCompanyName (join " " words)
     = join " " (List.filter (fun w => negb (isSuffixWord w)) words)
  /\ cleanCompanyName
       (lead +:+ pieced (before ++ (u, String sep EmptyString)
                                :: (v, gap) :: after))
     = trim (collapseSpaces false
               (removePunctuation lead +:+ cleanedPieces before
                +:+ kept u +:+ kept v
                +:+ removePunctuation gap +:+ cleanedPieces after))
  /\ cleanCompanyName (u +:+ String sep v) = kept u +:+ kept v.
Proof.
  intros Hwords Hlead Hcut Hsep.
  assert (Huv : token u = true /\ token v = true).
  { clear - Hcut. induction before as [|[w g] before IH].
    - cbn [app wellCut] in Hcut.
      apply andb_true_iff in Hcut as [Hcut Hrest].
      apply andb_true_iff in Hcut as [Hcut _].
      apply andb_true_iff in Hcut as [Hu _].
      apply andb_true_iff in Hrest as [Hrest _].
      apply andb_true_iff in Hrest as [Hrest _].
      apply andb_true_iff in Hrest as [Hv _]. auto.
    - cbn [app wellCut] in Hcut.
      apply andb_true_iff in Hcut as [_ Hcut]. auto. }
  destruct Huv as [Hu Hv].
  destruct (cut_spec name) as (Hname & Hnoword & Hpieces).
  split.
  { split; [exact Hname|]. split; [exact Hnoword|].
    split; [exact Hpieces|].
    rewrite Hname at 1. now apply cleanCompanyName_pieces. }
  split; [apply cleanCompanyName_noPunctuation|].
  destruct (cleanCompanyName_spaces name) as [Hh Hs].
  split; [exact Hh|]. split; [exact Hs|].
  split; [apply cleanCompanyName_noSpace|].
  split; [now apply cleanCompanyName_words|].
  split; [now apply cleanCompanyName_between|].
  now apply cleanCompanyName_joined.
Qed.

(** A name of three words, a name with a period between a word of the
    vocabulary and another token, the same inside a longer name, and a
    name with both kinds of gaps. *)
Lemma cleanCompanyName_deletes_punctuation_witness :
  cleanCompanyName "first tek inc" = "first tek"
  /\ cleanCompanyName "co.uk" = "uk"
  /\ cleanCompanyName "acme co.uk ltd" = "acme uk"
  /\ cut "amazon.com services, llc"
     = (EmptyString,
        [("amazon", "."); ("com", " "); ("services", ", ");
         ("llc", EmptyString)])
  /\ cleanCompanyName "amazon.com services, llc" = "amazoncom".
Proof.
  destruct (cleanCompanyName_deletes_punctuation
              "amazon.com services, llc" ["first"; "tek"; "inc"]
              EmptyString [("acme", " ")] "co" "." "uk" " "
              [("ltd", EmptyString)])
    as ((_ & _ & _ & Hcut) & _ & _ & _ & _ & Hwords & Hbetween & Hjoin);
    try reflexivity.
  split; [exact Hwords|]. split; [exact Hjoin|].
  split; [exact Hbetween|].
  split; [reflexivity|]. rewrite Hcut. reflexivity.
Defined.

(** Names the cleaning joins, and names it leaves a token out of. *)
Example cleanCompanyName_joined_names :
  map cleanCompanyName ["x.y"; "a,b"; "inc.a"; "x.co"; "first tek, inc."]
  = ["xy"; "ab"; "a"; "x"; "first tek"].
Proof. reflexivity. Qed.

(** C8 as the specification words it fails on "a.b": the period is not
    replaced by a space. *)
Lemma cleanCompanyName_period_not_space :
  cleanCompanyName "a.b" = "ab" /\ cleanCompanyName "a.b" <> "a b".
Proof. split; [reflexivity | discriminate]. Qed.

End CleaningClaims.

(** ** Fingerprints and deduplication *)

Section Dedup.
Import Db.

(** C5.  Two jobs that agree on company name, title, location and posting
    time have the same fingerprint, whatever their other fields; the
    fingerprint depends on nothing else, as [generateJobHash] takes the job
    alone. *)
Theorem generateJobHash_four_fields (j1 j2 : Job) :
  company_name j1 = company_name j2 ->
  job_title j1 = job_title j2 ->
  job_location j1 = job_location j2 ->
  posting_time j1 = posting_time j2 ->
  generateJobHash j1 = generateJobHash j2
  /\ generateJobHash j1 =
     Md5.md5Hex (company_name j1 +:+ "-" +:+ job_title j1 +:+ "-"
                   +:+ job_location j1 +:+ "-" +:+ posting_time j1).
Proof.
  intros Hc Ht Hl Hp. unfold generateJobHash, hashString.
  now rewrite Hc, Ht, Hl, Hp.
Qed.

(** Two jobs that differ in description and scrape time only, and their
    common digest. *)
Lemma generateJobHash_four_fields_witness :
  generateJobHash (acmeJob "Build pipelines" "2024-01-01T00:00:00.000Z")
  = generateJobHash (acmeJob "Other text" "2024-06-30T12:00:00.000Z")
  /\ generateJobHash (acmeJob "Build pipelines" "2024-01-01T00:00:00.000Z")
     = "cf5367197bdf0c25d84e02da159a68f4".
Proof.
  destruct (generateJobHash_four_fields
              (acmeJob "Build pipelines" "2024-01-01T00:00:00.000Z")
              (acmeJob "Other text" "2024-06-30T12:00:00.000Z")
              eq_refl eq_refl eq_refl eq_refl) as [H1 H2].
  split; [exact H1|]. rewrite H2. vm_compute. reflexivity.
Defined.

(** The test suite of RFC 1321, appendix A.5. *)
Example md5_empty :
  Md5.md5Hex EmptyString = "d41d8cd98f00b204e9800998ecf8427e".
Proof. vm_compute. reflexivity. Qed.

Example md5_abc : Md5.md5Hex "abc" = "900150983cd24fb0d6963f7d28e17f72".
Proof. vm_compute. reflexivity. Qed.

Example md5_message_digest :
  Md5.md5Hex "message digest" = "f96b697d7cb7938d525a2f31aaf161d0".
Proof. vm_compute. reflexivity. Qed.

Example md5_two_blocks :
  Md5.md5Hex
    "12345678901234567890123456789012345678901234567890123456789012345678901234567890"
  = "57edf4a22be3c955ac49da2e2107b67a".
Proof. vm_compute. reflexivity. Qed.

(** The digest is thirty-two hexadecimal digits. *)
Lemma hex_length bytes : String.length (Md5.hex bytes) = 2 * length bytes.
Proof.
  induction bytes as [|b rest IH]; [reflexivity|].
  cbn [Md5.hex String.length length]. rewrite IH. lia.
Qed.

Lemma generateJobHash_length job : String.length (generateJobHash job) = 32.
Proof.
  unfold generateJobHash, Md5.md5Hex. rewrite hex_length.
  unfold Md5.digestBytes. cbn [flat_map].
  now rewrite !length_app, !length_map.
Qed.

Lemma execute_healthy d :
  healthy d ->
  fst (execute d) = None
  /\ healthy (snd (execute d))
  /\ jobs (snd (execute d)) = jobs d.
Proof.
  intros H. unfold execute. simpl. split; [apply H|]. split; [|reflexivity].
  intros n. apply H.
Qed.

(** What the loop of [insertJobs] does on a healthy connection: the keys of
    the table grow by the fingerprints of the batch, every new key is
    counted as inserted and every other record as duplicated. *)
Lemma insertJobsLoop_healthy batch :
  forall inserted duplicated d,
    healthy d ->
    let '(inserted', duplicated', d') :=
      insertJobsLoop batch inserted duplicated d in
    healthy d'
    /\ dom (jobs d') = dom (jobs d) ∪ fingerprints batch
    /\ inserted' + size (jobs d) = inserted + size (jobs d')
    /\ inserted' + duplicated' = inserted + duplicated + length batch.
Proof.
  induction batch as [|job rest IH]; intros inserted duplicated d Hd.
  - simpl. unfold fingerprints. simpl. repeat split; try lia; auto.
    now rewrite union_empty_r_L.
  - cbn [insertJobsLoop]. unfold runInsertJob.
    destruct (execute_healthy d Hd) as [He [Hd1 Hj]].
    destruct (execute d) as [err d1]. simpl in He, Hd1, Hj. subst err.
    destruct (jobs d1 !! generateJobHash job) as [old|] eqn:Hlook.
    + cbn [Nat.ltb Nat.leb].
      specialize (IH inserted (S duplicated) d1 Hd1).
      destruct (insertJobsLoop rest inserted (S duplicated) d1)
        as [[i' k'] d'].
      destruct IH as [Hh [Hdom [Hi Hk]]].
      split; [exact Hh|]. split; [|split].
      * rewrite Hdom, Hj. unfold fingerprints. cbn [map list_to_set].
        assert (Hin : generateJobHash job ∈ dom (jobs d)).
        { rewrite <- Hj. apply elem_of_dom. eauto. }
        rewrite (assoc_L (∪)).
        rewrite (comm_L (∪) (dom (jobs d)) {[generateJobHash job]}).
        rewrite (subseteq_union_1_L {[generateJobHash job]} (dom (jobs d)));
          [reflexivity | now apply singleton_subseteq_l].
      * rewrite <- Hj. exact Hi.
      * simpl. lia.
    + cbn [Nat.ltb Nat.leb].
      assert (Hd2 : healthy
                     (withJobs d1 (<[generateJobHash job:=job]> (jobs d1)))).
      { intros n. apply Hd1. }
      specialize (IH (S inserted) duplicated _ Hd2).
      destruct (insertJobsLoop rest (S inserted) duplicated
                  (withJobs d1 (<[generateJobHash job:=job]> (jobs d1))))
        as [[i' k'] d'].
      destruct IH as [Hh [Hdom [Hi Hk]]].
      cbn [jobs withJobs] in Hdom, Hi.
      split; [exact Hh|]. split; [|split].
      * rewrite Hdom, dom_insert_L, Hj. unfold fingerprints.
        cbn [map list_to_set].
        now rewrite (comm_L (∪) {[generateJobHash job]}), (assoc_L (∪)).
      * rewrite map_size_insert_None in Hi by exact Hlook.
        rewrite <- Hj. lia.
      * simpl. lia.
Qed.

End Dedup.

Section DedupClaims.
Import Db.

Lemma fingerprints_perm batch batch' :
  Permutation batch batch' -> fingerprints batch = fingerprints batch'.
Proof.
  intros H. unfold fingerprints.
  apply list_to_set_perm_L. now apply Permutation_map.
Qed.

(** On a healthy connection [insertJobs] resolves, and its counts are fixed
    by the keys already in the table, the set of fingerprints of the batch
    and the size of the batch. *)
Lemma insertJobs_healthy batch d :
  healthy d ->
  exists inserted duplicated d',
    insertJobs batch d = (Resolved (inserted, duplicated), d')
    /\ healthy d'
    /\ dom (jobs d') = dom (jobs d) ∪ fingerprints batch
    /\ inserted + size (dom (jobs d))
       = size (dom (jobs d) ∪ fingerprints batch)
    /\ inserted + duplicated = length batch.
Proof.
  intros Hd. destruct batch as [|job rest].
  - exists 0, 0, d. unfold fingerprints. simpl.
    rewrite union_empty_r_L. repeat split; auto.
  - unfold insertJobs.
    destruct (execute_healthy d Hd) as [_ [Hd1 Hj1]].
    destruct (execute d) as [e1 d1]. simpl in Hd1, Hj1.
    pose proof (insertJobsLoop_healthy (job :: rest) 0 0 d1 Hd1) as Hloop.
    destruct (insertJobsLoop (job :: rest) 0 0 d1) as [[i k] d2].
    destruct Hloop as [Hd2 [Hdom [Hi Hk]]].
    destruct (execute_healthy d2 Hd2) as [He3 [Hd3 Hj3]].
    destruct (execute d2) as [e3 d3]. simpl in He3, Hd3, Hj3. subst e3.
    exists i, k, d3. rewrite Hj3, <- Hj1.
    split; [reflexivity|]. split; [exact Hd3|]. split; [exact Hdom|].
    split; [|lia].
    rewrite <- Hdom, !size_dom. lia.
Qed.

(** C6.  On a connection whose engine does not fail, a second [insertJobs]
    of the same batch reports no insertion and counts the whole batch as
    duplicates. *)
Theorem insertJobs_idempotent (batch : list Job) (d : Database) :
  healthy d ->
  fst (insertJobs batch (snd (insertJobs batch d)))
  = Resolved (0, length batch).
Proof.
  intros Hd.
  destruct (insertJobs_healthy batch d Hd)
    as (i1 & k1 & d1 & Hrun1 & Hd1 & Hdom1 & _ & _).
  rewrite Hrun1. cbn [snd].
  destruct (insertJobs_healthy batch d1 Hd1)
    as (i2 & k2 & d2 & Hrun2 & _ & _ & Hi2 & Hk2).
  rewrite Hrun2. cbn [fst].
  assert (Hsame : dom (jobs d1) ∪ fingerprints batch = dom (jobs d1)).
  { rewrite Hdom1, <- (assoc_L (∪)). now rewrite union_idemp_L. }
  rewrite Hsame in Hi2.
  assert (i2 = 0) by lia. subst i2.
  f_equal. f_equal. lia.
Qed.

(** C7.  On a connection whose engine does not fail, a batch and any
    permutation of it get the same two counts from [insertJobs]. *)
Theorem insertJobs_order_independent
        (batch batch' : list Job) (d : Database) :
  healthy d ->
  Permutation batch batch' ->
  exists inserted duplicated,
    fst (insertJobs batch d) = Resolved (inserted, duplicated)
    /\ fst (insertJobs batch' d) = Resolved (inserted, duplicated).
Proof.
  intros Hd Hperm.
  destruct (insertJobs_healthy batch d Hd)
    as (i1 & k1 & d1 & Hrun1 & _ & _ & Hi1 & Hk1).
  destruct (insertJobs_healthy batch' d Hd)
    as (i2 & k2 & d2 & Hrun2 & _ & _ & Hi2 & Hk2).
  exists i1, k1. rewrite Hrun1, Hrun2. split; [reflexivity|].
  rewrite <- (fingerprints_perm _ _ Hperm) in Hi2.
  rewrite <- (Permutation_length Hperm) in Hk2.
  cbn [fst]. f_equal. f_equal; lia.
Qed.

Lemma emptyDb_healthy : healthy emptyDb.
Proof. intros n. reflexivity. Qed.

(** Three jobs, two of them with one fingerprint, into the empty store. *)
Lemma insertJobs_idempotent_witness :
  fst (insertJobs [jobA; jobB; jobC] emptyDb) = Resolved (2, 1)
  /\ fst (insertJobs [jobA; jobB; jobC]
                     (snd (insertJobs [jobA; jobB; jobC] emptyDb)))
     = Resolved (0, 3).
Proof.
  split; [vm_compute; reflexivity|].
  exact (insertJobs_idempotent [jobA; jobB; jobC] emptyDb emptyDb_healthy).
Defined.

(** The same batch rotated by one. *)
Lemma insertJobs_order_independent_witness :
  exists inserted duplicated,
    fst (insertJobs [jobA; jobB; jobC] emptyDb)
    = Resolved (inserted, duplicated)
    /\ fst (insertJobs [jobC; jobA; jobB] emptyDb)
       = Resolved (inserted, duplicated).
Proof.
  apply (insertJobs_order_independent
           [jobA; jobB; jobC] [jobC; jobA; jobB] emptyDb emptyDb_healthy).
  apply Permutation_sym. apply (Permutation_cons_append [jobA; jobB] jobC).
Defined.

End DedupClaims.

(** ** The run *)

Section RunFacts.
Import JsString Matcher Builder Db Scraper.

Lemma fetchJobs_answer startIndex m :
  fetchJobs startIndex m =
  match answer m with
  | inr data =>
      (Resolved data, setStats (countApiCall (stats m)) (requested m))
  | inl e => (Rejected e, setStats (markError e (stats m)) (requested m))
  end.
Proof.
  unfold fetchJobs, tryCatch, bind, axiosGet, answer, requested.
  destruct (respond (net m) (requests (net m)) _); reflexivity.
Qed.

Lemma sameWorld_refl m : sameWorld m m.
Proof. repeat split. Qed.

Lemma sameWorld_trans m1 m2 m3 :
  sameWorld m1 m2 -> sameWorld m2 m3 -> sameWorld m1 m3.
Proof.
  unfold sameWorld. intros (?&?&?&?&?&?) (?&?&?&?&?&?).
  repeat split; congruence.
Qed.

Lemma addFiltered_0 s : addFiltered 0 s = s.
Proof. destruct s. unfold addFiltered. simpl. now rewrite Nat.add_0_r. Qed.

(** The inner loop never fails: it appends one record for each sponsored
    posting, in order, and counts it. *)
Lemma jobLoop_spec results :
  forall allJobs m,
  exists built m',
    jobLoop results allJobs m = (Resolved (allJobs ++ built), m')
    /\ map company_name built
       = map (fun job => orEmpty (r_company_name job))
             (sponsored (h1bCompanies m) results)
    /\ stats m' = addFiltered (length built) (stats m)
    /\ sameWorld m m'.
Proof.
  induction results as [|job rest IH]; intros allJobs m.
  - exists [], m. simpl. unfold ret. rewrite app_nil_r, addFiltered_0.
    repeat split.
  - cbn [jobLoop sponsored List.filter].
    destruct (isH1BCompany (h1bCompanies m) (r_company_name job)) eqn:Hm.
    + cbn [negb]. unfold bind, updateStats, update, now.
      set (m1 := setClock _ (setStats _ m)).
      destruct (IH (allJobs ++ [processedJob job
                                  (reading (clock (setStats
                                     (countFiltered (stats m)) m))
                                     (readings (clock (setStats
                                     (countFiltered (stats m)) m))))]) m1)
        as (built & m' & Hrun & Hnames & Hstats & Hworld).
      eexists (_ :: built), m'. split; [|split; [|split]].
      * rewrite Hrun. now rewrite <- app_assoc.
      * cbn [map]. f_equal. exact Hnames.
      * rewrite Hstats. subst m1. destruct m as [? ? [] ? ? ? ? ?].
        unfold addFiltered. simpl. f_equal. lia.
      * eapply sameWorld_trans; [|exact Hworld]. subst m1. repeat split.
    + cbn [negb]. destruct (IH allJobs m)
        as (built & m' & Hrun & Hnames & Hstats & Hworld).
      exists built, m'. auto.
Qed.

Lemma pageLoop_step pages page startIndex allJobs m :
  pageLoop (S pages) page startIndex allJobs m =
  match answer m with
  | inl e => (Rejected e, setStats (markError e (stats m)) (requested m))
  | inr data =>
      let m1 := setStats (countApiCall (stats m)) (requested m) in
      match jobs_results data with
      | None | Some [] => (Resolved allJobs, m1)
      | Some results =>
          match jobLoop results allJobs
                        (setStats (addScraped (length results) (stats m1)) m1)
          with
          | (Resolved allJobs', m3) =>
              pageLoop pages (S page) (startIndex + 10) allJobs' m3
          | (Rejected e, m3) => (Rejected e, m3)
          | (Crashed e, m3) => (Crashed e, m3)
          end
      end
  end.
Proof.
  cbn [pageLoop]. unfold bind at 1. rewrite fetchJobs_answer.
  destruct (answer m) as [e|data]; [reflexivity|].
  destruct (jobs_results data) as [[|job rest]|]; reflexivity.
Qed.

(** One turn of the page loop on a page that holds postings. *)
Lemma pageLoop_page_names pages page startIndex allJobs m job rest :
  answer m = inr (mkData (Some (job :: rest))) ->
  exists built m3,
    pageLoop (S pages) page startIndex allJobs m
    = pageLoop pages (S page) (startIndex + 10) (allJobs ++ built) m3
    /\ map company_name built
       = map (fun job => orEmpty (r_company_name job))
             (sponsored (h1bCompanies m) (job :: rest))
    /\ stats m3
       = addFiltered (length built)
           (addScraped (S (length rest)) (countApiCall (stats m)))
    /\ net m3 = mkNet (respond (net m)) (S (requests (net m)))
    /\ serpApiKey m3 = serpApiKey m
    /\ h1bCompanies m3 = h1bCompanies m.
Proof.
  intros Hans. rewrite pageLoop_step, Hans. cbn zeta. cbn [jobs_results].
  set (m2 := setStats _ (setStats _ (requested m))).
  destruct (jobLoop_spec (job :: rest) allJobs m2)
    as (built & m3 & Hrun & Hnames & Hstats & Hworld).
  rewrite Hrun. exists built, m3.
  destruct Hworld as (Hkey & Hc & _ & Hnet & _ & _).
  rewrite Hnet, Hkey, Hstats, Hc. subst m2. repeat split. exact Hnames.
Qed.

(** The page loop issues at most [pagesLeft] requests, counts those that
    were answered, and fails only on a request that was not: then that
    request is the last one and the only one not answered. *)
Lemma pageLoop_calls pagesLeft :
  forall page startIndex allJobs m,
    let r := pageLoop pagesLeft page startIndex allJobs m in
    exists issued,
      let answered :=
        responses (respond (net m)) (searchRequest (serpApiKey m))
                  (requests (net m)) issued in
      issued <= pagesLeft
      /\ requests (net (snd r)) = requests (net m) + issued
      /\ respond (net (snd r)) = respond (net m)
      /\ serpApiKey (snd r) = serpApiKey m
      /\ apiCallsMade (stats (snd r)) = apiCallsMade (stats m) + answered
      /\ match fst r with
         | Resolved _ => answered = issued
         | Rejected _ => S answered = issued
         | Crashed _ => False
         end.
Proof.
  induction pagesLeft as [|pages IH]; intros page startIndex allJobs m r.
  - exists 0. simpl. repeat split; lia.
  - subst r. rewrite pageLoop_step. unfold answer.
    destruct (respond (net m) (requests (net m)) _) as [e|data] eqn:Hans.
    + exists 1. cbn [fst snd responses]. rewrite Hans. simpl.
      repeat split; lia.
    + cbn zeta.
      set (m1 := setStats (countApiCall (stats m)) (requested m)).
      destruct (jobs_results data) as [[|job rest]|].
      * exists 1. cbn [fst snd responses]. rewrite Hans. subst m1. simpl.
        repeat split; lia.
      * set (m2 := setStats _ m1).
        destruct (jobLoop_spec (job :: rest) allJobs m2)
          as (built & m3 & Hrun & _ & Hstats & Hworld).
        rewrite Hrun.
        destruct Hworld as (Hkey & _ & _ & Hnet & _ & _).
        destruct (IH (S page) (startIndex + 10) (allJobs ++ built) m3)
          as (issued & Hle & Hreq & Hresp & Hk & Hapi & Hout).
        exists (S issued). cbn zeta in *.
        rewrite Hnet, Hkey in *. subst m2 m1. cbn [responses].
        rewrite Hans. simpl in *.
        rewrite Hreq, Hresp, Hk, Hapi, Hstats. simpl.
        repeat split; try lia.
        destruct (fst (pageLoop pages (S page) (startIndex + 10)
                                (allJobs ++ built) m3)); try lia; auto.
      * exists 1. cbn [fst snd responses]. rewrite Hans. subst m1. simpl.
        repeat split; lia.
Qed.

Lemma processJobs_calls m :
  let r := processJobs m in
  exists issued,
    let answered :=
      responses (respond (net m)) (searchRequest (serpApiKey m))
                (requests (net m)) issued in
    issued <= maxPages
    /\ requests (net (snd r)) = requests (net m) + issued
    /\ respond (net (snd r)) = respond (net m)
    /\ serpApiKey (snd r) = serpApiKey m
    /\ apiCallsMade (stats (snd r)) = apiCallsMade (stats m) + answered
    /\ match fst r with
       | Resolved _ => answered = issued
       | Rejected _ => S answered = issued
       | Crashed _ => False
       end.
Proof.
  intros r. subst r. unfold processJobs, tryCatch.
  destruct (pageLoop_calls maxPages 0 0 [] m) as (issued & H).
  exists issued. cbn zeta in *.
  destruct (pageLoop maxPages 0 0 [] m) as [[batch|e|e] m'];
    simpl in *; exact H.
Qed.

Lemma quiet_refl m : quiet m m.
Proof. repeat split. Qed.

Lemma quiet_trans m1 m2 m3 : quiet m1 m2 -> quiet m2 m3 -> quiet m1 m3.
Proof.
  unfold quiet. intros (?&?&?) (?&?&?). repeat split; congruence.
Qed.

Lemma writeRecords_quiet records m : quiet m (snd (writeRecords records m)).
Proof.
  unfold writeRecords.
  destruct (writeFaults (resultsFile m) (writes (resultsFile m)));
    repeat split.
Qed.

Lemma saveJobsToCSV_quiet batch m : quiet m (snd (saveJobsToCSV batch m)).
Proof.
  unfold saveJobsToCSV, tryCatch, bind, access, throw.
  destruct (exists_ (resultsFile m)).
  - pose proof (writeRecords_quiet batch m) as H.
    destruct (writeRecords batch m) as [[u|e|e] m']; exact H.
  - pose proof (writeRecords_quiet [] m) as H1.
    destruct (writeRecords [] m) as [[u|e|e] m1]; try exact H1.
    pose proof (writeRecords_quiet batch m1) as H2.
    simpl in H1.
    destruct (writeRecords batch m1) as [[u2|e2|e2] m2]; simpl in *;
      eapply quiet_trans; eauto.
Qed.

Lemma onDb_quiet {A} (op : Database -> Outcome A * Database) m :
  quiet m (snd (onDb op m)).
Proof. unfold onDb. destruct (op (dbManager m)). repeat split. Qed.

Lemma saveJobs_quiet batch m : quiet m (snd (saveJobs batch m)).
Proof.
  unfold saveJobs, tryCatch, bind, updateStats, update, throw, ret.
  destruct (length batch =? 0)%nat; [apply quiet_refl|].
  pose proof (onDb_quiet (insertJobs batch) m) as H1.
  destruct (onDb (insertJobs batch) m) as [[counts|e|e] m1]; simpl in H1.
  - set (m2 := setStats _ m1).
    assert (H2 : quiet m m2).
    { eapply quiet_trans; [exact H1|]. subst m2. repeat split. }
    pose proof (saveJobsToCSV_quiet batch m2) as H3.
    destruct (saveJobsToCSV batch m2) as [[u|e|e] m3]; simpl in *.
    + eapply quiet_trans; eauto.
    + eapply quiet_trans; [exact H2|].
      eapply quiet_trans; [exact H3|]. repeat split.
    + eapply quiet_trans; eauto.
  - simpl. eapply quiet_trans; [exact H1|]. repeat split.
  - exact H1.
Qed.

Lemma logRun_quiet m : quiet m (snd (logRun m)).
Proof. unfold logRun. apply onDb_quiet. Qed.

(** [logRun] is one statement on the connection: it is rejected with the
    engine's error on that statement and resolved otherwise. *)
Lemma logRun_outcome m :
  fst (logRun m) =
  match faults (dbManager m) (executed (dbManager m)) with
  | Some e => Rejected e
  | None => Resolved (S (length (scraping_logs (dbManager m))))
  end.
Proof.
  unfold logRun, onDb, logScrapingRun, execute. simpl.
  destruct (faults (dbManager m) (executed (dbManager m))); simpl;
    [reflexivity|].
  now rewrite length_app, Nat.add_comm.
Qed.

Lemma scrapeJobs_unfold m :
  scrapeJobs m =
  match scrapeAttempt m with
  | (Rejected e, m') => failureHandler e m'
  | r => r
  end.
Proof. reflexivity. Qed.

Lemma failureHandler_quiet e m : quiet m (snd (failureHandler e m)).
Proof.
  unfold failureHandler, bind, updateStats, update, throw.
  set (m1 := setStats _ m).
  pose proof (logRun_quiet m1) as H.
  destruct (logRun m1) as [[n|e'|e'] m2]; simpl in *;
    (eapply quiet_trans; [|exact H]); subst m1; repeat split.
Qed.

(** The handler marks the statistics, writes the log row and rethrows; if
    the log row cannot be written, the error of that write is what leaves
    the handler. *)
Lemma failureHandler_outcome e m :
  fst (failureHandler e m) =
  match faults (dbManager m) (executed (dbManager m)) with
  | Some e' => Rejected e'
  | None => Rejected e
  end
  /\ stats (snd (failureHandler e m)) = markError e (stats m).
Proof.
  unfold failureHandler, bind, updateStats, update, throw.
  set (m1 := setStats (markError e (stats m)) m).
  pose proof (logRun_outcome m1) as H.
  assert (Hs : stats (snd (logRun m1)) = markError e (stats m)).
  { unfold logRun, onDb. destruct (logScrapingRun _ _). reflexivity. }
  destruct (logRun m1) as [[n|e'|e'] m2]; simpl in *;
    change (dbManager m1) with (dbManager m) in H;
    destruct (faults (dbManager m) (executed (dbManager m)));
    try discriminate; split; auto; congruence.
Qed.

Lemma scrapeAttempt_calls m :
  let r := scrapeAttempt m in
  exists issued,
    let answered :=
      responses (respond (net m)) (searchRequest (serpApiKey m))
                (requests (net m)) issued in
    issued <= maxPages
    /\ requests (net (snd r)) = requests (net m) + issued
    /\ net (snd r) = mkNet (respond (net m)) (requests (net m) + issued)
    /\ serpApiKey (snd r) = serpApiKey m
    /\ apiCallsMade (stats (snd r)) = answered
    /\ issued <= S answered.
Proof.
  intros r. assert (Hr : r = scrapeAttempt m) by reflexivity.
  clearbody r. unfold scrapeAttempt, bind, update in Hr.
  set (m0 := setStats freshStats m) in Hr.
  destruct (processJobs_calls m0)
    as (issued & Hle & Hreq & Hresp & Hkey & Hapi & Hout).
  exists issued. cbn zeta in *.
  change (net m0) with (net m) in *.
  change (serpApiKey m0) with (serpApiKey m) in *.
  change (apiCallsMade (stats m0)) with 0 in Hapi.
  assert (Hend : forall m1 m2,
             m1 = snd (processJobs m0) -> quiet m1 m2 ->
             requests (net m2) = requests (net m) + issued
             /\ net m2 = mkNet (respond (net m)) (requests (net m) + issued)
             /\ serpApiKey m2 = serpApiKey m
             /\ apiCallsMade (stats m2)
                = responses (respond (net m)) (searchRequest (serpApiKey m))
                            (requests (net m)) issued).
  { intros m1 m2 -> (Hn & Hk & Ha). rewrite Hn, Hk, Ha.
    repeat split; auto.
    destruct (net (snd (processJobs m0))) as [f n]. simpl in *.
    now subst. }
  destruct (processJobs m0) as [[batch|e|e] m1]; simpl in Hout.
  - pose proof (saveJobs_quiet batch m1) as Hs.
    destruct (saveJobs batch m1) as [[u|e|e] m2]; simpl in Hs.
    + pose proof (logRun_quiet m2) as Hl.
      destruct (logRun m2) as [[n|e|e] m3]; simpl in Hl; subst r;
        destruct (Hend m1 m3 eq_refl (quiet_trans _ _ _ Hs Hl))
          as (? & ? & ? & ?); simpl; repeat split; auto; lia.
    + subst r. destruct (Hend m1 m2 eq_refl Hs) as (? & ? & ? & ?).
      simpl; repeat split; auto; lia.
    + subst r. destruct (Hend m1 m2 eq_refl Hs) as (? & ? & ? & ?).
      simpl; repeat split; auto; lia.
  - subst r.
    destruct (Hend m1 m1 eq_refl (quiet_refl _)) as (? & ? & ? & ?).
    simpl; repeat split; auto; lia.
  - destruct Hout.
Qed.

Lemma isH1BCompany_empty name : isH1BCompany [] name = false.
Proof.
  destruct name as [name|]; [|reflexivity]. unfold isH1BCompany.
  destruct (isEmpty name); reflexivity.
Qed.

Lemma sponsored_empty results : sponsored [] results = [].
Proof.
  induction results as [|job rest IH]; [reflexivity|].
  unfold sponsored in *. cbn [List.filter].
  now rewrite isH1BCompany_empty.
Qed.

(** With an empty reference set the inner loop builds nothing. *)
Lemma jobLoop_empty results allJobs m :
  h1bCompanies m = [] ->
  exists m',
    jobLoop results allJobs m = (Resolved allJobs, m')
    /\ stats m' = stats m
    /\ sameWorld m m'.
Proof.
  intros Hempty.
  destruct (jobLoop_spec results allJobs m)
    as (built & m' & Hrun & Hnames & Hstats & Hworld).
  rewrite Hempty, sponsored_empty in Hnames.
  destruct built; [|discriminate].
  exists m'. rewrite app_nil_r in Hrun. simpl in Hstats.
  rewrite addFiltered_0 in Hstats. auto.
Qed.

Lemma pageLoop_empty pagesLeft :
  forall page startIndex m,
    h1bCompanies m = [] ->
    let r := pageLoop pagesLeft page startIndex [] m in
    h1bCompanies (snd r) = []
    /\ dbManager (snd r) = dbManager m
    /\ jobsFiltered (stats (snd r)) = jobsFiltered (stats m)
    /\ match fst r with
       | Resolved records =>
           records = [] /\ status (stats (snd r)) = status (stats m)
       | Rejected e => status (stats (snd r)) = "error"
       | Crashed _ => False
       end.
Proof.
  induction pagesLeft as [|pages IH]; intros page startIndex m Hempty r.
  - subst r. simpl. auto.
  - subst r. rewrite pageLoop_step.
    destruct (answer m) as [e|data]; [simpl; auto|].
    cbn zeta. set (m1 := setStats (countApiCall (stats m)) (requested m)).
    destruct (jobs_results data) as [[|job rest]|]; [simpl; auto| |simpl; auto].
    set (m2 := setStats _ m1).
    destruct (jobLoop_empty (job :: rest) [] m2 Hempty)
      as (m3 & Hrun & Hstats & Hworld).
    rewrite Hrun.
    destruct Hworld as (_ & Hc & Hdb & _).
    assert (Hempty3 : h1bCompanies m3 = []) by (rewrite Hc; exact Hempty).
    specialize (IH (S page) (startIndex + 10) m3 Hempty3).
    cbn zeta in IH. rewrite Hstats, Hdb in IH. exact IH.
Qed.

Lemma responses_all service req count :
  forall from,
    (forall n, exists data, service n req = inr data) ->
    responses service req from count = count.
Proof.
  induction count as [|k IH]; intros from Hall; [reflexivity|].
  simpl. destruct (Hall from) as [data ->]. now rewrite IH.
Qed.

End RunFacts.

Section RunClaims.
Import JsString Matcher Builder Db Scraper.

(** C2, as the code has it.  [fetchJobs] counts a call when its response
    has arrived and does not count a call that fails.  After a run that
    issued [issued] requests, at most three, [apiCallsMade] is the number
    of them that were answered; it is [issued] when none failed and one
    less when a failed request ended the run. *)
Theorem apiCallsMade_counts_answered_calls (m : Machine) :
  let m' := snd (scrapeJobs m) in
  let issued := requests (net m') - requests (net m) in
  (forall startIndex,
      apiCallsMade (stats (snd (fetchJobs startIndex m)))
      = apiCallsMade (stats m)
        + match answer m with inr _ => 1 | inl _ => 0 end)
  /\ requests (net m') = requests (net m) + issued
  /\ issued <= 3
  /\ apiCallsMade (stats m')
     = responses (respond (net m)) (searchRequest (serpApiKey m))
                 (requests (net m)) issued
  /\ apiCallsMade (stats m') <= issued <= S (apiCallsMade (stats m')).
Proof.
  intros m' issued. subst m' issued.
  split.
  { intros startIndex. rewrite fetchJobs_answer.
    destruct (answer m); simpl; lia. }
  rewrite scrapeJobs_unfold.
  destruct (scrapeAttempt_calls m)
    as (issued & Hle & Hreq & Hnet & Hkey & Hapi & Hone).
  cbn zeta in *.
  assert (Hbound : forall count from,
             responses (respond (net m)) (searchRequest (serpApiKey m))
                       from count <= count).
  { induction count as [|k IH]; intros from; simpl; [lia|].
    specialize (IH (S from)).
    destruct (respond (net m) from _); lia. }
  specialize (Hbound issued (requests (net m))).
  assert (Hfinal : forall m2,
             quiet (snd (scrapeAttempt m)) m2 ->
             requests (net m2) = requests (net m)
                                 + (requests (net m2) - requests (net m))
             /\ requests (net m2) - requests (net m) <= 3
             /\ apiCallsMade (stats m2)
                = responses (respond (net m)) (searchRequest (serpApiKey m))
                            (requests (net m))
                            (requests (net m2) - requests (net m))
             /\ apiCallsMade (stats m2)
                <= requests (net m2) - requests (net m)
                <= S (apiCallsMade (stats m2))).
  { intros m2 (Hn & Hk & Ha). rewrite Hn, Ha, Hreq, Hapi.
    replace (requests (net m) + issued - requests (net m)) with issued
      by lia.
    unfold maxPages in Hle. repeat split; auto; lia. }
  destruct (scrapeAttempt m) as [[batch|e|e] m1]; cbn [snd] in *.
  - apply Hfinal, quiet_refl.
  - apply Hfinal, failureHandler_quiet.
  - apply Hfinal, quiet_refl.
Qed.

(** C3, as the code has it.  When the run fails with [e], the statistics
    are marked with status error and the message of [e], and the log row
    is written.  If that write succeeds, [e] is the failure the caller
    sees; if the write fails, the caller sees the failure of the write and
    [e] is kept in the statistics only. *)
Theorem scrapeJobs_failure_then_log (m m1 : Machine) (e : JsError) :
  scrapeAttempt m = (Rejected e, m1) ->
  status (stats (snd (scrapeJobs m))) = "error"
  /\ errorMessage (stats (snd (scrapeJobs m))) = Some (message e)
  /\ fst (scrapeJobs m) =
     match faults (dbManager m1) (executed (dbManager m1)) with
     | None => Rejected e
     | Some logError => Rejected logError
     end.
Proof.
  intros Hfail. rewrite scrapeJobs_unfold, Hfail.
  destruct (failureHandler_outcome e m1) as [Hout Hstats].
  rewrite Hstats, Hout. repeat split.
Qed.

(** The early stop hangs on the answers, in the order of the requests:
    from fresh statistics, when the first request is answered with ten
    postings of which three pass the filter and the second with no posting,
    [processJobs] resolves to three records, those of the three postings in
    order, with jobsScraped 10, jobsFiltered 3 and apiCallsMade 2, and no
    third request is issued. *)
Lemma processJobs_stops_on_empty_answer
        (m : Machine) (page1 : list RawJob) (page2 : ResponseData) :
  stats m = freshStats ->
  respond (net m) (requests (net m)) (searchRequest (serpApiKey m))
  = inr (mkData (Some page1)) ->
  length page1 = 10 ->
  length (sponsored (h1bCompanies m) page1) = 3 ->
  respond (net m) (S (requests (net m))) (searchRequest (serpApiKey m))
  = inr page2 ->
  length (default [] (jobs_results page2)) = 0 ->
  exists records m',
    processJobs m = (Resolved records, m')
    /\ length records = 3
    /\ map company_name records
       = map (fun job => orEmpty (r_company_name job))
             (sponsored (h1bCompanies m) page1)
    /\ jobsScraped (stats m') = 10
    /\ jobsFiltered (stats m') = 3
    /\ apiCallsMade (stats m') = 2
    /\ status (stats m') = "success"
    /\ requests (net m') = requests (net m) + 2.
Proof.
  intros Hfresh Hfirst Hten Hthree Hsecond Hnone.
  unfold processJobs, tryCatch, maxPages.
  rewrite pageLoop_step. unfold answer. rewrite Hfirst. cbn zeta.
  cbn [jobs_results].
  destruct page1 as [|job rest]; [discriminate|].
  set (m2 := setStats _ (setStats _ (requested m))).
  destruct (jobLoop_spec (job :: rest) [] m2)
    as (built & m3 & Hrun & Hnames & Hstats & Hworld).
  rewrite Hrun. cbn [app].
  destruct Hworld as (Hkey & _ & _ & Hnet & _ & _).
  rewrite pageLoop_step. unfold answer. rewrite Hnet, Hkey.
  subst m2. cbn [net requests respond setStats requested setNet serpApiKey].
  rewrite Hsecond. cbn zeta.
  assert (Hlen : length built = 3).
  { rewrite <- (length_map company_name built), Hnames, length_map.
    exact Hthree. }
  assert (Hpage2 : match jobs_results page2 with
                   | Some (_ :: _) => False
                   | _ => True
                   end).
  { destruct (jobs_results page2) as [[|x l]|]; simpl in Hnone;
      auto; discriminate. }
  simpl in Hnames, Hstats. rewrite Hfresh in Hstats.
  destruct (jobs_results page2) as [[|x l]|]; try contradiction;
    eexists built, _; (split; [reflexivity|]);
    (split; [exact Hlen|]); (split; [exact Hnames|]);
    cbn [stats net setStats setNet requested requests];
    rewrite Hstats, Hnet, Hlen; simpl; simpl in Hten;
    repeat split; lia.
Qed.

(** C4, where the code departs from it.  [fetchJobs] leaves its start
    index out of the request: every request of a run is the same, and a
    service that pages by offset reads each of them as a request for one
    and the same offset, the first page.  When the page at offset 0 holds
    ten postings of which three pass the filter and the page at offset 10
    holds none, the run therefore does not stop after the second request:
    it is handed the page at offset 0 three times and resolves to nine
    records, the three sponsored postings three times over, with
    jobsScraped 30, jobsFiltered 9 and apiCallsMade 3. *)
Theorem processJobs_offset_not_sent
        (m : Machine) (offsetOf : Request -> nat)
        (fetchPage : nat -> list RawJob) :
  stats m = freshStats ->
  pagesByOffset (net m) offsetOf fetchPage ->
  offsetOf (searchRequest (serpApiKey m)) = 0 ->
  length (fetchPage 0) = 10 ->
  length (sponsored (h1bCompanies m) (fetchPage 0)) = 3 ->
  fetchPage 10 = [] ->
  (forall startIndex m0, fetchJobs startIndex m0 = fetchJobs 0 m0)
  /\ exists records m',
       processJobs m = (Resolved records, m')
       /\ length records = 9
       /\ (let page := map (fun job => orEmpty (r_company_name job))
                           (sponsored (h1bCompanies m) (fetchPage 0)) in
           map company_name records = page ++ page ++ page)
       /\ jobsScraped (stats m') = 30
       /\ jobsFiltered (stats m') = 9
       /\ apiCallsMade (stats m') = 3
       /\ status (stats m') = "success"
       /\ requests (net m') = requests (net m) + 3.
Proof.
  intros Hfresh Hpaged Hzero Hten Hthree _.
  split; [reflexivity|].
  assert (Hsame : forall k,
             respond (net m) k (searchRequest (serpApiKey m))
             = inr (mkData (Some (fetchPage 0)))).
  { intros k. rewrite Hpaged, Hzero. reflexivity. }
  destruct (fetchPage 0) as [|job rest] eqn:Hpage; [discriminate|].
  unfold processJobs, tryCatch, maxPages.
  destruct (pageLoop_page_names 2 0 0 [] m job rest (Hsame _))
    as (b1 & m1 & -> & Hb1 & Hs1 & Hn1 & Hk1 & Hc1).
  destruct (pageLoop_page_names 1 1 (0 + 10) ([] ++ b1) m1 job rest)
    as (b2 & m2 & -> & Hb2 & Hs2 & Hn2 & Hk2 & Hc2).
  { unfold answer. rewrite Hn1, Hk1. apply Hsame. }
  destruct (pageLoop_page_names 0 2 (0 + 10 + 10) (([] ++ b1) ++ b2) m2
                                job rest)
    as (b3 & m3 & -> & Hb3 & Hs3 & Hn3 & Hk3 & Hc3).
  { unfold answer. rewrite Hn2, Hk2, Hn1. cbn [respond requests].
    rewrite Hk1. apply Hsame. }
  rewrite Hc2, Hc1 in Hb3. rewrite Hc1 in Hb2.
  assert (Hl1 : length b1 = 3).
  { rewrite <- (length_map company_name b1), Hb1, length_map.
    exact Hthree. }
  assert (Hl2 : length b2 = 3).
  { rewrite <- (length_map company_name b2), Hb2, length_map.
    exact Hthree. }
  assert (Hl3 : length b3 = 3).
  { rewrite <- (length_map company_name b3), Hb3, length_map.
    exact Hthree. }
  cbn [pageLoop]. unfold ret.
  eexists _, m3. split; [reflexivity|].
  cbn [app]. split; [rewrite !length_app; lia|].
  split; [cbn zeta; rewrite !map_app, Hb1, Hb2, Hb3, <- app_assoc;
          reflexivity|].
  rewrite Hs3, Hs2, Hs1, Hfresh, Hn3, Hn2, Hn1, Hl1, Hl2, Hl3.
  simpl in Hten. injection Hten as Hrest. rewrite Hrest.
  cbn. repeat split; lia.
Qed.

(** What [initialize] does when the store is healthy and holds no company
    and the CSV stream ends without a usable name. *)
Lemma initialize_empty m :
  healthy (dbManager m) ->
  h1b_companies (dbManager m) = [] ->
  csv_ending (h1bCsv m) = StreamEnd ->
  readCompanies (csv_rows (h1bCsv m)) = [] ->
  fst (initialize m) = Resolved tt
  /\ h1bCompanies (snd (initialize m)) = []
  /\ healthy (dbManager (snd (initialize m)))
  /\ h1b_companies (dbManager (snd (initialize m))) = []
  /\ net (snd (initialize m)) = net m
  /\ serpApiKey (snd (initialize m)) = serpApiKey m.
Proof.
  intros Hd Hnone Hend Hrows.
  unfold initialize, loadH1BCompanies, tryCatch, bind, onDb, update,
    Db.initialize, getH1BCompanies, execute, firstError, ret.
  cbn [faults executed jobs h1b_companies scraping_logs fst snd
       dbManager setDb].
  rewrite !Hd. cbn [faults executed jobs h1b_companies scraping_logs fst snd
                    dbManager setDb].
  rewrite !Hd, Hnone. cbn. rewrite Hend, Hrows. cbn.
  repeat split; auto.
Qed.

(** C1, as the code has it.  When loading succeeds without any usable
    name, initialization completes with an empty reference set.  A run on
    it evaluates every posting against the empty set: no name matches,
    jobsFiltered stays 0, and the run either returns no record with status
    success or is rejected by a failure; when the search service answers
    every request and the store is healthy, it returns no record. *)
Theorem empty_reference_set_is_accepted (m : Machine) :
  healthy (dbManager m) ->
  h1b_companies (dbManager m) = [] ->
  csv_ending (h1bCsv m) = StreamEnd ->
  readCompanies (csv_rows (h1bCsv m)) = [] ->
  let m1 := snd (initialize m) in
  let run := scrapeJobs m1 in
  fst (initialize m) = Resolved tt
  /\ h1bCompanies m1 = []
  /\ (forall name, isH1BCompany (h1bCompanies m1) name = false)
  /\ jobsFiltered (stats (snd run)) = 0
  /\ match fst run with
     | Resolved records =>
         records = [] /\ status (stats (snd run)) = "success"
     | Rejected _ => status (stats (snd run)) = "error"
     | Crashed _ => False
     end
  /\ ((forall n, exists data,
          respond (net m) n (searchRequest (serpApiKey m)) = inr data) ->
      fst run = Resolved []).
Proof.
  intros Hd Hnone Hend Hrows m1 run.
  destruct (initialize_empty m Hd Hnone Hend Hrows)
    as (Hinit & Hempty & Hd1 & _ & Hnet & Hkey).
  fold m1 in Hempty, Hd1, Hnet, Hkey.
  split; [exact Hinit|]. split; [exact Hempty|].
  split; [intros name; rewrite Hempty; apply isH1BCompany_empty|].
  clearbody m1. subst run.
  rewrite scrapeJobs_unfold.
  unfold scrapeAttempt, bind, update, processJobs, tryCatch.
  set (m0 := setStats freshStats m1).
  assert (Hempty0 : h1bCompanies m0 = []) by exact Hempty.
  pose proof (pageLoop_empty maxPages 0 0 m0 Hempty0) as Hloop.
  pose proof (pageLoop_calls maxPages 0 0 [] m0) as Hcalls.
  cbn zeta in Hloop, Hcalls.
  destruct Hcalls as (issued & _ & _ & _ & _ & _ & Hout).
  change (net m0) with (net m1) in Hout.
  change (serpApiKey m0) with (serpApiKey m1) in Hout.
  rewrite Hnet, Hkey in Hout.
  destruct (pageLoop maxPages 0 0 [] m0) as [[records|e|e] m2];
    cbn [fst snd] in Hloop, Hout;
    destruct Hloop as (Hc2 & Hdb2 & Hf2 & Hres).
  - destruct Hres as [-> Hstatus].
    change (saveJobs [] m2) with (Resolved tt, m2).
    cbn iota beta.
    pose proof (logRun_outcome m2) as Hlog.
    assert (Hstats : stats (snd (logRun m2)) = stats m2).
    { unfold logRun, onDb. destruct (logScrapingRun _ _). reflexivity. }
    rewrite Hdb2 in Hlog. change (dbManager m0) with (dbManager m1) in Hlog.
    rewrite Hd1 in Hlog.
    destruct (logRun m2) as [[n|e|e] m3]; cbn [fst snd] in *;
      try discriminate.
    unfold ret. cbn [fst snd]. rewrite Hstats, Hf2, Hstatus.
    repeat split.
  - unfold bind, updateStats, update, throw.
    set (m3 := setStats _ m2).
    destruct (failureHandler_outcome e m3) as [Hfail Hstats].
    change (dbManager m3) with (dbManager m2) in Hfail.
    rewrite Hdb2 in Hfail. change (dbManager m0) with (dbManager m1) in Hfail.
    rewrite Hd1 in Hfail.
    destruct (failureHandler e m3) as [[x|e'|e'] m4]; cbn [fst snd] in *;
      try discriminate.
    rewrite Hstats. subst m3. cbn [stats setStats markError jobsFiltered status].
    rewrite Hf2. split; [reflexivity|]. split; [reflexivity|].
    intros Hall. exfalso.
    rewrite (responses_all _ _ issued _ Hall) in Hout. lia.
  - destruct Hres.
Qed.

End RunClaims.

(** ** Scenarios *)

Section Scenarios.
Import JsString Matcher Builder Db Scraper.

(** *** An unreachable search service *)

(** C2 as the specification words it fails when the one request of a run
    fails: one call was attempted and none is counted. *)
Lemma apiCallsMade_skips_failed_call :
  requests (net (snd (scrapeJobs offline))) - requests (net offline) = 1
  /\ apiCallsMade (stats (snd (scrapeJobs offline))) = 0
  /\ apiCallsMade (stats (snd (scrapeJobs offline)))
     <> requests (net (snd (scrapeJobs offline))) - requests (net offline).
Proof. vm_compute. repeat split. discriminate. Qed.

(** A run that fails on the network while the store works: the caller
    sees the network failure. *)
Lemma scrapeJobs_failure_then_log_witness :
  fst (scrapeJobs offline) = Rejected networkDown
  /\ status (stats (snd (scrapeJobs offline))) = "error"
  /\ errorMessage (stats (snd (scrapeJobs offline))) = Some "network down".
Proof.
  destruct (scrapeJobs_failure_then_log
              offline (snd (scrapeAttempt offline)) networkDown)
    as (Hstatus & Hmessage & Hout).
  - vm_compute. reflexivity.
  - split; [exact Hout|]. split; [exact Hstatus | exact Hmessage].
Defined.

(** *** An unreachable search service and a store that cannot write *)

(** C3 as the specification words it fails when the log row cannot be
    written: the run failed on the network, and the caller is handed the
    failure of the store. *)
Lemma scrapeJobs_log_failure_masks_original :
  fst (scrapeAttempt offlineAndBroken) = Rejected networkDown
  /\ status (stats (snd (scrapeJobs offlineAndBroken))) = "error"
  /\ fst (scrapeJobs offlineAndBroken) = Rejected diskFull
  /\ fst (scrapeJobs offlineAndBroken) <> Rejected networkDown.
Proof. vm_compute. repeat split. discriminate. Qed.

(** *** Two pages *)

(** Ten postings, three of them from sponsors, then an empty answer. *)
Example processJobs_two_answers :
  exists records m',
    processJobs twoPages = (Resolved records, m')
    /\ length records = 3
    /\ map company_name records
       = ["Google LLC"; "Acme Corp."; "Globex Corporation"]
    /\ jobsScraped (stats m') = 10
    /\ jobsFiltered (stats m') = 3
    /\ apiCallsMade (stats m') = 2
    /\ status (stats m') = "success"
    /\ requests (net m') = 2.
Proof.
  apply (processJobs_stops_on_empty_answer
           twoPages firstPage (mkData (Some [])));
    vm_compute; reflexivity.
Qed.

(** The same ten postings behind a service that pages by offset: the page
    at offset 10 is empty, and the run never asks for it. *)
Lemma processJobs_offset_not_sent_witness :
  tenPostings 10 = []
  /\ exists records m',
       processJobs pagedMachine = (Resolved records, m')
       /\ length records = 9
       /\ map company_name records
          = ["Google LLC"; "Acme Corp."; "Globex Corporation";
             "Google LLC"; "Acme Corp."; "Globex Corporation";
             "Google LLC"; "Acme Corp."; "Globex Corporation"]
       /\ jobsScraped (stats m') = 30
       /\ jobsFiltered (stats m') = 9
       /\ apiCallsMade (stats m') = 3
       /\ status (stats m') = "success"
       /\ requests (net m') = 3.
Proof.
  split; [reflexivity|].
  destruct (processJobs_offset_not_sent pagedMachine firstOffset tenPostings)
    as [_ Hrun]; try reflexivity.
  - intros k req. reflexivity.
  - exact Hrun.
Defined.

(** *** A reference file without a usable name *)

(** C1 as the specification words it fails here: initialization completes
    with an empty reference set, and the run that follows fetches two
    pages, weighs two postings against the empty set and ends in success
    with no record. *)
Lemma empty_reference_set_does_not_fail :
  fst (initialize unfiltered) = Resolved tt
  /\ h1bCompanies (snd (initialize unfiltered)) = []
  /\ fst (scrapeJobs (snd (initialize unfiltered))) = Resolved []
  /\ map (fun s => (jobsScraped s, jobsFiltered s, apiCallsMade s, status s))
         [stats (snd (scrapeJobs (snd (initialize unfiltered))))]
     = [(2, 0, 2, "success")].
Proof. vm_compute. repeat split. Qed.

(** The same machine through the general statement. *)
Lemma empty_reference_set_is_accepted_witness :
  fst (initialize unfiltered) = Resolved tt
  /\ jobsFiltered (stats (snd (scrapeJobs (snd (initialize unfiltered))))) = 0.
Proof.
  destruct (empty_reference_set_is_accepted unfiltered)
    as (Hinit & _ & _ & Hfiltered & _).
  - intros n. reflexivity.
  - reflexivity.
  - reflexivity.
  - reflexivity.
  - split; [exact Hinit | exact Hfiltered].
Defined.

End Scenarios.

(** * Further properties of the code *)

(** ** The matcher beyond the degenerate entry *)

Section MatcherMore.
Import JsString Matcher.

Lemma toLowerCase_isEmpty s : isEmpty (toLowerCase s) = isEmpty s.
Proof. destruct s; reflexivity. Qed.

(** X1.  The matcher reads the company name through [toLowerCase] only: two
    names with the same lower-case form get the same verdict from every
    reference set. *)
Theorem isH1BCompany_case_insensitive
        (h1bCompanies : list string) (name1 name2 : string) :
  toLowerCase name1 = toLowerCase name2 ->
  isH1BCompany h1bCompanies (Some name1)
  = isH1BCompany h1bCompanies (Some name2).
Proof.
  intros Hlow. unfold isH1BCompany.
  rewrite <- (toLowerCase_isEmpty name1), <- (toLowerCase_isEmpty name2).
  now rewrite Hlow.
Qed.

(** "GOOGLE llc" and "google LLC" against a set that holds "google". *)
Lemma isH1BCompany_case_insensitive_witness :
  isH1BCompany ["google"] (Some "GOOGLE llc")
  = isH1BCompany ["google"] (Some "google LLC")
  /\ isH1BCompany ["google"] (Some "GOOGLE llc") = true.
Proof.
  split; [|reflexivity].
  apply (isH1BCompany_case_insensitive ["google"] "GOOGLE llc" "google LLC").
  reflexivity.
Defined.

Lemma has_In x set : has x set = true <-> In x set.
Proof.
  unfold has. rewrite existsb_exists. split.
  - intros [y [Hin Heq]]. apply String.eqb_eq in Heq. now subst.
  - intros Hin. exists x. split; [exact Hin | apply String.eqb_refl].
Qed.

(** X2.  A name that a reference set accepts is accepted by every set that
    holds at least the same entries: adding entries, or reordering them,
    never turns a match into a rejection. *)
Theorem isH1BCompany_monotone
        (set1 set2 : list string) (name : option string) :
  (forall entry, In entry set1 -> In entry set2) ->
  isH1BCompany set1 name = true ->
  isH1BCompany set2 name = true.
Proof.
  intros Hsub. unfold isH1BCompany.
  destruct name as [name|]; [|discriminate].
  destruct (isEmpty name); [discriminate|].
  destruct (has _ set1) eqn:H1.
  - intros _. apply has_In in H1. apply Hsub, has_In in H1. now rewrite H1.
  - intros Hex. destruct (has _ set2); [reflexivity|].
    apply existsb_exists in Hex as [entry [Hin Hm]].
    apply existsb_exists. exists entry. split; [now apply Hsub | exact Hm].
Qed.

(** "Acme Corp." against ["acme"] and against a larger set. *)
Lemma isH1BCompany_monotone_witness :
  isH1BCompany ["initech"; "acme"; "google"] (Some "Acme Corp.") = true.
Proof.
  apply (isH1BCompany_monotone ["acme"] ["initech"; "acme"; "google"]).
  - intros entry [<-|[]]. simpl. right. left. reflexivity.
  - reflexivity.
Defined.

Lemma filter_nil_none {A} (f : A -> bool) (l : list A) :
  (forall x, In x l -> f x = false) -> List.filter f l = [].
Proof.
  induction l as [|x l IH]; intros H; [reflexivity|].
  simpl. rewrite (H x (or_introl eq_refl)). apply IH.
  intros y Hy. apply H. now right.
Qed.

Lemma filter_all {A} (f : A -> bool) (l : list A) :
  (forall x, In x l -> f x = true) -> List.filter f l = l.
Proof.
  induction l as [|x l IH]; intros H; [reflexivity|].
  simpl. rewrite (H x (or_introl eq_refl)). f_equal. apply IH.
  intros y Hy. apply H. now right.
Qed.

(** X3.  Two names without a common word of more than two characters are
    never a substantial match; in particular a name without any such word
    matches nothing by overlap. *)
Theorem isSubstantialMatch_needs_common_word (name1 name2 : string) :
  (forall word, In word (longWords name1) -> ~ In word (longWords name2)) ->
  isSubstantialMatch name1 name2 = false.
Proof.
  intros Hdisjoint. unfold isSubstantialMatch.
  destruct (longWords name1) as [|w1 rest1] eqn:H1; [reflexivity|].
  destruct (longWords name2) as [|w2 rest2] eqn:H2; [reflexivity|].
  cbn [length Nat.eqb orb].
  rewrite filter_nil_none.
  - reflexivity.
  - intros word Hin.
    destruct (existsb (String.eqb word) (w2 :: rest2)) eqn:Hex;
      [|reflexivity].
    exfalso. apply (Hdisjoint word Hin). now apply has_In.
Qed.

Lemma isSubstantialMatch_needs_common_word_witness :
  isSubstantialMatch "acme data labs" "globex ai" = false.
Proof.
  apply isSubstantialMatch_needs_common_word.
  intros word Hin Hin2. vm_compute in Hin, Hin2.
  destruct Hin2 as [<-|[]].
  destruct Hin as [H|[H|[H|[]]]]; discriminate.
Defined.

(** X4.  A name with at least one word of more than two characters is a
    substantial match of every name that holds all its long words: then the
    overlap ratio is at least one. *)
Theorem isSubstantialMatch_all_words_shared (name1 name2 : string) :
  longWords name1 <> [] ->
  (forall word, In word (longWords name1) -> In word (longWords name2)) ->
  isSubstantialMatch name1 name2 = true.
Proof.
  intros Hsome Hall. unfold isSubstantialMatch.
  destruct (longWords name1) as [|w1 rest1] eqn:H1; [congruence|].
  destruct (longWords name2) as [|w2 rest2] eqn:H2.
  { destruct (Hall w1 (or_introl eq_refl)). }
  cbn [length Nat.eqb orb].
  rewrite filter_all.
  - apply Nat.leb_le. cbn [length]. lia.
  - intros word Hin. apply (proj2 (has_In word (w2 :: rest2))).
    now apply Hall.
Qed.

Lemma isSubstantialMatch_all_words_shared_witness :
  isSubstantialMatch "acme data" "the acme data labs of texas" = true.
Proof.
  apply isSubstantialMatch_all_words_shared.
  - vm_compute. discriminate.
  - intros word Hin. vm_compute in Hin. vm_compute.
    destruct Hin as [<-|[<-|[]]]; auto.
Defined.

End MatcherMore.

(** ** Job type and application link *)

Section BuilderMore.
Import JsString Builder.

Lemma find_none_iff {A} (f : A -> bool) (l : list A) :
  find f l = None <-> forall x, In x l -> f x = false.
Proof.
  split; [apply find_none|].
  induction l as [|x l IH]; intros H; [reflexivity|].
  simpl. rewrite (H x (or_introl eq_refl)). apply IH.
  intros y Hy. apply H. now right.
Qed.

Lemma capitalize_jobTypes type :
  In type jobTypes -> capitalize type <> EmptyString.
Proof.
  intros Hin. destruct type; [|discriminate].
  vm_compute in Hin. intuition discriminate.
Qed.

Lemma extractJobTypeFrom_label exts :
  In (extractJobTypeFrom exts) (EmptyString :: map capitalize jobTypes)
  /\ (extractJobTypeFrom exts <> EmptyString <->
      exists ext type,
        In ext exts /\ In type jobTypes /\ Contains (toLowerCase ext) type).
Proof.
  induction exts as [|ext rest [IHin IHiff]].
  - split; [now left|]. split; [intros H; now destruct H|].
    intros (ext & type & [] & _).
  - cbn [extractJobTypeFrom].
    destruct (find (fun type => includes (toLowerCase ext) type) jobTypes)
      as [type|] eqn:Hfind.
    + apply find_some in Hfind as [Hin Hinc]. split.
      * right. now apply in_map.
      * split.
        -- intros _. exists ext, type. split; [now left|].
           split; [exact Hin | now apply includes_spec].
        -- intros _. now apply capitalize_jobTypes.
    + split; [exact IHin|]. rewrite IHiff. split.
      * intros (e & t & He & Ht & Hc). exists e, t. split; [now right|auto].
      * intros (e & t & [<-|He] & Ht & Hc).
        -- pose proof (find_none _ _ Hfind t Ht) as Hno. cbn beta in Hno.
           apply includes_spec in Hc. congruence.
        -- now exists e, t.
Qed.

(** X5.  The job type read from the extensions is empty or one of the five
    labels Full-time, Part-time, Contract, Internship, Temporary; it is a
    label exactly when some extension, lower-cased, contains one of the five
    job types.  Absent extensions give the empty string. *)
Theorem extractJobType_label (extensions : option (list string)) :
  In (extractJobType extensions)
     [ EmptyString; "Full-time"; "Part-time"; "Contract"; "Internship";
       "Temporary" ]
  /\ (extractJobType extensions <> EmptyString <->
      exists exts ext type,
        extensions = Some exts /\ In ext exts /\ In type jobTypes
        /\ Contains (toLowerCase ext) type).
Proof.
  destruct extensions as [exts|]; cbn [extractJobType].
  - destruct (extractJobTypeFrom_label exts) as [Hin Hiff]. split.
    + exact Hin.
    + rewrite Hiff. split.
      * intros (e & t & H). now exists exts, e, t.
      * intros (l & e & t & Hl & H). injection Hl as <-. now exists e, t.
  - split; [now left|]. split; [intros H; now destruct H|].
    intros (l & e & t & Hl & _). discriminate.
Qed.

Example extractJobType_case :
  extractJobType (Some ["3 days ago"; "PART-TIME or contract"]) = "Part-time".
Proof. reflexivity. Qed.

Lemma firstLink_member prios opts link :
  firstLink prios opts = Some link ->
  exists option, In option opts /\ link = o_link option.
Proof.
  induction prios as [|p rest IH]; [discriminate|].
  cbn [firstLink]. destruct (find _ opts) as [found|] eqn:Hfind.
  - intros H. injection H as <-. apply find_some in Hfind as [Hin _].
    now exists found.
  - exact IH.
Qed.

(** X6.  Without application options the link is the empty string; with
    options it is always the link of one of them. *)
Theorem getATSApplyLink_member (applyOptions : option (list ApplyOption)) :
  match applyOptions with
  | None | Some [] => getATSApplyLink applyOptions = EmptyString
  | Some opts =>
      exists option,
        In option opts /\ getATSApplyLink applyOptions = o_link option
  end.
Proof.
  destruct applyOptions as [[|first others]|]; try reflexivity.
  cbn [getATSApplyLink].
  destruct (firstLink priorities (first :: others)) as [link|] eqn:Hfirst.
  - apply firstLink_member in Hfirst as (option & Hin & ->). now exists option.
  - exists first. split; [now left | reflexivity].
Qed.

Lemma firstLink_priority before :
  forall priority after opts found,
    (forall earlier option,
        In earlier before -> In option opts -> mentions earlier option = false) ->
    find (mentions priority) opts = Some found ->
    firstLink (before ++ priority :: after) opts = Some (o_link found).
Proof.
  induction before as [|q before IH]; intros priority after opts found Hnone Hfind.
  - cbn [app firstLink]. unfold mentions in Hfind. now rewrite Hfind.
  - cbn [app firstLink].
    assert (Hq : find (mentions q) opts = None).
    { apply find_none_iff. intros option Hin. apply Hnone; [now left|exact Hin]. }
    unfold mentions in Hq. rewrite Hq. apply IH; [|exact Hfind].
    intros earlier option He Ho. apply Hnone; [now right | exact Ho].
Qed.

(** X7.  The priority terms are tried in the order career, jobs, workday,
    greenhouse, lever, bamboohr: when no option mentions a term before
    [priority] in its title or link, and [found] is the first option that
    mentions [priority], the link returned is that of [found]. *)
Theorem getATSApplyLink_priority
        (before after : list string) (priority : string)
        (opts : list ApplyOption) (found : ApplyOption) :
  priorities = before ++ priority :: after ->
  (forall earlier option,
      In earlier before -> In option opts -> mentions earlier option = false) ->
  find (mentions priority) opts = Some found ->
  getATSApplyLink (Some opts) = o_link found.
Proof.
  intros Hsplit Hnone Hfind.
  destruct opts as [|first others]; [discriminate|].
  cbn [getATSApplyLink]. rewrite Hsplit.
  now rewrite (firstLink_priority before priority after _ found Hnone Hfind).
Qed.

(** A job board first and a Workday page second: the Workday link wins over
    the position in the list. *)
Lemma getATSApplyLink_priority_witness :
  getATSApplyLink (Some [linkedInOption; workdayOption])
  = "https://acme.myWorkday.example/2".
Proof.
  apply (getATSApplyLink_priority
           ["career"; "jobs"] ["greenhouse"; "lever"; "bamboohr"] "workday"
           [linkedInOption; workdayOption] workdayOption).
  - reflexivity.
  - intros earlier option He Ho.
    destruct He as [<-|[<-|[]]]; destruct Ho as [<-|[<-|[]]]; reflexivity.
  - reflexivity.
Defined.

(** X8.  When no option mentions any priority term, the link of the first
    option is returned. *)
Theorem getATSApplyLink_fallback
        (first : ApplyOption) (others : list ApplyOption) :
  (forall priority option,
      In priority priorities -> In option (first :: others) ->
      mentions priority option = false) ->
  getATSApplyLink (Some (first :: others)) = o_link first.
Proof.
  intros Hnone. cbn [getATSApplyLink].
  assert (H : forall prios,
             (forall p, In p prios -> In p priorities) ->
             firstLink prios (first :: others) = None).
  { induction prios as [|p rest IH]; intros Hsub; [reflexivity|].
    cbn [firstLink].
    assert (Hp : find (mentions p) (first :: others) = None).
    { apply find_none_iff. intros option Hin.
      apply Hnone; [apply Hsub; now left | exact Hin]. }
    unfold mentions in Hp. rewrite Hp. apply IH.
    intros q Hq. apply Hsub. now right. }
  now rewrite (H priorities (fun p Hp => Hp)).
Qed.

Lemma getATSApplyLink_fallback_witness :
  getATSApplyLink (Some [linkedInOption; indeedOption])
  = "https://linkedin.example/1".
Proof.
  apply (getATSApplyLink_fallback linkedInOption [indeedOption]).
  intros priority option Hp Ho.
  destruct Hp as [<-|[<-|[<-|[<-|[<-|[<-|[]]]]]]];
    destruct Ho as [<-|[<-|[]]]; reflexivity.
Defined.

End BuilderMore.

(** ** Loading the reference companies *)

Section LoadingMore.
Import JsString Matcher Db Scraper.

Lemma isSpace_lowerChar c : isSpace (lowerChar c) = isSpace c.
Proof. destruct c as [[] [] [] [] [] [] [] []]; reflexivity. Qed.

Lemma lowerChar_idem c : lowerChar (lowerChar c) = lowerChar c.
Proof. destruct c as [[] [] [] [] [] [] [] []]; reflexivity. Qed.

Lemma toLowerCase_idem s : toLowerCase (toLowerCase s) = toLowerCase s.
Proof.
  induction s as [|c s IH]; [reflexivity|].
  simpl. now rewrite lowerChar_idem, IH.
Qed.

Lemma trimStart_toLowerCase s :
  trimStart (toLowerCase s) = toLowerCase (trimStart s).
Proof.
  induction s as [|c s IH]; [reflexivity|].
  simpl. rewrite isSpace_lowerChar. destruct (isSpace c); [exact IH|reflexivity].
Qed.

Lemma trimEnd_toLowerCase s :
  trimEnd (toLowerCase s) = toLowerCase (trimEnd s).
Proof.
  induction s as [|c s IH]; [reflexivity|].
  simpl. rewrite isSpace_lowerChar, IH, toLowerCase_isEmpty.
  destruct (isSpace c && isEmpty (trimEnd s)); reflexivity.
Qed.

Lemma trim_toLowerCase s : trim (toLowerCase s) = toLowerCase (trim s).
Proof. unfold trim. now rewrite trimStart_toLowerCase, trimEnd_toLowerCase. Qed.

Lemma trimStart_fixed s : isSpaceOpt (head s) = false -> trimStart s = s.
Proof. destruct s as [|c s]; [reflexivity|]. simpl. now intros ->. Qed.

Lemma trimStart_head s : isSpaceOpt (head (trimStart s)) = false.
Proof.
  induction s as [|c s IH]; [reflexivity|].
  simpl. destruct (isSpace c) eqn:Hc; [exact IH | simpl; exact Hc].
Qed.

Lemma trimEnd_idem s : trimEnd (trimEnd s) = trimEnd s.
Proof.
  induction s as [|c s IH]; [reflexivity|].
  simpl. destruct (isSpace c && isEmpty (trimEnd s)) eqn:Hc; [reflexivity|].
  simpl. now rewrite IH, Hc.
Qed.

Lemma trim_idem s : trim (trim s) = trim s.
Proof.
  unfold trim.
  rewrite (trimStart_fixed (trimEnd (trimStart s))).
  - apply trimEnd_idem.
  - apply trimEnd_head_space, trimStart_head.
Qed.

Lemma dropLastQuote_snoc s q :
  isQuote q = true -> dropLastQuote (s +:+ String q EmptyString) = s.
Proof.
  intros Hq. induction s as [|c s IH].
  - simpl. now rewrite Hq.
  - change (String c s +:+ String q EmptyString)
      with (String c (s +:+ String q EmptyString)).
    destruct s as [|d s]; simpl in *; now rewrite IH.
Qed.

(** X9.  Stripping the quotes takes one quote character off each end: a
    value between two quote characters, double or single, comes out as what
    stands between them, whatever it holds. *)
Theorem stripQuotes_surrounding (s : string) (opening closing : ascii) :
  isQuote opening = true ->
  isQuote closing = true ->
  stripQuotes (String opening (s +:+ String closing EmptyString)) = s.
Proof.
  intros Ho Hc. cbn [stripQuotes]. rewrite Ho. now apply dropLastQuote_snoc.
Qed.

(** The first row of the sample file. *)
Lemma stripQuotes_surrounding_witness :
  stripQuotes (quoted "FIRST TEK, INC.") = "FIRST TEK, INC.".
Proof.
  apply (stripQuotes_surrounding "FIRST TEK, INC." quote quote); reflexivity.
Defined.

Lemma truthy_nonempty s : truthy s = true -> s <> EmptyString.
Proof. destruct s; [discriminate | discriminate]. Qed.

Lemma onData_normalised row companies :
  Forall normalised companies -> Forall normalised (onData row companies).
Proof.
  intros Hall. unfold onData.
  destruct (employerColumn row) as [v|]; [|exact Hall].
  destruct (truthy v); [|exact Hall].
  destruct (truthy (trim (stripQuotes v))) eqn:Ht; [|exact Hall].
  apply Forall_app. split; [exact Hall|]. constructor; [|constructor].
  repeat split.
  - destruct (trim (stripQuotes v)); [discriminate Ht | discriminate].
  - apply toLowerCase_idem.
  - now rewrite trim_toLowerCase, trim_idem.
Qed.

Lemma readCompanies_normalised rows :
  Forall normalised (readCompanies rows).
Proof.
  unfold readCompanies.
  assert (H : forall acc, Forall normalised acc ->
                          Forall normalised
                            (fold_left (fun companies row => onData row companies)
                                       rows acc)).
  { induction rows as [|row rows IH]; intros acc Hacc; [exact Hacc|].
    simpl. apply IH. now apply onData_normalised. }
  apply H. constructor.
Qed.

Lemma newSet_In x items : In x (newSet items) <-> In x items.
Proof.
  induction items as [|a items IH]; [reflexivity|].
  cbn [newSet In]. rewrite filter_In, IH. split.
  - intros [H|[H _]]; auto.
  - intros [H|H]; [now left|].
    destruct (String.eqb a x) eqn:He.
    + left. now apply String.eqb_eq.
    + right. split; [exact H | reflexivity].
Qed.

Lemma newSet_NoDup items : List.NoDup (newSet items).
Proof.
  induction items as [|a items IH]; [constructor|].
  cbn [newSet]. constructor.
  - rewrite filter_In. intros [_ H]. now rewrite String.eqb_refl in H.
  - now apply List.NoDup_filter.
Qed.

Lemma newSet_fixed items : List.NoDup items -> newSet items = items.
Proof.
  induction 1 as [|a items Hnot Hnd IH]; [reflexivity|].
  cbn [newSet]. rewrite IH. f_equal. apply filter_all.
  intros y Hy. destruct (String.eqb a y) eqn:He; [|reflexivity].
  apply String.eqb_eq in He. now subst.
Qed.

(** X10.  Every name the CSV rows put into the reference set is non-empty,
    lower-case and trimmed, and the matcher accepts it against that set. *)
Theorem loaded_names_are_matched
        (rows : list (list (string * string))) (c : string) :
  In c (newSet (readCompanies rows)) ->
  c <> EmptyString
  /\ toLowerCase c = c
  /\ trim c = c
  /\ isH1BCompany (newSet (readCompanies rows)) (Some c) = true.
Proof.
  intros Hin.
  pose proof (readCompanies_normalised rows) as Hall.
  rewrite List.Forall_forall in Hall.
  destruct (Hall c (proj1 (newSet_In c _) Hin)) as (Hne & Hlow & Htrim).
  repeat split; auto.
  unfold isH1BCompany. destruct c as [|a c]; [congruence|].
  cbn [isEmpty]. rewrite Hlow, Htrim.
  now rewrite (proj2 (has_In _ _) Hin).
Qed.

(** The sample file: three rows, two names. *)
Lemma loaded_names_are_matched_witness :
  newSet (readCompanies (csv_rows readmeCsv)) = ["first tek, inc."; "google llc"]
  /\ isH1BCompany (newSet (readCompanies (csv_rows readmeCsv)))
                  (Some "first tek, inc.") = true.
Proof.
  split; [reflexivity|].
  apply (loaded_names_are_matched (csv_rows readmeCsv) "first tek, inc.").
  vm_compute. now left.
Defined.

End LoadingMore.

(** ** The reference set in the store *)

Section StoreCompanies.
Import JsString Matcher Db Scraper.

Lemma sameTables_refl d : sameTables d d.
Proof. repeat split. Qed.

Lemma sameTables_trans d1 d2 d3 :
  sameTables d1 d2 -> sameTables d2 d3 -> sameTables d1 d3.
Proof.
  unfold sameTables. intros (?&?&?&?) (?&?&?&?). repeat split; congruence.
Qed.

Lemma sameTables_healthy d d' : sameTables d d' -> healthy d -> healthy d'.
Proof. intros (_ & _ & _ & Hf) Hd n. rewrite Hf. apply Hd. Qed.

Lemma execute_sameTables d : sameTables d (snd (execute d)).
Proof. repeat split. Qed.

Lemma dbInitialize_healthy d :
  healthy d ->
  exists d', Db.initialize d = (Resolved tt, d') /\ sameTables d d'.
Proof.
  intros Hd. unfold Db.initialize, execute, firstError.
  cbn [faults executed]. rewrite !Hd. eexists. split; [reflexivity|].
  repeat split.
Qed.

Lemma getH1BCompanies_answer d :
  faults d (executed d) = None ->
  exists d',
    getH1BCompanies d = (Resolved (newSet (map snd (h1b_companies d))), d')
    /\ sameTables d d'.
Proof.
  intros Hd. unfold getH1BCompanies, execute. rewrite Hd.
  eexists. split; [reflexivity|]. repeat split.
Qed.

(** The loop of [insertH1BCompanies], whatever the engine does: rows are
    only appended, each new row is the row of a company of the list, the
    company names stay distinct, and the counter grows by the number of rows
    appended. *)
Lemma insertCompaniesLoop_appends companies :
  forall inserted d,
    List.NoDup (map fst (h1b_companies d)) ->
    let r := insertCompaniesLoop companies inserted d in
    exists added,
      h1b_companies (snd r) = h1b_companies d ++ map companyRow added
      /\ (forall c, In c added -> In c companies)
      /\ List.NoDup (map fst (h1b_companies (snd r)))
      /\ fst r = inserted + length added
      /\ jobs (snd r) = jobs d
      /\ scraping_logs (snd r) = scraping_logs d
      /\ faults (snd r) = faults d.
Proof.
  induction companies as [|company rest IH]; intros inserted d Hnd r.
  - exists []. subst r. simpl. rewrite app_nil_r. repeat split; auto.
  - subst r. cbn [insertCompaniesLoop]. unfold runInsertCompany, execute.
    cbn [h1b_companies].
    destruct (faults d (executed d)) as [e|].
    + set (d1 := mkDb _ _ _ _ _).
      destruct (IH inserted d1 Hnd)
        as (added & Hrows & Hsub & Hnd' & Hcount & Hj & Hl & Hf).
      exists added. repeat split; auto. intros c Hc. right. auto.
    + destruct (existsb (fun row => String.eqb (fst row) company)
                        (h1b_companies d)) eqn:Hex.
      * set (d1 := mkDb _ _ _ _ _).
        destruct (IH inserted d1 Hnd)
          as (added & Hrows & Hsub & Hnd' & Hcount & Hj & Hl & Hf).
        exists added. cbn [Nat.ltb Nat.leb]. repeat split; auto.
        intros c Hc. right. auto.
      * set (d1 := withCompanies _ _).
        assert (Hnd1 : List.NoDup (map fst (h1b_companies d1))).
        { subst d1. cbn [h1b_companies withCompanies].
          rewrite map_app. cbn [map fst].
          apply List.NoDup_app; [exact Hnd | repeat constructor; intros [] |].
          intros x Hx [<-|[]].
          apply in_map_iff in Hx as (row & Hfst & Hrow).
          apply Bool.not_true_iff_false in Hex. apply Hex.
          apply existsb_exists. exists row.
          split; [exact Hrow | now apply String.eqb_eq]. }
        destruct (IH (S inserted) d1 Hnd1)
          as (added & Hrows & Hsub & Hnd' & Hcount & Hj & Hl & Hf).
        exists (company :: added). cbn [Nat.ltb Nat.leb].
        subst d1. cbn [h1b_companies withCompanies jobs scraping_logs faults]
          in *.
        rewrite Hrows in Hnd'. rewrite Hrows.
        rewrite <- app_assoc in Hnd'. rewrite <- app_assoc.
        cbn [map app length] in *.
        repeat split; auto; try lia.
        intros c [<-|Hc]; [now left | right; auto].
Qed.

Lemma insertH1BCompanies_unfold companies d :
  insertH1BCompanies companies d =
  let r := insertCompaniesLoop companies 0 (snd (execute d)) in
  match faults (snd r) (executed (snd r)) with
  | Some e => (Rejected e, snd (execute (snd r)))
  | None => (Resolved (fst r), snd (execute (snd r)))
  end.
Proof.
  unfold insertH1BCompanies, execute. cbn [snd].
  destruct (insertCompaniesLoop companies 0 _) as [inserted d2].
  cbn [fst snd]. destruct (faults d2 (executed d2)); reflexivity.
Qed.

(** X11.  [insertH1BCompanies] keeps the company names of the table
    distinct and only appends rows: each new row belongs to a company of the
    list with its lower-cased, trimmed name beside it, and the number it
    reports is the number of rows it appended.  This holds whatever
    statements the engine fails on. *)
Theorem insertH1BCompanies_appends_distinct
        (companies : list string) (d : Database) :
  List.NoDup (map fst (h1b_companies d)) ->
  exists added,
    h1b_companies (snd (insertH1BCompanies companies d))
    = h1b_companies d ++ map companyRow added
    /\ (forall c, In c added -> In c companies)
    /\ List.NoDup (map fst (h1b_companies (snd (insertH1BCompanies companies d))))
    /\ (forall n, fst (insertH1BCompanies companies d) = Resolved n ->
                  n = length added).
Proof.
  intros Hnd. rewrite insertH1BCompanies_unfold.
  destruct (insertCompaniesLoop_appends companies 0 (snd (execute d)) Hnd)
    as (added & Hrows & Hsub & Hnd' & Hcount & _).
  exists added. cbn zeta.
  set (r := insertCompaniesLoop companies 0 (snd (execute d))) in *.
  destruct (faults (snd r) (executed (snd r)));
    cbn [fst snd execute h1b_companies];
    repeat split; auto; try discriminate.
  intros n Hn. injection Hn as <-. exact Hcount.
Qed.

(** A list that names "Google LLC" twice, into a store that holds it. *)
Lemma insertH1BCompanies_appends_distinct_witness :
  fst (insertH1BCompanies ["Google LLC"; "Initech"; "Initech"] seededDb)
  = Resolved 1
  /\ exists added,
      h1b_companies
        (snd (insertH1BCompanies ["Google LLC"; "Initech"; "Initech"] seededDb))
      = h1b_companies seededDb ++ map companyRow added.
Proof.
  split; [reflexivity|].
  destruct (insertH1BCompanies_appends_distinct
              ["Google LLC"; "Initech"; "Initech"] seededDb)
    as (added & Hrows & _).
  - vm_compute. repeat constructor; simpl; intuition discriminate.
  - now exists added.
Defined.

(** X12.  The store comes first: when the table of companies answers with
    at least one row, the reference set is the set of its normalised names
    and the CSV file is not looked at, not even when it cannot be read. *)
Theorem loadH1BCompanies_prefers_store (m : Machine) :
  faults (dbManager m) (executed (dbManager m)) = None ->
  h1b_companies (dbManager m) <> [] ->
  fst (loadH1BCompanies m) = Resolved tt
  /\ h1bCompanies (snd (loadH1BCompanies m))
     = newSet (map snd (h1b_companies (dbManager m))).
Proof.
  intros Hok Hrows.
  unfold loadH1BCompanies, tryCatch, bind, onDb, getH1BCompanies, execute,
    update.
  rewrite Hok. cbn [h1b_companies dbManager setDb fst snd].
  destruct (h1b_companies (dbManager m)) as [|row rows]; [congruence|].
  cbn [map newSet length Nat.ltb Nat.leb]. split; reflexivity.
Qed.

Lemma loadH1BCompanies_prefers_store_witness :
  fst (loadH1BCompanies seededMachine) = Resolved tt
  /\ h1bCompanies (snd (loadH1BCompanies seededMachine))
     = ["google llc"; "acme corp."].
Proof.
  apply (loadH1BCompanies_prefers_store seededMachine).
  - reflexivity.
  - discriminate.
Defined.

(** X13.  A load that fails changes nothing: when the read of the store
    fails, or the store is empty and the parser of the CSV file reports an
    error, the promise is rejected with that error and the reference set the
    scraper held before is kept; the rows read before the error are
    dropped. *)
Theorem loadH1BCompanies_failure_keeps_set (m : Machine) (e : JsError) :
  faults (dbManager m) (executed (dbManager m)) = Some e
  \/ (faults (dbManager m) (executed (dbManager m)) = None
      /\ h1b_companies (dbManager m) = []
      /\ csv_ending (h1bCsv m) = ParserError e) ->
  fst (loadH1BCompanies m) = Rejected e
  /\ h1bCompanies (snd (loadH1BCompanies m)) = h1bCompanies m.
Proof.
  unfold loadH1BCompanies, tryCatch, bind, onDb, getH1BCompanies, execute,
    update, throw.
  intros [Hfail|(Hok & Hrows & Hend)].
  - rewrite Hfail. split; reflexivity.
  - rewrite Hok, Hrows. cbn. rewrite Hend. split; reflexivity.
Qed.

Lemma loadH1BCompanies_failure_keeps_set_witness :
  fst (loadH1BCompanies brokenCsvMachine) = Rejected (mkError "Invalid row")
  /\ h1bCompanies (snd (loadH1BCompanies brokenCsvMachine)) = ["older entry"].
Proof.
  apply (loadH1BCompanies_failure_keeps_set brokenCsvMachine).
  right. repeat split.
Defined.

(** X14.  When the store cannot be opened, [initialize] is rejected with the
    error of the store; nothing is loaded and no company is written. *)
Theorem initialize_store_failure (m : Machine) (e : JsError) :
  faults (dbManager m) (executed (dbManager m)) = Some e ->
  fst (initialize m) = Rejected e
  /\ h1bCompanies (snd (initialize m)) = h1bCompanies m
  /\ h1b_companies (dbManager (snd (initialize m)))
     = h1b_companies (dbManager m).
Proof.
  intros Hfail.
  unfold initialize, tryCatch, bind, onDb, Db.initialize, execute, throw.
  rewrite Hfail. repeat split.
Qed.

Lemma initialize_store_failure_witness :
  fst (initialize closedMachine) = Rejected diskFull
  /\ h1bCompanies (snd (initialize closedMachine)) = ["older entry"].
Proof.
  destruct (initialize_store_failure closedMachine diskFull eq_refl)
    as (Hout & Hset & _).
  split; [exact Hout | exact Hset].
Defined.

Lemma insertCompaniesLoop_fresh companies :
  forall inserted d,
    healthy d ->
    List.NoDup companies ->
    (forall c, In c companies -> ~ In c (map fst (h1b_companies d))) ->
    let r := insertCompaniesLoop companies inserted d in
    fst r = inserted + length companies
    /\ h1b_companies (snd r) = h1b_companies d ++ map companyRow companies
    /\ faults (snd r) = faults d.
Proof.
  induction companies as [|company rest IH];
    intros inserted d Hd Hnd Hfresh r; subst r.
  - simpl. rewrite app_nil_r. repeat split; lia.
  - cbn [insertCompaniesLoop]. unfold runInsertCompany, execute.
    rewrite Hd. cbn [h1b_companies].
    assert (Hex : existsb (fun row => String.eqb (fst row) company)
                          (h1b_companies d) = false).
    { apply Bool.not_true_iff_false. intros Hex.
      apply existsb_exists in Hex as (row & Hin & Heq).
      apply String.eqb_eq in Heq.
      apply (Hfresh company (or_introl eq_refl)).
      apply in_map_iff. now exists row. }
    rewrite Hex. cbn [Nat.ltb Nat.leb].
    set (d1 := withCompanies _ _).
    apply List.NoDup_cons_iff in Hnd as [Hnot Hnd].
    destruct (IH (S inserted) d1) as (Hcount & Hrows & Hf).
    + intros n. apply Hd.
    + exact Hnd.
    + intros c Hc. subst d1. cbn [h1b_companies withCompanies].
      rewrite map_app, in_app_iff. cbn [map fst In].
      intros [Hin|[<-|[]]]; [|contradiction].
      apply (Hfresh c); [now right | exact Hin].
    + subst d1. cbn [h1b_companies withCompanies faults] in *.
      rewrite Hrows, <- app_assoc. cbn [map app length].
      repeat split; auto; lia.
Qed.

Lemma map_normalised_fixed companies :
  Forall normalised companies ->
  map snd (map companyRow companies) = companies.
Proof.
  induction 1 as [|c companies (Hne & Hlow & Htrim) Hall IH]; [reflexivity|].
  cbn [map companyRow snd]. now rewrite Hlow, Htrim, IH.
Qed.

Lemma initialize_unfold m :
  initialize m =
  match onDb Db.initialize m with
  | (Resolved _, m1) =>
      match loadH1BCompanies m1 with
      | (Resolved _, m2) =>
          if (0 <? length (h1bCompanies m2))%nat then
            match onDb (insertH1BCompanies (h1bCompanies m2)) m2 with
            | (Resolved _, m3) => (Resolved tt, m3)
            | (Rejected e, m3) => (Rejected e, m3)
            | (Crashed e, m3) => (Crashed e, m3)
            end
          else (Resolved tt, m2)
      | (Rejected e, m2) => (Rejected e, m2)
      | (Crashed e, m2) => (Crashed e, m2)
      end
  | (Rejected e, m1) => (Rejected e, m1)
  | (Crashed e, m1) => (Crashed e, m1)
  end.
Proof.
  unfold initialize, tryCatch, bind, throw, ret.
  destruct (onDb Db.initialize m) as [[u|e|e] m1]; try reflexivity.
  destruct (loadH1BCompanies m1) as [[u2|e|e] m2]; try reflexivity.
  destruct (0 <? length (h1bCompanies m2))%nat; [|reflexivity].
  destruct (onDb (insertH1BCompanies (h1bCompanies m2)) m2)
    as [[u3|e|e] m3]; reflexivity.
Qed.

Lemma loadH1BCompanies_from_csv m :
  faults (dbManager m) (executed (dbManager m)) = None ->
  h1b_companies (dbManager m) = [] ->
  csv_ending (h1bCsv m) = StreamEnd ->
  loadH1BCompanies m =
  (Resolved tt,
   setCompanies (newSet (readCompanies (csv_rows (h1bCsv m))))
                (setDb (snd (execute (dbManager m))) m)).
Proof.
  intros Hok Hnone Hend.
  unfold loadH1BCompanies, tryCatch, bind, onDb, getH1BCompanies, update.
  unfold execute at 1 2. rewrite Hok. cbn [h1b_companies fst snd].
  rewrite Hnone. cbn [map newSet length Nat.ltb Nat.leb h1bCsv setDb].
  rewrite Hend. reflexivity.
Qed.

(** X15.  Starting on a healthy store without companies, [initialize] reads
    the CSV rows into the reference set and writes the set to the store in
    such a way that reading the store back gives the same set, in the same
    order: the next start finds in the store what this one read from the
    file. *)
Theorem initialize_persists_reference_set (m : Machine) :
  healthy (dbManager m) ->
  h1b_companies (dbManager m) = [] ->
  csv_ending (h1bCsv m) = StreamEnd ->
  fst (initialize m) = Resolved tt
  /\ h1bCompanies (snd (initialize m))
     = newSet (readCompanies (csv_rows (h1bCsv m)))
  /\ fst (getH1BCompanies (dbManager (snd (initialize m))))
     = Resolved (h1bCompanies (snd (initialize m))).
Proof.
  intros Hd Hnone Hend.
  set (companies := newSet (readCompanies (csv_rows (h1bCsv m)))).
  assert (Hnorm : Forall normalised companies).
  { apply List.Forall_forall. intros c Hc. subst companies.
    apply (proj1 (newSet_In _ _)) in Hc.
    pose proof (readCompanies_normalised (csv_rows (h1bCsv m))) as Hall.
    rewrite List.Forall_forall in Hall. now apply Hall. }
  assert (Hnd : List.NoDup companies) by apply newSet_NoDup.
  remember (initialize m) as run eqn:Hrun.
  rewrite initialize_unfold in Hrun. unfold onDb in Hrun.
  destruct (dbInitialize_healthy (dbManager m) Hd) as (d1 & Hinit & Hsame1).
  rewrite Hinit in Hrun.
  pose proof (sameTables_healthy _ _ Hsame1 Hd) as Hd1.
  destruct Hsame1 as (_ & Hrows1 & _ & _).
  rewrite loadH1BCompanies_from_csv in Hrun;
    cbn [dbManager setDb h1bCsv]; [| apply Hd1 | congruence | exact Hend].
  cbn [h1bCompanies setCompanies dbManager setDb h1bCsv] in Hrun.
  fold companies in Hrun.
  set (d2 := snd (execute d1)) in *.
  assert (Hd2 : healthy d2) by (intros n; apply Hd1).
  assert (Hrows2 : h1b_companies d2 = []) by (subst d2; cbn; congruence).
  assert (Hread : forall d,
             healthy d -> h1b_companies d = map companyRow companies ->
             fst (getH1BCompanies d) = Resolved companies).
  { intros d Hh Hr. unfold getH1BCompanies, execute. rewrite Hh.
    cbn [fst h1b_companies]. rewrite Hr.
    rewrite (map_normalised_fixed companies Hnorm).
    now rewrite (newSet_fixed companies Hnd). }
  destruct (0 <? length companies)%nat eqn:Hlen.
  - rewrite insertH1BCompanies_unfold in Hrun. cbn zeta in Hrun.
    assert (Hd3 : healthy (snd (execute d2))) by (intros n; apply Hd2).
    destruct (insertCompaniesLoop_fresh companies 0 (snd (execute d2)) Hd3 Hnd)
      as (Hcount & Hrows & Hf).
    { intros x _. change (h1b_companies (snd (execute d2)))
        with (h1b_companies d2). rewrite Hrows2. intros []. }
    change (h1b_companies (snd (execute d2))) with (h1b_companies d2) in Hrows.
    cbn zeta in *.
    set (r := insertCompaniesLoop companies 0 (snd (execute d2))) in *.
    assert (Hfr : faults (snd r) (executed (snd r)) = None).
    { rewrite Hf. apply Hd2. }
    rewrite Hfr in Hrun. subst run.
    cbn [fst snd h1bCompanies setDb setCompanies dbManager].
    split; [reflexivity|]. split; [reflexivity|].
    apply Hread.
    + intros n. cbn. rewrite Hf. apply Hd2.
    + cbn [execute snd h1b_companies]. rewrite Hrows.
      now rewrite Hrows2.
  - subst run. cbn [fst snd h1bCompanies setDb setCompanies dbManager].
    split; [reflexivity|]. split; [reflexivity|].
    apply Hread; [exact Hd2|].
    rewrite Hrows2. destruct companies; [reflexivity | discriminate].
Qed.

(** The sample file into an empty store. *)
Lemma initialize_persists_reference_set_witness :
  h1bCompanies (snd (initialize readmeMachine))
  = ["first tek, inc."; "google llc"]
  /\ fst (getH1BCompanies (dbManager (snd (initialize readmeMachine))))
     = Resolved ["first tek, inc."; "google llc"].
Proof.
  destruct (initialize_persists_reference_set readmeMachine)
    as (_ & Hset & Hback).
  - intros n. reflexivity.
  - reflexivity.
  - reflexivity.
  - rewrite Hback, Hset. split; reflexivity.
Defined.

End StoreCompanies.

(** ** The jobs table *)

Section JobsTable.
Import Db.

(** The loop of [insertJobs], whatever the engine does: rows already in the
    table stay as they are, every row of the table afterwards was there
    before or belongs to a job of the batch and sits under its fingerprint,
    the table grows by the number of insertions counted, and no record is
    counted twice. *)
Lemma insertJobsLoop_rows batch :
  forall inserted duplicated d,
    let '(inserted', duplicated', d') :=
      insertJobsLoop batch inserted duplicated d in
    (forall jobHash job,
        jobs d !! jobHash = Some job -> jobs d' !! jobHash = Some job)
    /\ (forall jobHash job,
           jobs d' !! jobHash = Some job ->
           jobs d !! jobHash = Some job
           \/ (In job batch /\ jobHash = generateJobHash job))
    /\ size (jobs d') + inserted = size (jobs d) + inserted'
    /\ inserted' + duplicated' <= inserted + duplicated + length batch
    /\ inserted <= inserted'
    /\ faults d' = faults d.
Proof.
  induction batch as [|job rest IH]; intros inserted duplicated d.
  - simpl. repeat split; auto; lia.
  - cbn [insertJobsLoop]. unfold runInsertJob, execute.
    cbn [jobs].
    destruct (faults d (executed d)) as [e|].
    + set (d1 := mkDb _ _ _ _ _).
      specialize (IH inserted duplicated d1).
      destruct (insertJobsLoop rest inserted duplicated d1) as [[i' k'] d'].
      destruct IH as (Hkeep & Hfrom & Hsize & Hcount & Hle & Hf).
      repeat split; auto; try (cbn [length]; lia).
      intros h j Hj. destruct (Hfrom h j Hj) as [Hold|[Hin Hh]]; auto.
      right. split; [now right | exact Hh].
    + destruct (jobs d !! generateJobHash job) as [old|] eqn:Hlook.
      * set (d1 := mkDb _ _ _ _ _).
        specialize (IH inserted (S duplicated) d1).
        destruct (insertJobsLoop rest inserted (S duplicated) d1)
          as [[i' k'] d'].
        destruct IH as (Hkeep & Hfrom & Hsize & Hcount & Hle & Hf).
        cbn [Nat.ltb Nat.leb].
        repeat split; auto; try (cbn [length]; lia).
        intros h j Hj. destruct (Hfrom h j Hj) as [Hold|[Hin Hh]]; auto.
        right. split; [now right | exact Hh].
      * set (d1 := withJobs _ _).
        specialize (IH (S inserted) duplicated d1).
        destruct (insertJobsLoop rest (S inserted) duplicated d1)
          as [[i' k'] d'].
        destruct IH as (Hkeep & Hfrom & Hsize & Hcount & Hle & Hf).
        subst d1. cbn [jobs withJobs faults] in *.
        cbn [Nat.ltb Nat.leb].
        rewrite map_size_insert_None in Hsize by exact Hlook.
        repeat split; auto; try (cbn [length]; lia).
        -- intros h j Hj. apply Hkeep.
           rewrite lookup_insert_ne; [exact Hj|]. congruence.
        -- intros h j Hj. destruct (Hfrom h j Hj) as [Hold|[Hin Hh]].
           ++ destruct (decide (generateJobHash job = h)) as [<-|Hne].
              ** rewrite lookup_insert_eq in Hold. injection Hold as <-.
                 right. split; [now left | reflexivity].
              ** rewrite lookup_insert_ne in Hold by exact Hne. now left.
           ++ right. split; [now right | exact Hh].
Qed.

Lemma insertJobs_unfold batch d :
  insertJobs batch d =
  match batch with
  | [] => (Resolved (0, 0), d)
  | _ :: _ =>
      let r := insertJobsLoop batch 0 0 (snd (execute d)) in
      match faults (snd r) (executed (snd r)) with
      | Some e => (Rejected e, snd (execute (snd r)))
      | None => (Resolved (fst r), snd (execute (snd r)))
      end
  end.
Proof.
  destruct batch as [|job rest]; [reflexivity|].
  unfold insertJobs, execute. cbn [snd].
  destruct (insertJobsLoop (job :: rest) 0 0 _) as [[i k] d2].
  cbn [fst snd]. destruct (faults d2 (executed d2)); reflexivity.
Qed.

Lemma insertJobs_rows batch d :
  (forall jobHash job,
      jobs d !! jobHash = Some job ->
      jobs (snd (insertJobs batch d)) !! jobHash = Some job)
  /\ (forall jobHash job,
         jobs (snd (insertJobs batch d)) !! jobHash = Some job ->
         jobs d !! jobHash = Some job
         \/ (In job batch /\ jobHash = generateJobHash job))
  /\ (forall inserted duplicated,
         fst (insertJobs batch d) = Resolved (inserted, duplicated) ->
         size (jobs (snd (insertJobs batch d))) = size (jobs d) + inserted
         /\ inserted + duplicated <= length batch).
Proof.
  rewrite insertJobs_unfold. destruct batch as [|job rest].
  - cbn [fst snd]. repeat split; auto.
    + injection H as <- <-. lia.
    + injection H as <- <-. simpl. lia.
  - cbn zeta.
    pose proof (insertJobsLoop_rows (job :: rest) 0 0 (snd (execute d)))
      as Hloop.
    destruct (insertJobsLoop (job :: rest) 0 0 (snd (execute d)))
      as [[i k] d2].
    destruct Hloop as (Hkeep & Hfrom & Hsize & Hcount & _ & _).
    change (jobs (snd (execute d))) with (jobs d) in *.
    cbn [fst snd].
    destruct (faults d2 (executed d2));
      cbn [fst snd execute jobs]; repeat split; auto; try discriminate.
    + injection H as <- <-. lia.
    + injection H as <- <-. lia.
Qed.

(** X16.  [insertJobs] never changes or removes a row that is in the table:
    a job whose fingerprint is already stored leaves the stored row, with
    its first scrape time, as it is.  This holds whatever statements the
    engine fails on. *)
Theorem insertJobs_keeps_rows
        (batch : list Job) (d : Database) (jobHash : string) (job : Job) :
  jobs d !! jobHash = Some job ->
  jobs (snd (insertJobs batch d)) !! jobHash = Some job.
Proof. intros H. now apply (proj1 (insertJobs_rows batch d)). Qed.

(** [jobC] has the fingerprint of [jobA]: the row of [jobA] stays. *)
Lemma insertJobs_keeps_rows_witness :
  jobs (snd (insertJobs [jobC; jobB] storeWithA)) !! generateJobHash jobC
  = Some jobA.
Proof.
  apply (insertJobs_keeps_rows [jobC; jobB] storeWithA).
  vm_compute. reflexivity.
Defined.

(** X17.  A table in which every row sits under the fingerprint of its own
    fields is still such a table after [insertJobs], and each of its rows
    was there before or is a job of the batch. *)
Theorem insertJobs_keyed_by_fingerprint (batch : list Job) (d : Database) :
  keyedByFingerprint (jobs d) ->
  keyedByFingerprint (jobs (snd (insertJobs batch d)))
  /\ (forall jobHash job,
         jobs (snd (insertJobs batch d)) !! jobHash = Some job ->
         jobs d !! jobHash = Some job \/ In job batch).
Proof.
  intros Hkeyed.
  destruct (insertJobs_rows batch d) as (_ & Hfrom & _). split.
  - intros h j Hj. destruct (Hfrom h j Hj) as [Hold|[_ Hh]]; auto.
  - intros h j Hj. destruct (Hfrom h j Hj) as [Hold|[Hin _]]; auto.
Qed.

Lemma insertJobs_keyed_by_fingerprint_witness :
  keyedByFingerprint (jobs (snd (insertJobs [jobC; jobB] storeWithA))).
Proof.
  apply (insertJobs_keyed_by_fingerprint [jobC; jobB] storeWithA).
  intros h j Hj. unfold storeWithA in Hj. cbn [jobs] in Hj.
  apply lookup_singleton_Some in Hj as [<- <-]. reflexivity.
Defined.

(** X18.  When [insertJobs] resolves, the table has grown by exactly the
    number of insertions it reports, and insertions and duplicates together
    never exceed the size of the batch; they fall short of it by the rows
    on which the engine reported an error. *)
Theorem insertJobs_counts
        (batch : list Job) (d : Database) (inserted duplicated : nat) :
  fst (insertJobs batch d) = Resolved (inserted, duplicated) ->
  size (jobs (snd (insertJobs batch d))) = size (jobs d) + inserted
  /\ inserted + duplicated <= length batch.
Proof. intros H. now apply (proj2 (proj2 (insertJobs_rows batch d))). Qed.

Lemma insertJobs_counts_witness :
  size (jobs (snd (insertJobs [jobC; jobB] storeWithA))) = 2.
Proof.
  destruct (insertJobs_counts [jobC; jobB] storeWithA 1 1) as [Hsize _].
  - vm_compute. reflexivity.
  - rewrite Hsize. vm_compute. reflexivity.
Defined.

(** X19.  On a connection whose engine does not fail, a batch of jobs
    whose fingerprints are all in the table is counted as duplicates as a
    whole, whatever their other fields and scrape times, and the table is
    left as it was. *)
Theorem insertJobs_known_jobs (batch : list Job) (d : Database) :
  healthy d ->
  (forall job, In job batch -> is_Some (jobs d !! generateJobHash job)) ->
  fst (insertJobs batch d) = Resolved (0, length batch)
  /\ jobs (snd (insertJobs batch d)) = jobs d.
Proof.
  intros Hd Hknown.
  destruct (insertJobs_healthy batch d Hd)
    as (i & k & d' & Hrun & _ & Hdom & Hi & Hk).
  assert (Hsub : fingerprints batch ⊆ dom (jobs d)).
  { intros h Hh. unfold fingerprints in Hh.
    apply elem_of_list_to_set, list_elem_of_In, in_map_iff in Hh
      as (job & <- & Hin).
    apply elem_of_dom. now apply Hknown. }
  assert (Hsame : dom (jobs d) ∪ fingerprints batch = dom (jobs d)).
  { rewrite (comm_L (∪)). now apply subseteq_union_1_L. }
  rewrite Hsame in Hi, Hdom.
  assert (i = 0) by lia. subst i.
  destruct (insertJobs_rows batch d) as (Hkeep & _ & _).
  rewrite Hrun in *. cbn [fst snd] in *. split.
  - f_equal. f_equal. lia.
  - apply map_eq. intros h.
    destruct (jobs d !! h) as [job|] eqn:Hlook.
    + now apply Hkeep.
    + apply not_elem_of_dom. rewrite Hdom. now apply not_elem_of_dom.
Qed.

(** [jobC] is [jobA] scraped a day later with another description. *)
Lemma insertJobs_known_jobs_witness :
  fst (insertJobs [jobC; jobA] storeWithA) = Resolved (0, 2)
  /\ jobs (snd (insertJobs [jobC; jobA] storeWithA)) = jobs storeWithA.
Proof.
  apply (insertJobs_known_jobs [jobC; jobA] storeWithA).
  - intros n. reflexivity.
  - intros job [<-|[<-|[]]]; vm_compute; eauto.
Defined.

(** X20.  The fields are joined by a hyphen without escaping, so the
    boundary between two fields is lost when a field holds a hyphen: a job
    of company [a-b] with title [c] and a job of company [a] with title
    [b-c], equal in location and posting time, have one fingerprint and are
    duplicates of each other for the store. *)
Theorem generateJobHash_hyphen_collision (j1 j2 : Job) (a b c : string) :
  company_name j1 = a +:+ "-" +:+ b ->
  job_title j1 = c ->
  company_name j2 = a ->
  job_title j2 = b +:+ "-" +:+ c ->
  job_location j1 = job_location j2 ->
  posting_time j1 = posting_time j2 ->
  generateJobHash j1 = generateJobHash j2.
Proof.
  intros Hc1 Ht1 Hc2 Ht2 Hl Hp. unfold generateJobHash, hashString.
  rewrite Hc1, Ht1, Hc2, Ht2, Hl, Hp.
  apply (f_equal Md5.md5Hex). now rewrite !append_assoc_string.
Qed.

(** "Smith-Jones" hiring an "Engineer" and "Smith" hiring a
    "Jones-Engineer": the second posting is dropped as a duplicate. *)
Lemma generateJobHash_hyphen_collision_witness :
  generateJobHash smithJones = generateJobHash smith
  /\ fst (insertJobs [smithJones; smith] emptyDb) = Resolved (1, 1).
Proof.
  split.
  - apply (generateJobHash_hyphen_collision smithJones smith
             "Smith" "Jones" "Engineer"); reflexivity.
  - vm_compute. reflexivity.
Defined.

Lemma hexDigit_isHexDigit (n : nat) :
  n < 16 -> isHexDigit (Md5.hexDigit (Z.of_nat n)) = true.
Proof.
  intros Hn.
  do 16 (destruct n as [|n]; [reflexivity|]). lia.
Qed.

Lemma hex_isHexDigit bytes :
  Forall (fun b => (0 <= b < 256)%Z) bytes ->
  forallb isHexDigit (list_ascii_of_string (Md5.hex bytes)) = true.
Proof.
  induction 1 as [|b rest Hb Hrest IH]; [reflexivity|].
  cbn [Md5.hex list_ascii_of_string forallb].
  rewrite IH, !andb_true_r.
  rewrite <- (Z2Nat.id (b / 16)) by (apply Z.div_pos; lia).
  rewrite <- (Z2Nat.id (b mod 16)) by (apply Z.mod_pos_bound; lia).
  rewrite !hexDigit_isHexDigit; [reflexivity| |].
  - apply Nat2Z.inj_lt. rewrite Z2Nat.id by (apply Z.mod_pos_bound; lia).
    apply Z.mod_pos_bound. lia.
  - apply Nat2Z.inj_lt. rewrite Z2Nat.id by (apply Z.div_pos; lia).
    apply Z.div_lt_upper_bound; lia.
Qed.

Lemma digestBytes_range bytes :
  Forall (fun b => (0 <= b < 256)%Z) (Md5.digestBytes bytes).
Proof.
  unfold Md5.digestBytes. cbn [flat_map map seq app].
  repeat constructor; apply Z.mod_pos_bound; lia.
Qed.

(** X21.  The fingerprint of every job is a string of thirty-two
    characters, each a digit or a letter from a to f. *)
Theorem generateJobHash_is_hex (job : Job) :
  String.length (generateJobHash job) = 32
  /\ forallb isHexDigit (list_ascii_of_string (generateJobHash job)) = true.
Proof.
  split.
  - unfold generateJobHash, Md5.md5Hex. rewrite hex_length.
    unfold Md5.digestBytes. cbn [flat_map].
    now rewrite !length_app, !length_map.
  - unfold generateJobHash, Md5.md5Hex.
    apply hex_isHexDigit, digestBytes_range.
Qed.

End JobsTable.

(** ** Fetching and filtering *)

Section ProcessMore.
Import JsString Matcher Builder Db Scraper.

Lemma isH1BCompany_name companies name :
  isH1BCompany companies name = true ->
  exists c, name = Some c /\ c <> EmptyString.
Proof.
  destruct name as [c|]; [|discriminate]. intros H. exists c.
  split; [reflexivity|]. intros ->. discriminate.
Qed.

(** The inner loop once more, this time with the records themselves. *)
Lemma jobLoop_records results :
  forall allJobs m,
  exists built m',
    jobLoop results allJobs m = (Resolved (allJobs ++ built), m')
    /\ Forall (builtFrom (h1bCompanies m)) built
    /\ length built <= length results
    /\ stats m' = addFiltered (length built) (stats m)
    /\ sameWorld m m'.
Proof.
  induction results as [|job rest IH]; intros allJobs m.
  - exists [], m. simpl. unfold ret. rewrite app_nil_r, addFiltered_0.
    repeat split; auto.
  - cbn [jobLoop].
    destruct (isH1BCompany (h1bCompanies m) (r_company_name job)) eqn:Hm.
    + cbn [negb]. unfold bind, updateStats, update, now.
      set (m1 := setClock _ (setStats _ m)).
      set (record := processedJob job _).
      destruct (IH (allJobs ++ [record]) m1)
        as (built & m' & Hrun & Hall & Hlen & Hstats & Hworld).
      exists (record :: built), m'. split; [|split; [|split; [|split]]].
      * rewrite Hrun. now rewrite <- app_assoc.
      * constructor; [|exact Hall]. eexists job, _. split; [reflexivity|].
        exact Hm.
      * cbn [length]. lia.
      * rewrite Hstats. subst m1. destruct m as [? ? [] ? ? ? ? ?].
        unfold addFiltered. simpl. f_equal. lia.
      * eapply sameWorld_trans; [|exact Hworld]. subst m1. repeat split.
    + cbn [negb]. destruct (IH allJobs m)
        as (built & m' & Hrun & Hall & Hlen & Hstats & Hworld).
      exists built, m'. repeat split; auto; try apply Hworld.
      cbn [length]. lia.
Qed.

(** What the page loop leaves behind: the records it built, each from a
    posting that passes the filter, the two counters it moved, and
    everything it does not touch. *)
Lemma pageLoop_records pagesLeft :
  forall page startIndex allJobs m,
    let r := pageLoop pagesLeft page startIndex allJobs m in
    exists built scraped,
      (forall records, fst r = Resolved records -> records = allJobs ++ built)
      /\ Forall (builtFrom (h1bCompanies m)) built
      /\ jobsFiltered (stats (snd r)) = jobsFiltered (stats m) + length built
      /\ jobsScraped (stats (snd r)) = jobsScraped (stats m) + scraped
      /\ length built <= scraped
      /\ jobsInserted (stats (snd r)) = jobsInserted (stats m)
      /\ jobsDuplicated (stats (snd r)) = jobsDuplicated (stats m)
      /\ h1bCompanies (snd r) = h1bCompanies m
      /\ dbManager (snd r) = dbManager m
      /\ resultsFile (snd r) = resultsFile m
      /\ (forall records, fst r = Resolved records ->
                          status (stats (snd r)) = status (stats m)).
Proof.
  induction pagesLeft as [|pages IH]; intros page startIndex allJobs m r.
  - subst r. exists [], 0. simpl. rewrite app_nil_r.
    repeat split; auto; try lia. now intros records [= <-].
  - subst r. rewrite pageLoop_step.
    destruct (answer m) as [e|data].
    + exists [], 0. simpl. repeat split; auto; try lia; discriminate.
    + cbn zeta. set (m1 := setStats (countApiCall (stats m)) (requested m)).
      destruct (jobs_results data) as [[|job rest]|].
      * exists [], 0. simpl. rewrite app_nil_r.
        repeat split; auto; try lia. now intros records [= <-].
      * set (m2 := setStats _ m1).
        destruct (jobLoop_records (job :: rest) allJobs m2)
          as (built & m3 & Hrun & Hall & Hlen & Hstats & Hworld).
        rewrite Hrun.
        destruct Hworld as (_ & Hc & Hdb & _ & Hfile & _).
        destruct (IH (S page) (startIndex + 10) (allJobs ++ built) m3)
          as (built2 & scraped2 & Hres & Hall2 & Hf & Hs & Hle & Hi & Hd
              & Hc2 & Hdb2 & Hfile2 & Hstatus).
        cbn zeta in *.
        exists (built ++ built2), (length (job :: rest) + scraped2).
        rewrite Hf, Hs, Hi, Hd, Hc2, Hdb2, Hfile2, Hc, Hdb, Hfile, Hstats.
        subst m2 m1. rewrite length_app. simpl.
        repeat split; auto; try lia.
        -- intros records Hr. rewrite (Hres records Hr).
           now rewrite app_assoc.
        -- apply Forall_app. split; [exact Hall|].
           rewrite Hc in Hall2. exact Hall2.
        -- simpl in Hlen. lia.
        -- intros records Hr. rewrite (Hstatus records Hr), Hstats.
           reflexivity.
      * exists [], 0. simpl. rewrite app_nil_r.
        repeat split; auto; try lia. now intros records [= <-].
Qed.

(** X22.  The records [processJobs] returns are exactly as many as it
    counted in jobsFiltered, each is built from a posting whose company
    passes the filter, so its company name is not empty and is itself
    accepted by the reference set; and it never counts more filtered than
    scraped postings. *)
Theorem processJobs_records
        (m m' : Machine) (records : list Job) :
  processJobs m = (Resolved records, m') ->
  jobsFiltered (stats m') = jobsFiltered (stats m) + length records
  /\ jobsFiltered (stats m') - jobsFiltered (stats m)
     <= jobsScraped (stats m') - jobsScraped (stats m)
  /\ Forall (fun record =>
               builtFrom (h1bCompanies m) record
               /\ company_name record <> EmptyString
               /\ isH1BCompany (h1bCompanies m) (Some (company_name record))
                  = true)
            records.
Proof.
  intros Hrun. unfold processJobs, tryCatch in Hrun.
  destruct (pageLoop_records maxPages 0 0 [] m)
    as (built & scraped & Hres & Hall & Hf & Hs & Hle & _).
  cbn zeta in *.
  destruct (pageLoop maxPages 0 0 [] m) as [[l|e|e] m2] eqn:Hloop;
    try discriminate.
  injection Hrun as <- <-. cbn [fst snd] in *.
  rewrite (Hres l eq_refl). cbn [app].
  split; [exact Hf|]. split; [lia|].
  apply List.Forall_forall. intros record Hin.
  rewrite List.Forall_forall in Hall. pose proof (Hall record Hin) as Hb.
  split; [exact Hb|].
  destruct Hb as (raw & t & -> & Hmatch).
  destruct (isH1BCompany_name _ _ Hmatch) as (c & Hc & Hne).
  unfold processedJob. cbn [company_name]. rewrite Hc in *.
  cbn [orEmpty]. split; [exact Hne | exact Hmatch].
Qed.

Lemma processJobs_records_witness :
  exists records m',
    processJobs twoPages = (Resolved records, m')
    /\ Forall (fun record =>
                 isH1BCompany sponsors (Some (company_name record)) = true)
              records.
Proof.
  destruct (processJobs twoPages) as [[records|e|e] m'] eqn:Hrun;
    try (vm_compute in Hrun; discriminate).
  exists records, m'. split; [reflexivity|].
  destruct (processJobs_records twoPages m' records Hrun) as (_ & _ & Hall).
  apply List.Forall_forall. intros record Hin.
  rewrite List.Forall_forall in Hall. now apply Hall.
Defined.

Lemma pageLoop_rejected pagesLeft :
  forall page startIndex allJobs m e m',
    pageLoop pagesLeft page startIndex allJobs m = (Rejected e, m') ->
    status (stats m') = "error"
    /\ errorMessage (stats m') = Some (message e)
    /\ exists earlier,
        earlier < pagesLeft
        /\ requests (net m') = requests (net m) + S earlier
        /\ respond (net m) (requests (net m) + earlier)
                   (searchRequest (serpApiKey m)) = inl e.
Proof.
  induction pagesLeft as [|pages IH];
    intros page startIndex allJobs m e m' Hrun; [discriminate|].
  rewrite pageLoop_step in Hrun. unfold answer in Hrun.
  destruct (respond (net m) (requests (net m)) _) as [e0|data] eqn:Hans.
  - injection Hrun as <- <-. cbn. repeat split.
    exists 0. rewrite Nat.add_0_r. repeat split; [lia | lia | exact Hans].
  - cbn zeta in Hrun.
    destruct (jobs_results data) as [[|job rest]|]; try discriminate.
    set (m2 := setStats _ _) in Hrun.
    destruct (jobLoop_records (job :: rest) allJobs m2)
      as (built & m3 & Hloop & _ & _ & _ & Hworld).
    rewrite Hloop in Hrun.
    destruct Hworld as (Hkey & _ & _ & Hnet & _ & _).
    destruct (IH _ _ _ _ _ _ Hrun) as (Hs & Hm & earlier & Hlt & Hreq & Hresp).
    split; [exact Hs|]. split; [exact Hm|].
    exists (S earlier). rewrite Hnet, Hkey in *. subst m2.
    cbn [net requests respond setStats requested setNet serpApiKey] in *.
    repeat split; [lia | lia |].
    rewrite <- Hresp. f_equal. lia.
Qed.

(** X23.  When a request fails, [processJobs] is rejected with the error of
    that request.  The statistics then carry status error and the message
    of the error, the failed request is the last one issued, and the
    records built from the pages before it are not returned. *)
Theorem processJobs_fetch_failure (m m' : Machine) (e : JsError) :
  processJobs m = (Rejected e, m') ->
  status (stats m') = "error"
  /\ errorMessage (stats m') = Some (message e)
  /\ exists earlier,
      earlier < 3
      /\ requests (net m') = requests (net m) + S earlier
      /\ respond (net m) (requests (net m) + earlier)
                 (searchRequest (serpApiKey m)) = inl e.
Proof.
  intros Hrun. unfold processJobs, tryCatch in Hrun.
  destruct (pageLoop maxPages 0 0 [] m) as [[l|e0|e0] m2] eqn:Hloop;
    try discriminate.
  unfold bind, updateStats, update, throw in Hrun.
  injection Hrun as <- <-.
  destruct (pageLoop_rejected _ _ _ _ _ _ _ Hloop)
    as (_ & _ & earlier & Hlt & Hreq & Hresp).
  cbn [stats setStats markError status errorMessage net].
  repeat split. exists earlier. repeat split; auto.
Qed.

(** One page of ten postings, then the service is down. *)
Lemma processJobs_fetch_failure_witness :
  fst (processJobs thenDown) = Rejected networkDown
  /\ status (stats (snd (processJobs thenDown))) = "error"
  /\ requests (net (snd (processJobs thenDown))) = 2.
Proof.
  destruct (processJobs_fetch_failure
              thenDown (snd (processJobs thenDown)) networkDown)
    as (Hstatus & _ & _).
  - vm_compute. reflexivity.
  - split; [reflexivity|]. split; [exact Hstatus | reflexivity].
Defined.

Lemma pageLoop_full_page pages page startIndex allJobs m job rest :
  answer m = inr (mkData (Some (job :: rest))) ->
  exists built m3,
    pageLoop (S pages) page startIndex allJobs m
    = pageLoop pages (S page) (startIndex + 10) (allJobs ++ built) m3
    /\ net m3 = mkNet (respond (net m)) (S (requests (net m)))
    /\ serpApiKey m3 = serpApiKey m
    /\ status (stats m3) = status (stats m)
    /\ apiCallsMade (stats m3) = S (apiCallsMade (stats m))
    /\ jobsScraped (stats m3) = jobsScraped (stats m) + S (length rest).
Proof.
  intros Hans. rewrite pageLoop_step, Hans. cbn zeta. cbn [jobs_results].
  set (m2 := setStats _ (setStats _ (requested m))).
  destruct (jobLoop_records (job :: rest) allJobs m2)
    as (built & m3 & Hrun & _ & _ & Hstats & Hworld).
  rewrite Hrun. exists built, m3.
  destruct Hworld as (Hkey & _ & _ & Hnet & _ & _).
  rewrite Hnet, Hkey, Hstats. subst m2. repeat split.
Qed.

(** X24.  At most three pages are fetched: when the first three requests
    are answered with postings, [processJobs] resolves after exactly three
    requests, having counted three calls and the postings of the three
    pages; a fourth request is never issued, whatever the service would
    answer. *)
Theorem processJobs_page_budget
        (m : Machine) (job1 job2 job3 : RawJob) (rest1 rest2 rest3 : list RawJob) :
  respond (net m) (requests (net m)) (searchRequest (serpApiKey m))
  = inr (mkData (Some (job1 :: rest1))) ->
  respond (net m) (1 + requests (net m)) (searchRequest (serpApiKey m))
  = inr (mkData (Some (job2 :: rest2))) ->
  respond (net m) (2 + requests (net m)) (searchRequest (serpApiKey m))
  = inr (mkData (Some (job3 :: rest3))) ->
  exists records m',
    processJobs m = (Resolved records, m')
    /\ requests (net m') = requests (net m) + 3
    /\ apiCallsMade (stats m') = apiCallsMade (stats m) + 3
    /\ jobsScraped (stats m')
       = jobsScraped (stats m)
         + length (job1 :: rest1) + length (job2 :: rest2)
         + length (job3 :: rest3)
    /\ status (stats m') = status (stats m).
Proof.
  intros H1 H2 H3. unfold processJobs, tryCatch, maxPages.
  destruct (pageLoop_full_page 2 0 0 [] m job1 rest1 H1)
    as (b1 & m1 & -> & Hn1 & Hk1 & Hs1 & Ha1 & Hj1).
  destruct (pageLoop_full_page 1 1 (0 + 10) ([] ++ b1) m1 job2 rest2)
    as (b2 & m2 & -> & Hn2 & Hk2 & Hs2 & Ha2 & Hj2).
  { unfold answer. rewrite Hn1, Hk1. exact H2. }
  destruct (pageLoop_full_page 0 2 (0 + 10 + 10) (([] ++ b1) ++ b2) m2
                               job3 rest3)
    as (b3 & m3 & -> & Hn3 & Hk3 & Hs3 & Ha3 & Hj3).
  { unfold answer. rewrite Hn2, Hk2, Hn1. cbn [respond requests].
    rewrite Hk1. exact H3. }
  cbn [pageLoop]. unfold ret.
  eexists _, m3. split; [reflexivity|].
  rewrite Hn3, Hn2, Hn1, Ha3, Ha2, Ha1, Hj3, Hj2, Hj1, Hs3, Hs2, Hs1.
  cbn [requests length]. repeat split; lia.
Qed.

(** A service with ten postings on every page. *)
Lemma processJobs_page_budget_witness :
  exists records m',
    processJobs busyMachine = (Resolved records, m')
    /\ requests (net m') = 3
    /\ jobsScraped (stats m') = 30.
Proof.
  destruct (processJobs_page_budget
              busyMachine (posting "Google LLC") (posting "Google LLC")
              (posting "Google LLC") (tl firstPage) (tl firstPage)
              (tl firstPage) eq_refl eq_refl eq_refl)
    as (records & m' & Hrun & Hreq & _ & Hscraped & _).
  exists records, m'. split; [exact Hrun|]. split; [exact Hreq|].
  exact Hscraped.
Defined.

End ProcessMore.

(** ** Saving a batch *)

Section SavingMore.
Import JsString Matcher Builder Db Scraper.

Lemma insertJobsLoop_frame batch :
  forall inserted duplicated d,
    let '(_, _, d') := insertJobsLoop batch inserted duplicated d in
    scraping_logs d' = scraping_logs d
    /\ h1b_companies d' = h1b_companies d
    /\ faults d' = faults d.
Proof.
  induction batch as [|job rest IH]; intros inserted duplicated d.
  - simpl. auto.
  - cbn [insertJobsLoop]. unfold runInsertJob, execute. cbn [jobs].
    destruct (faults d (executed d)) as [e|];
      [|destruct (jobs d !! generateJobHash job)];
      cbn [Nat.ltb Nat.leb];
      match goal with
      | |- context [insertJobsLoop rest ?i ?k ?d1] =>
          specialize (IH i k d1);
          destruct (insertJobsLoop rest i k d1) as [[i' k'] d'];
          exact IH
      end.
Qed.

Lemma insertJobs_frame batch d :
  scraping_logs (snd (insertJobs batch d)) = scraping_logs d
  /\ h1b_companies (snd (insertJobs batch d)) = h1b_companies d
  /\ faults (snd (insertJobs batch d)) = faults d.
Proof.
  rewrite insertJobs_unfold. destruct batch as [|job rest]; [auto|].
  cbn zeta.
  pose proof (insertJobsLoop_frame (job :: rest) 0 0 (snd (execute d)))
    as Hloop.
  destruct (insertJobsLoop (job :: rest) 0 0 (snd (execute d)))
    as [[i k] d2].
  cbn [fst snd]. destruct (faults d2 (executed d2)); exact Hloop.
Qed.

(** The two outcomes of [saveJobsToCSV]: every write taken, or the first
    write that fails. *)
Lemma saveJobsToCSV_writable batch m :
  writable (resultsFile m) ->
  exists f,
    saveJobsToCSV batch m = (Resolved tt, setFile f m)
    /\ exists_ f = true
    /\ written f = written (resultsFile m) ++ batch
    /\ writeFaults f = writeFaults (resultsFile m).
Proof.
  intros Hw. unfold saveJobsToCSV, tryCatch, bind, access, writeRecords.
  destruct (exists_ (resultsFile m)) eqn:Hex.
  - rewrite Hw. eexists. split; [reflexivity|]. repeat split.
  - rewrite Hw. cbn [resultsFile setFile writeFaults writes written].
    rewrite Hw. eexists. split; [reflexivity|].
    cbn [exists_ written writeFaults]. rewrite app_nil_r. repeat split.
Qed.

Lemma saveJobsToCSV_first_write_fails batch m e :
  writeFaults (resultsFile m) (writes (resultsFile m)) = Some e ->
  exists f,
    saveJobsToCSV batch m = (Rejected e, setFile f m)
    /\ written f = written (resultsFile m).
Proof.
  intros Hfail. unfold saveJobsToCSV, tryCatch, bind, access, writeRecords,
    throw.
  destruct (exists_ (resultsFile m)); rewrite Hfail;
    eexists; split; reflexivity.
Qed.

Lemma saveJobs_unfold job rest m :
  saveJobs (job :: rest) m =
  match insertJobs (job :: rest) (dbManager m) with
  | (Resolved counts, d) =>
      let m2 := setStats (setInsertCounts counts (stats m)) (setDb d m) in
      match saveJobsToCSV (job :: rest) m2 with
      | (Rejected e, m3) =>
          (Rejected e, setStats (markError e (stats m3)) m3)
      | r => r
      end
  | (Rejected e, d) =>
      (Rejected e, setStats (markError e (stats m)) (setDb d m))
  | (Crashed e, d) => (Crashed e, setDb d m)
  end.
Proof.
  unfold saveJobs, tryCatch, bind, onDb, updateStats, update, throw.
  cbn [length Nat.eqb].
  destruct (insertJobs (job :: rest) (dbManager m)) as [[counts|e|e] d];
    reflexivity.
Qed.

Lemma insertJobs_stores batch d :
  healthy d ->
  forall job, In job batch -> storedIn (snd (insertJobs batch d)) job.
Proof.
  intros Hd job Hin.
  destruct (insertJobs_healthy batch d Hd)
    as (i & k & d' & Hrun & _ & Hdom & _ & _).
  rewrite Hrun. cbn [snd]. unfold storedIn. apply elem_of_dom.
  rewrite Hdom. apply elem_of_union_r. unfold fingerprints.
  apply elem_of_list_to_set, list_elem_of_In, in_map. exact Hin.
Qed.

(** X25.  With a healthy store and a result file that takes every write,
    [saveJobs] stores a non-empty batch in both places: every job of the
    batch is in the table afterwards, the file has grown by the whole batch
    in order, including the jobs the table skipped as duplicates, and
    jobsInserted and jobsDuplicated add up to the size of the batch. *)
Theorem saveJobs_stores_and_backs_up (batch : list Job) (m : Machine) :
  healthy (dbManager m) ->
  writable (resultsFile m) ->
  batch <> [] ->
  fst (saveJobs batch m) = Resolved tt
  /\ (forall job, In job batch -> storedIn (dbManager (snd (saveJobs batch m))) job)
  /\ written (resultsFile (snd (saveJobs batch m)))
     = written (resultsFile m) ++ batch
  /\ exists_ (resultsFile (snd (saveJobs batch m))) = true
  /\ jobsInserted (stats (snd (saveJobs batch m)))
     + jobsDuplicated (stats (snd (saveJobs batch m))) = length batch
  /\ status (stats (snd (saveJobs batch m))) = status (stats m).
Proof.
  intros Hd Hw Hne. destruct batch as [|job rest]; [congruence|].
  rewrite saveJobs_unfold.
  pose proof (insertJobs_stores (job :: rest) (dbManager m) Hd) as Hstored.
  destruct (insertJobs_healthy (job :: rest) (dbManager m) Hd)
    as (i & k & d' & Hrun & _ & _ & _ & Hk).
  rewrite Hrun in *. cbn [snd] in Hstored. cbn zeta.
  set (m2 := setStats _ _).
  destruct (saveJobsToCSV_writable (job :: rest) m2 Hw)
    as (f & Hsave & Hex & Hwritten & _).
  rewrite Hsave. subst m2.
  cbn [fst snd dbManager resultsFile stats setFile setStats setDb
       setInsertCounts jobsInserted jobsDuplicated status].
  repeat split; auto.
Qed.

(** [jobC] is a duplicate for the table and still goes to the file. *)
Lemma saveJobs_stores_and_backs_up_witness :
  fst (saveJobs [jobC; jobB] savingMachine) = Resolved tt
  /\ written (resultsFile (snd (saveJobs [jobC; jobB] savingMachine)))
     = [jobC; jobB]
  /\ jobsInserted (stats (snd (saveJobs [jobC; jobB] savingMachine))) = 1
  /\ jobsDuplicated (stats (snd (saveJobs [jobC; jobB] savingMachine))) = 1.
Proof.
  destruct (saveJobs_stores_and_backs_up [jobC; jobB] savingMachine)
    as (Hout & _ & Hwritten & _).
  - intros n. reflexivity.
  - intros n. reflexivity.
  - discriminate.
  - split; [exact Hout|]. split; [exact Hwritten|].
    split; vm_compute; reflexivity.
Defined.

(** X26.  The table and the file are not written together: when the store
    is healthy and the first write to the result file fails, [saveJobs] is
    rejected with the error of the file and marks the statistics, the file
    keeps its old rows, and the jobs of the batch are in the table all the
    same. *)
Theorem saveJobs_file_failure_keeps_rows
        (batch : list Job) (m : Machine) (e : JsError) :
  healthy (dbManager m) ->
  batch <> [] ->
  writeFaults (resultsFile m) (writes (resultsFile m)) = Some e ->
  fst (saveJobs batch m) = Rejected e
  /\ status (stats (snd (saveJobs batch m))) = "error"
  /\ errorMessage (stats (snd (saveJobs batch m))) = Some (message e)
  /\ written (resultsFile (snd (saveJobs batch m))) = written (resultsFile m)
  /\ (forall job, In job batch ->
                  storedIn (dbManager (snd (saveJobs batch m))) job).
Proof.
  intros Hd Hne Hfail. destruct batch as [|job rest]; [congruence|].
  rewrite saveJobs_unfold.
  pose proof (insertJobs_stores (job :: rest) (dbManager m) Hd) as Hstored.
  destruct (insertJobs_healthy (job :: rest) (dbManager m) Hd)
    as (i & k & d' & Hrun & _).
  rewrite Hrun in *. cbn [snd] in Hstored. cbn zeta.
  set (m2 := setStats _ _).
  destruct (saveJobsToCSV_first_write_fails (job :: rest) m2 e Hfail)
    as (f & Hsave & Hwritten).
  rewrite Hsave. subst m2.
  cbn [fst snd dbManager resultsFile stats setFile setStats setDb
       markError status errorMessage].
  repeat split; auto.
Qed.

Lemma saveJobs_file_failure_keeps_rows_witness :
  fst (saveJobs [jobB] fullDisk) = Rejected diskFull
  /\ written (resultsFile (snd (saveJobs [jobB] fullDisk))) = [jobA]
  /\ storedIn (dbManager (snd (saveJobs [jobB] fullDisk))) jobB.
Proof.
  destruct (saveJobs_file_failure_keeps_rows [jobB] fullDisk diskFull)
    as (Hout & _ & _ & Hwritten & Hstored).
  - intros n. reflexivity.
  - discriminate.
  - reflexivity.
  - split; [exact Hout|]. split; [exact Hwritten|].
    apply Hstored. now left.
Defined.

End SavingMore.

(** ** One run from end to end *)

Section RunMore.
Import JsString Matcher Builder Db Scraper.

Lemma scrapeAttempt_unfold m :
  scrapeAttempt m =
  match processJobs (setStats freshStats m) with
  | (Resolved batch, m1) =>
      match saveJobs batch m1 with
      | (Resolved _, m2) =>
          match logRun m2 with
          | (Resolved _, m3) => (Resolved batch, m3)
          | (Rejected e, m3) => (Rejected e, m3)
          | (Crashed e, m3) => (Crashed e, m3)
          end
      | (Rejected e, m2) => (Rejected e, m2)
      | (Crashed e, m2) => (Crashed e, m2)
      end
  | (Rejected e, m1) => (Rejected e, m1)
  | (Crashed e, m1) => (Crashed e, m1)
  end.
Proof.
  unfold scrapeAttempt, bind, update, ret.
  destruct (processJobs (setStats freshStats m)) as [[batch|e|e] m1];
    reflexivity.
Qed.

(** What [processJobs] leaves alone, and what its result tells. *)
Lemma processJobs_frame m :
  let r := processJobs m in
  dbManager (snd r) = dbManager m
  /\ resultsFile (snd r) = resultsFile m
  /\ h1bCompanies (snd r) = h1bCompanies m
  /\ jobsInserted (stats (snd r)) = jobsInserted (stats m)
  /\ jobsDuplicated (stats (snd r)) = jobsDuplicated (stats m)
  /\ jobsFiltered (stats (snd r)) - jobsFiltered (stats m)
     <= jobsScraped (stats (snd r)) - jobsScraped (stats m)
  /\ match fst r with
     | Resolved records =>
         jobsFiltered (stats (snd r)) = jobsFiltered (stats m) + length records
         /\ status (stats (snd r)) = status (stats m)
         /\ Forall (builtFrom (h1bCompanies m)) records
     | Rejected _ => True
     | Crashed _ => False
     end.
Proof.
  intros r. subst r. unfold processJobs, tryCatch.
  destruct (pageLoop_records maxPages 0 0 [] m)
    as (built & scraped & Hres & Hall & Hf & Hs & Hle & Hi & Hd & Hc & Hdb
        & Hfile & Hstatus).
  destruct (pageLoop_calls maxPages 0 0 [] m) as (issued & Hcalls).
  cbn zeta in *.
  destruct (pageLoop maxPages 0 0 [] m) as [[l|e|e] m2];
    cbn [fst snd] in *.
  - rewrite (Hres l eq_refl) in *. cbn [app].
    repeat split; auto; try lia. now apply (Hstatus built).
  - unfold bind, updateStats, update, throw.
    cbn [fst snd dbManager resultsFile h1bCompanies stats setStats markError
         jobsInserted jobsDuplicated jobsFiltered jobsScraped].
    repeat split; auto; lia.
  - destruct Hcalls as (_ & _ & _ & _ & _ & []).
Qed.

(** What [saveJobs] leaves alone on every outcome. *)
Lemma saveJobs_frame batch m :
  let r := saveJobs batch m in
  scraping_logs (dbManager (snd r)) = scraping_logs (dbManager m)
  /\ faults (dbManager (snd r)) = faults (dbManager m)
  /\ jobsFiltered (stats (snd r)) = jobsFiltered (stats m)
  /\ jobsScraped (stats (snd r)) = jobsScraped (stats m)
  /\ h1bCompanies (snd r) = h1bCompanies m
  /\ match fst r with
     | Resolved _ => status (stats (snd r)) = status (stats m)
     | Rejected _ => True
     | Crashed _ => False
     end.
Proof.
  intros r. subst r. destruct batch as [|job rest].
  - cbn. repeat split.
  - rewrite saveJobs_unfold.
    destruct (insertJobs_frame (job :: rest) (dbManager m)) as (Hl & _ & Hf).
    pose proof (insertJobs_unfold (job :: rest) (dbManager m)) as Hno.
    destruct (insertJobs (job :: rest) (dbManager m)) as [[counts|e|e] d];
      cbn [snd] in Hl, Hf.
    + cbn zeta. set (m2 := setStats _ _).
      unfold saveJobsToCSV, tryCatch, bind, access, writeRecords, throw.
      destruct (exists_ (resultsFile m2));
        repeat (match goal with
                | |- context [writeFaults ?f ?n] =>
                    destruct (writeFaults f n)
                end; cbn [resultsFile setFile writeFaults writes]);
        subst m2; cbn; repeat split; auto.
    + cbn. repeat split; auto.
    + exfalso. cbn zeta in Hno.
      destruct (faults _ _) in Hno; discriminate.
Qed.

Lemma logRun_healthy m :
  faults (dbManager m) (executed (dbManager m)) = None ->
  exists n d,
    logRun m = (Resolved n, setDb d m)
    /\ scraping_logs d = scraping_logs (dbManager m) ++ [logRow (stats m)]
    /\ jobs d = jobs (dbManager m).
Proof.
  intros Hok. unfold logRun, onDb, logScrapingRun, execute. rewrite Hok.
  eexists _, _. repeat split.
Qed.

Lemma failureHandler_healthy e m :
  faults (dbManager m) (executed (dbManager m)) = None ->
  exists d,
    failureHandler e m
    = (Rejected e, setDb d (setStats (markError e (stats m)) m))
    /\ scraping_logs d
       = scraping_logs (dbManager m) ++ [logRow (markError e (stats m))].
Proof.
  intros Hok. unfold failureHandler, bind, updateStats, update, throw.
  destruct (logRun_healthy (setStats (markError e (stats m)) m) Hok)
    as (n & d & Hlog & Hrows & _).
  rewrite Hlog. exists d. split; [reflexivity | exact Hrows].
Qed.

(** X27.  On a healthy store every run, whether it succeeds or fails, adds
    exactly one row to the run log, after all earlier rows, and that row
    holds the statistics the run ends with. *)
Theorem scrapeJobs_logs_one_row (m : Machine) :
  healthy (dbManager m) ->
  scraping_logs (dbManager (snd (scrapeJobs m)))
  = scraping_logs (dbManager m) ++ [logRow (stats (snd (scrapeJobs m)))].
Proof.
  intros Hd. rewrite scrapeJobs_unfold, scrapeAttempt_unfold.
  set (m0 := setStats freshStats m).
  destruct (processJobs_frame m0) as (Hdb1 & _ & _ & _ & _ & _ & Hout1).
  cbn zeta in *. change (dbManager m0) with (dbManager m) in Hdb1.
  destruct (processJobs m0) as [[batch|e|e] m1]; cbn [fst snd] in *.
  - destruct (saveJobs_frame batch m1) as (Hl2 & Hf2 & _ & _ & _ & Hout2).
    cbn zeta in *. rewrite Hdb1 in Hl2, Hf2.
    destruct (saveJobs batch m1) as [[u|e|e] m2]; cbn [fst snd] in *.
    + destruct (logRun_healthy m2) as (n & d & Hlog & Hrows & _).
      { rewrite Hf2. apply Hd. }
      rewrite Hlog. cbn [snd dbManager setDb stats]. now rewrite Hrows, Hl2.
    + destruct (failureHandler_healthy e m2) as (d & Hfail & Hrows).
      { rewrite Hf2. apply Hd. }
      rewrite Hfail. cbn [snd dbManager setDb stats setStats].
      now rewrite Hrows, Hl2.
    + destruct Hout2.
  - destruct (failureHandler_healthy e m1) as (d & Hfail & Hrows).
    { rewrite Hdb1. apply Hd. }
    rewrite Hfail. cbn [snd dbManager setDb stats setStats].
    now rewrite Hrows, Hdb1.
  - destruct Hout1.
Qed.

Lemma scrapeJobs_logs_one_row_witness :
  map (fun row => (jobsScraped row, jobsFiltered row, jobsInserted row,
                   jobsDuplicated row, apiCallsMade row, status row))
      (scraping_logs (dbManager (snd (scrapeJobs steadyMachine))))
  = [(10, 3, 3, 0, 2, "success")].
Proof.
  rewrite (scrapeJobs_logs_one_row steadyMachine) by (intros n; reflexivity).
  vm_compute. reflexivity.
Defined.

Lemma saveJobs_resolved batch m m2 :
  healthy (dbManager m) ->
  saveJobs batch m = (Resolved tt, m2) ->
  (forall job, In job batch -> storedIn (dbManager m2) job)
  /\ (batch = [] -> stats m2 = stats m)
  /\ (batch <> [] ->
      jobsInserted (stats m2) + jobsDuplicated (stats m2) = length batch).
Proof.
  intros Hd Hrun. destruct batch as [|job rest].
  - injection Hrun as <-. split; [intros job []|]. split; [reflexivity|].
    intros H. now destruct H.
  - rewrite saveJobs_unfold in Hrun.
    pose proof (insertJobs_stores (job :: rest) (dbManager m) Hd) as Hstored.
    destruct (insertJobs_healthy (job :: rest) (dbManager m) Hd)
      as (i & k & d' & Hins & _ & _ & _ & Hk).
    rewrite Hins in *. cbn [snd] in Hstored. cbn zeta in Hrun.
    set (m1 := setStats _ _) in Hrun.
    pose proof (saveJobsToCSV_quiet (job :: rest) m1) as _.
    assert (Hkeep : forall r m3,
               saveJobsToCSV (job :: rest) m1 = (r, m3) ->
               dbManager m3 = dbManager m1 /\ stats m3 = stats m1).
    { unfold saveJobsToCSV, tryCatch, bind, access, writeRecords, throw.
      intros r m3.
      destruct (exists_ (resultsFile m1));
        repeat (match goal with
                | |- context [writeFaults ?f ?n] =>
                    destruct (writeFaults f n)
                end; cbn [resultsFile setFile writeFaults writes]);
        intros [= <- <-]; split; reflexivity. }
    destruct (saveJobsToCSV (job :: rest) m1) as [[u|e|e] m3] eqn:Hcsv;
      try discriminate.
    assert (m3 = m2) by congruence. subst m3.
    destruct (Hkeep _ _ eq_refl) as [Hdb Hstats].
    rewrite Hdb, Hstats. subst m1.
    cbn [dbManager stats setStats setDb setInsertCounts jobsInserted
         jobsDuplicated fst snd].
    repeat split; auto. discriminate.
Qed.

(** X28.  When a run on a healthy store resolves, its statistics agree with
    what it returns: the records returned are as many as jobsFiltered,
    jobsInserted and jobsDuplicated add up to the same number, jobsFiltered
    does not exceed jobsScraped, the status is success, every record is
    built from a posting that passes the filter, and every record is in the
    table.  The counters of an earlier run play no part. *)
Theorem scrapeJobs_statistics_agree
        (m m' : Machine) (records : list Job) :
  healthy (dbManager m) ->
  scrapeJobs m = (Resolved records, m') ->
  jobsFiltered (stats m') = length records
  /\ jobsInserted (stats m') + jobsDuplicated (stats m') = length records
  /\ jobsFiltered (stats m') <= jobsScraped (stats m')
  /\ status (stats m') = "success"
  /\ Forall (builtFrom (h1bCompanies m)) records
  /\ forall job, In job records -> storedIn (dbManager m') job.
Proof.
  intros Hd Hrun. rewrite scrapeJobs_unfold, scrapeAttempt_unfold in Hrun.
  set (m0 := setStats freshStats m) in Hrun.
  destruct (processJobs_frame m0)
    as (Hdb1 & _ & _ & Hi1 & Hk1 & Hle1 & Hout1).
  cbn zeta in *. change (dbManager m0) with (dbManager m) in Hdb1.
  destruct (processJobs m0) as [[batch|e|e] m1]; cbn [fst snd] in *.
  - destruct Hout1 as (Hf1 & Hs1 & Hall).
    pose proof (saveJobs_frame batch m1) as Hframe. cbn zeta in Hframe.
    destruct (saveJobs batch m1) as [[[]|e|e] m2] eqn:Hsave;
      cbn [fst snd] in *.
    + destruct Hframe as (_ & Hf2 & Hfil2 & Hsc2 & _ & Hs2).
      assert (Hd1 : healthy (dbManager m1)) by (now rewrite Hdb1).
      destruct (saveJobs_resolved batch m1 m2 Hd1 Hsave)
        as (Hstored & Hnil & Hcons).
      destruct (logRun_healthy m2) as (n & d & Hlog & _ & Hjobs).
      { rewrite Hf2, Hdb1. apply Hd. }
      rewrite Hlog in Hrun. injection Hrun as <- <-.
      cbn [stats dbManager setDb].
      change (jobsFiltered (stats m0)) with 0 in *.
      change (jobsScraped (stats m0)) with 0 in *.
      change (jobsInserted (stats m0)) with 0 in *.
      change (jobsDuplicated (stats m0)) with 0 in *.
      change (status (stats m0)) with "success" in *.
      change (h1bCompanies m0) with (h1bCompanies m) in *.
      rewrite Hfil2, Hsc2, Hs2, Hs1, Hf1.
      split; [reflexivity|]. split.
      * destruct batch as [|job rest].
        -- rewrite (Hnil eq_refl), Hi1, Hk1. reflexivity.
        -- apply Hcons. discriminate.
      * split; [lia|]. split; [reflexivity|]. split; [exact Hall|].
        intros job Hin. unfold storedIn. rewrite Hjobs. now apply Hstored.
    + destruct (failureHandler e m2) as [[x|e'|e'] m3] eqn:Hfail;
        try discriminate.
      pose proof (failureHandler_outcome e m2) as [Hfo _].
      rewrite Hfail in Hfo. cbn [fst] in Hfo.
      destruct (faults _ _) in Hfo; discriminate.
    + destruct Hframe as (_ & _ & _ & _ & _ & []).
  - destruct (failureHandler e m1) as [[x|e'|e'] m3] eqn:Hfail;
      try discriminate.
    pose proof (failureHandler_outcome e m1) as [Hfo _].
    rewrite Hfail in Hfo. cbn [fst] in Hfo.
    destruct (faults _ _) in Hfo; discriminate.
  - destruct Hout1.
Qed.

(** A scraper that still carries the counters of a failed run. *)
Lemma scrapeJobs_statistics_agree_witness :
  exists records m',
    scrapeJobs steadyMachine = (Resolved records, m')
    /\ jobsFiltered (stats m') = length records
    /\ length records = 3
    /\ status (stats m') = "success".
Proof.
  destruct (scrapeJobs steadyMachine) as [[records|e|e] m'] eqn:Hrun;
    try (vm_compute in Hrun; discriminate).
  destruct (scrapeJobs_statistics_agree steadyMachine m' records)
    as (Hf & _ & _ & Hs & _).
  - intros n. reflexivity.
  - exact Hrun.
  - exists records, m'. split; [reflexivity|]. split; [exact Hf|].
    split; [|exact Hs].
    assert (H : length
                  match fst (scrapeJobs steadyMachine) with
                  | Resolved l => l
                  | _ => []
                  end = 3) by (vm_compute; reflexivity).
    now rewrite Hrun in H.
Defined.

Lemma jobLoop_hashes results :
  forall allJobs m,
  exists built m',
    jobLoop results allJobs m = (Resolved (allJobs ++ built), m')
    /\ map generateJobHash built
       = map postingHash (sponsored (h1bCompanies m) results)
    /\ stats m' = addFiltered (length built) (stats m)
    /\ sameWorld m m'.
Proof.
  induction results as [|job rest IH]; intros allJobs m.
  - exists [], m. simpl. unfold ret. rewrite app_nil_r, addFiltered_0.
    repeat split.
  - cbn [jobLoop sponsored List.filter].
    destruct (isH1BCompany (h1bCompanies m) (r_company_name job)) eqn:Hm.
    + cbn [negb]. unfold bind, updateStats, update, now.
      set (m1 := setClock _ (setStats _ m)).
      set (record := processedJob job _).
      destruct (IH (allJobs ++ [record]) m1)
        as (built & m' & Hrun & Hhashes & Hstats & Hworld).
      exists (record :: built), m'. split; [|split; [|split]].
      * rewrite Hrun. now rewrite <- app_assoc.
      * cbn [map]. f_equal. exact Hhashes.
      * rewrite Hstats. subst m1. destruct m as [? ? [] ? ? ? ? ?].
        unfold addFiltered. simpl. f_equal. lia.
      * eapply sameWorld_trans; [|exact Hworld]. subst m1. repeat split.
    + cbn [negb]. destruct (IH allJobs m)
        as (built & m' & Hrun & Hhashes & Hstats & Hworld).
      exists built, m'. auto.
Qed.

Lemma pageLoop_full_page_hashes pages page startIndex allJobs m job rest :
  answer m = inr (mkData (Some (job :: rest))) ->
  exists built m3,
    pageLoop (S pages) page startIndex allJobs m
    = pageLoop pages (S page) (startIndex + 10) (allJobs ++ built) m3
    /\ map generateJobHash built
       = map postingHash (sponsored (h1bCompanies m) (job :: rest))
    /\ net m3 = mkNet (respond (net m)) (S (requests (net m)))
    /\ serpApiKey m3 = serpApiKey m
    /\ h1bCompanies m3 = h1bCompanies m
    /\ jobsScraped (stats m3) = jobsScraped (stats m) + S (length rest).
Proof.
  intros Hans. rewrite pageLoop_step, Hans. cbn zeta. cbn [jobs_results].
  set (m2 := setStats _ (setStats _ (requested m))).
  destruct (jobLoop_hashes (job :: rest) allJobs m2)
    as (built & m3 & Hrun & Hhashes & Hstats & Hworld).
  rewrite Hrun. exists built, m3.
  destruct Hworld as (Hkey & Hc & _ & Hnet & _ & _).
  rewrite Hnet, Hkey, Hstats, Hc. subst m2. repeat split. exact Hhashes.
Qed.

(** X29.  The start index is not part of the request, so a service that
    answers by the query alone hands out the same page three times: the run
    then counts the postings of that page three times, and the fingerprints
    of the records it returns are those of the page's sponsored postings,
    three times over. *)
Theorem processJobs_repeats_page
        (m : Machine) (job : RawJob) (rest : list RawJob) :
  (forall n,
      respond (net m) n (searchRequest (serpApiKey m))
      = inr (mkData (Some (job :: rest)))) ->
  exists records m',
    processJobs m = (Resolved records, m')
    /\ jobsScraped (stats m')
       = jobsScraped (stats m) + 3 * length (job :: rest)
    /\ let page := map postingHash (sponsored (h1bCompanies m) (job :: rest)) in
       map generateJobHash records = page ++ page ++ page.
Proof.
  intros Hsame. unfold processJobs, tryCatch, maxPages.
  destruct (pageLoop_full_page_hashes 2 0 0 [] m job rest (Hsame _))
    as (b1 & m1 & -> & Hh1 & Hn1 & Hk1 & Hc1 & Hj1).
  destruct (pageLoop_full_page_hashes 1 1 (0 + 10) ([] ++ b1) m1 job rest)
    as (b2 & m2 & -> & Hh2 & Hn2 & Hk2 & Hc2 & Hj2).
  { unfold answer. rewrite Hn1, Hk1. apply Hsame. }
  destruct (pageLoop_full_page_hashes 0 2 (0 + 10 + 10) (([] ++ b1) ++ b2) m2
                                      job rest)
    as (b3 & m3 & -> & Hh3 & Hn3 & Hk3 & Hc3 & Hj3).
  { unfold answer. rewrite Hn2, Hk2, Hn1. cbn [respond requests].
    rewrite Hk1. apply Hsame. }
  cbn [pageLoop]. unfold ret.
  eexists _, m3. split; [reflexivity|]. split.
  - rewrite Hj3, Hj2, Hj1. cbn [length]. lia.
  - cbn zeta. cbn [app]. rewrite !map_app, Hh1, Hh2, Hh3, Hc2, Hc1.
    now rewrite <- app_assoc.
Qed.

(** The service that answers every request with the first page. *)
Lemma processJobs_repeats_page_witness :
  exists records m',
    processJobs busyMachine = (Resolved records, m')
    /\ jobsScraped (stats m') = 30
    /\ length (map generateJobHash records) = 9.
Proof.
  destruct (processJobs_repeats_page
              busyMachine (posting "Google LLC") (tl firstPage))
    as (records & m' & Hrun & Hscraped & Hhashes).
  - intros n. reflexivity.
  - exists records, m'. split; [exact Hrun|]. split; [exact Hscraped|].
    cbn zeta in Hhashes. rewrite Hhashes. vm_compute. reflexivity.
Defined.

End RunMore.
